(** * The agentic task orchestrator of UCode, embedded and verified

    This development embeds [src/server/agentic-orchestrator-streaming.js]:
    the tool dispatcher [executeTool], the progress publisher
    [publishProgress] and the conversation driver [processTask].  The
    program talks to four outside parties (the file system, the Redis
    broker and result store, the model provider and the shell); each of
    them is an explicit part of the state or an oracle of the environment,
    and JavaScript exceptions are an outcome of the computation. *)

From Stdlib Require Import String Ascii ZArith Lia Bool DecimalString.
From stdpp Require Import gmap strings list.

Open Scope string_scope.

(** ** JavaScript strings

    The string operations of the language that the program calls, on
    strings as lists of characters. *)

Module Js.

(** [`${x}`] and [String(x)] of a possibly missing string field. *)
Definition str (x : option string) : string :=
  match x with Some s => s | None => "undefined" end.

(** [x || d] on a possibly missing string: the empty string is falsy. *)
Definition or_else (x : option string) (d : string) : string :=
  match x with
  | Some s => if String.eqb s "" then d else s
  | None => d
  end.

(** [s.includes(t)] *)
Definition includes (s t : string) : bool :=
  match String.index 0 t s with Some _ => true | None => false end.

(** [s.split(c)] for a one-character separator. *)
Fixpoint split (c : ascii) (s : string) : list string :=
  match s with
  | EmptyString => [EmptyString]
  | String a s' =>
      if Ascii.eqb a c then EmptyString :: split c s'
      else match split c s' with
           | seg :: rest => String a seg :: rest
           | [] => [String a EmptyString]
           end
  end.

(** [segs.join(sep)] *)
Fixpoint join (sep : string) (segs : list string) : string :=
  match segs with
  | [] => EmptyString
  | [s] => s
  | s :: rest => s +:+ sep +:+ join sep rest
  end.

(** The expansion of the [$]-patterns of a replacement string when the
    pattern of [replace] is a string (no capture groups): [$$] is a dollar,
    [$&] the match, [$`] the text before it and [$'] the text after it. *)
Fixpoint substitution (before matched after repl : string) : string :=
  match repl with
  | String "$" (String c rest as tail) =>
      if Ascii.eqb c "$" then String "$" (substitution before matched after rest)
      else if Ascii.eqb c "&" then matched +:+ substitution before matched after rest
      else if Ascii.eqb c "`" then before +:+ substitution before matched after rest
      else if Ascii.eqb c "'" then after +:+ substitution before matched after rest
      else String "$" (substitution before matched after tail)
  | String a rest => String a (substitution before matched after rest)
  | EmptyString => EmptyString
  end.

(** [s.replace(pat, repl)] with a string pattern: the first occurrence only. *)
Definition replace (s pat repl : string) : string :=
  match String.index 0 pat s with
  | None => s
  | Some i =>
      let before := String.substring 0 i s in
      let after :=
        String.substring (i + String.length pat)
          (String.length s - (i + String.length pat)) s in
      before +:+ substitution before pat after repl +:+ after
  end.

(** The message of the [TypeError] that Node raises for a missing argument
    that must be [expected]. *)
Definition invalid_arg_type (name expected : string) : string :=
  let q := String (ascii_of_nat 34) EmptyString in
  "The " +:+ q +:+ name +:+ q +:+ " argument must be " +:+ expected
  +:+ ". Received undefined".

(** [content.split('\n').length] *)
Definition line_count (content : string) : nat :=
  List.length (split "010"%char content).

End Js.

(** ** Node's [path] module (POSIX flavour), as far as the program uses it

    [path.join] and [path.dirname] of the Node runtime, segment by segment:
    [normalize] drops empty and ["."] segments and lets a [".."] segment
    remove the segment before it. *)

Module NodePath.

Definition sep : ascii := "/"%char.

Definition starts_with_sep (p : string) : bool :=
  match p with String a _ => Ascii.eqb a sep | EmptyString => false end.

Fixpoint ends_with_sep (p : string) : bool :=
  match p with
  | EmptyString => false
  | String a EmptyString => Ascii.eqb a sep
  | String _ rest => ends_with_sep rest
  end.

(** One step of [normalizeString]: [stack] holds the segments kept so far,
    the last one first. *)
Definition norm_step (allowAboveRoot : bool) (stack : list string) (seg : string)
  : list string :=
  if String.eqb seg "" || String.eqb seg "." then stack
  else if String.eqb seg ".." then
    match stack with
    | top :: below =>
        if String.eqb top ".." then (if allowAboveRoot then seg :: stack else stack)
        else below
    | [] => if allowAboveRoot then [seg] else []
    end
  else seg :: stack.

Definition normalize_segments (allowAboveRoot : bool) (segs : list string)
  : list string :=
  rev (fold_left (norm_step allowAboveRoot) segs []).

(** [path.normalize] *)
Definition normalize (p : string) : string :=
  if String.eqb p "" then "."
  else
    let isAbsolute := starts_with_sep p in
    let trailingSeparator := ends_with_sep p in
    let body := Js.join "/" (normalize_segments (negb isAbsolute) (Js.split sep p)) in
    if String.eqb body "" then
      if isAbsolute then "/" else if trailingSeparator then "./" else "."
    else
      let body := if trailingSeparator then body +:+ "/" else body in
      if isAbsolute then "/" +:+ body else body.

(** [path.join(a, b)]; a missing (non-string) argument is a [TypeError]. *)
Definition join2 (a b : string) : string :=
  match String.eqb a "", String.eqb b "" with
  | true, true => "."
  | true, false => normalize b
  | false, true => normalize a
  | false, false => normalize (a +:+ "/" +:+ b)
  end.

(** [path.dirname]: scan from the end, skip the trailing separators and
    the last segment, cut before the separator that precedes it. *)
Fixpoint drop_while (f : ascii -> bool) (l : list ascii) : list ascii :=
  match l with
  | a :: l' => if f a then drop_while f l' else l
  | [] => []
  end.

Definition dirname (p : string) : string :=
  match p with
  | EmptyString => "."
  | String first rest =>
      let hasRoot := Ascii.eqb first sep in
      let scanned := rev (list_ascii_of_string rest) in
      let after_trailing := drop_while (fun a => Ascii.eqb a sep) scanned in
      let before_segment := drop_while (fun a => negb (Ascii.eqb a sep)) after_trailing in
      match before_segment with
      | [] => if hasRoot then "/" else "."
      | _ :: _ =>
          let e := List.length before_segment in
          if hasRoot && Nat.eqb e 1 then "//"
          else String.substring 0 e p
      end
  end.

End NodePath.

(** ** The file system behind Node's [fs.promises]

    A tree of directories and files, keyed by the list of path segments
    from the file-system root.  Paths are resolved lexically (symbolic
    links are not modelled); a relative path is resolved against the
    working directory of the process. *)

Module Fs.

Inductive node := File (content : string) | Dir.

Abbreviation tree := (gmap (list string) node).

Definition is_dir (n : node) : bool :=
  match n with Dir => true | File _ => false end.

(** An operation either yields a value or fails with a message. *)
Definition succeeds {A} (r : A + string) : bool :=
  match r with inl _ => true | inr _ => false end.

(** Where the operating system finds [p]. *)
Definition locate (cwd : list string) (p : string) : list string :=
  NodePath.normalize_segments false
    (((if NodePath.starts_with_sep p then [] else cwd) ++ Js.split NodePath.sep p)%list).

Definition node_at (t : tree) (key : list string) : option node :=
  match key with [] => Some Dir | _ => t !! key end.

Definition parent (key : list string) : list string := removelast key.

(** The directories [base/s1], [base/s1/s2], ... are created where they are
    missing; [None] when one of them is a regular file. *)
Fixpoint make_dirs (t : tree) (base segs : list string) : option tree :=
  match segs with
  | [] => Some t
  | s :: rest =>
      let key := (base ++ [s])%list in
      match t !! key with
      | Some (File _) => None
      | Some Dir => make_dirs t key rest
      | None => make_dirs (<[key := Dir]> t) key rest
      end
  end.

(** [fs.mkdir(p, { recursive: true })] *)
Definition mkdir (cwd : list string) (p : string) (t : tree) : tree + string :=
  match make_dirs t [] (locate cwd p) with
  | Some t' => inl t'
  | None => inr ("ENOTDIR: not a directory, mkdir '" +:+ p +:+ "'")
  end.

(** What lies between a string of the program and a file.  A file holds
    text, as [readFile(p, 'utf8')] returns it.  [utf8 s] is the text that
    the string [s] is read back as once it was written with the encoding
    ['utf8']: [s] itself, unless [s] holds a lone surrogate, which comes
    back as U+FFFD.  [fault key s] says whether the write of [s] to the
    file at [key] breaks off after the file was opened and emptied (the
    device is full, the device fails), with what message, and what text the
    file is left with. *)
Record disk := {
  utf8 : string -> string;
  fault : list string -> string -> option (string * string)
}.

(** A disk that never fails, for text that UTF-8 keeps as it is. *)
Definition sound : disk := {| utf8 := fun s => s; fault := fun _ _ => None |}.

(** The ways a write ends: the file holds the data; the write is refused
    before the file is opened, and nothing has changed; or the write breaks
    off after the file was opened. *)
Inductive written :=
| Done (t : tree)
| Refused (message : string)
| Broken (message : string) (t : tree).

(** The file is open: the data goes in, all of it or not. *)
Definition fill (d : disk) (key : list string) (content : string) (t : tree) : written :=
  match fault d key content with
  | Some (message, remains) => Broken message (<[key := File remains]> t)
  | None => Done (<[key := File (utf8 d content)]> t)
  end.

(** [fs.writeFile(p, data, 'utf8')]; data that is not a string is rejected
    before the file is opened. *)
Definition writeFile (d : disk) (cwd : list string) (p : string) (data : option string)
    (t : tree) : written :=
  match data with
  | None =>
      Refused (Js.invalid_arg_type "data"
                 "of type string or an instance of Buffer, TypedArray, or DataView")
  | Some content =>
      let key := locate cwd p in
      match node_at t key with
      | Some Dir =>
          Refused ("EISDIR: illegal operation on a directory, open '" +:+ p +:+ "'")
      | Some (File _) =>
          if NodePath.ends_with_sep p
          then Refused ("ENOTDIR: not a directory, open '" +:+ p +:+ "'")
          else fill d key content t
      | None =>
          match node_at t (parent key) with
          | Some Dir =>
              if NodePath.ends_with_sep p
              then Refused ("EISDIR: illegal operation on a directory, open '" +:+ p +:+ "'")
              else fill d key content t
          | Some (File _) => Refused ("ENOTDIR: not a directory, open '" +:+ p +:+ "'")
          | None => Refused ("ENOENT: no such file or directory, open '" +:+ p +:+ "'")
          end
      end
  end.

(** [fs.readFile(p, 'utf8')] *)
Definition readFile (cwd : list string) (p : string) (t : tree) : string + string :=
  match node_at t (locate cwd p) with
  | Some (File content) =>
      if NodePath.ends_with_sep p
      then inr ("ENOTDIR: not a directory, open '" +:+ p +:+ "'")
      else inl content
  | Some Dir => inr "EISDIR: illegal operation on a directory, read"
  | None => inr ("ENOENT: no such file or directory, open '" +:+ p +:+ "'")
  end.

Definition entry_of (dir : list string) (kv : list string * node)
  : option (string * bool) :=
  match rev kv.1 with
  | name :: rev_parent =>
      if decide (rev rev_parent = dir) then Some (name, is_dir kv.2) else None
  | [] => None
  end.

(** [fs.readdir(p, { withFileTypes: true })]: name and [isDirectory()] of
    every entry, in the order of the underlying map. *)
Definition readdir (cwd : list string) (p : string) (t : tree)
  : list (string * bool) + string :=
  let key := locate cwd p in
  match node_at t key with
  | Some Dir => inl (omap (entry_of key) (map_to_list t))
  | Some (File _) => inr ("ENOTDIR: not a directory, scandir '" +:+ p +:+ "'")
  | None => inr ("ENOENT: no such file or directory, scandir '" +:+ p +:+ "'")
  end.

End Fs.

(** ** The data of the orchestrator *)

(** A tool input is a JavaScript object; the model may leave any field out. *)
Module Input.
Record t := mk {
  path : option string;
  content : option string;
  old_content : option string;
  new_content : option string;
  package : option string;
  dev : option bool;
  query : option string;
  command : option string;
  prompt : option string;
  filename : option string;
  summary : option string;
  files_modified : option (list string)
}.
Definition empty : t :=
  mk None None None None None None None None None None None None.
End Input.

(** A tool invocation requested by the model. *)
Module ToolUse.
Record t := mk { id : string; name : string; input : Input.t }.
End ToolUse.

(** What [executeTool] returns: the flag, the error of a failure, the
    [completed] mark of the completion tool, and the fields that each tool
    adds. *)
Module ToolResult.
Inductive payload :=
| Written (message path : string)
| Contents (content path : string) (lines : nat)
| Listing (directories files : list string) (path : string)
| Installed (message package output : string)
| Searched (message : string) (results : list (string * string))
| Executed (stdout stderr command : string)
| Image (message : string) (filename : option string) (note : string)
| Summary (summary : option string) (files_modified : list string)
| Nothing.
Record t := mk {
  success : bool;
  error : option string;
  completed : option bool;
  body : payload
}.
Definition ok (b : payload) : t := mk true None None b.
Definition failure (msg : string) : t := mk false (Some msg) None Nothing.
End ToolResult.

(** The events of the progress channel, by type. *)
Inductive ProgressEvent :=
| task_started (agentType message : string)
| iteration_start (iteration : nat) (message : string)
| thinking_start (message : string)
| tool_start (tool : string)
| thinking_chunk (text : string)
| tool_executing (tool : string) (input : Input.t)
| tool_result (tool : string) (result : ToolResult.t)
| task_completed (summary : option string) (files_modified : option (list string))
    (message : option string)
| task_warning (message : string)
| task_error (error : string).

(** The terminal record kept at [result:<taskId>]. *)
Module Result.
Record t := mk {
  taskId : string;
  agentType : string;
  iterations : option nat;
  completed : option bool;
  error : option string;
  timestamp : Z
}.
End Result.

(** One accepted [redisClient.set(key, value, { EX: ttl })]. *)
Module StoreWrite.
Record t := mk { key : string; value : Result.t; ttl : Z }.
End StoreWrite.

(** What is published on a Redis channel. *)
Inductive Payload :=
| ProgressMsg (timestamp : Z) (event : ProgressEvent)
| FileChange (action path content : string)
| TaskCompletedMsg (taskId agentType : string) (iterations : nat) (completed : bool).

(** The events of the provider's response stream, as [processTask] reads
    them: the type, the content block of a start event, the delta of a
    delta event and the optional content block of a stop event. *)
Inductive ContentBlock :=
| text_block
| tool_use_block (use : ToolUse.t)
| other_block (type : string).

Inductive Delta :=
| text_delta (text : string)
| other_delta (type : string).

Inductive StreamEvent :=
| content_block_start (block : ContentBlock)
| content_block_delta (delta : Delta)
| content_block_stop (block : option ContentBlock)
| message_stop
| other_event (type : string).

(** What the provider does with a call: it rejects it, or it streams
    events and then ends, or breaks off with an error. *)
Inductive ProviderResponse :=
| Rejected (message : string)
| Stream (events : list StreamEvent) (broken : option string).

(** The conversation. *)
Inductive AssistantBlock :=
| text (text : string)
| tool_use (use : ToolUse.t).

(** A tool result as it goes back to the model; [content] stands for
    [JSON.stringify(result)]. *)
Module ToolResultBlock.
Record t := mk { tool_use_id : string; content : ToolResult.t }.
End ToolResultBlock.

Inductive Message :=
| user_prompt (content : string)
| assistant (content : list AssistantBlock)
| user_results (content : list ToolResultBlock.t).

(** The fields of a task that [processTask] uses. *)
Module Task.
Record t := mk {
  taskId : string;
  userId : string;
  projectId : string;
  prompt : string
}.
End Task.

Module TaskContext.
Record t := mk { taskId : string; projectId : string; userId : string }.
End TaskContext.

(** What a shell command did. *)
Module Exec.
Record t := mk {
  failed : option string;
  stdout : string;
  stderr : string;
  tree_after : Fs.tree
}.
End Exec.

(** ** The environment and the state

    [Env] is the configuration of the worker and the outside parties it
    cannot control: the model provider answers a conversation with a
    response, the shell says what a command does to the tree (a timeout is
    one of its failures), the disk says what becomes of the data of a
    write, [broker_up n] and [store_up n] say whether the
    Redis call made at tick [n] is accepted, and [now n] is [Date.now()] at
    tick [n].

    [World] is what the program changes: the file tree, the events handed
    to [publishProgress] (in order, delivered or not), the publications the
    broker accepted, the writes the result store accepted, and the number
    of Redis calls made so far. *)

Record Env := {
  WORKSPACE_ROOT : string;
  AGENT_TYPE : string;
  cwd : list string;
  provider : list Message -> ProviderResponse;
  shell : string -> string -> Fs.tree -> Exec.t;
  disk : Fs.disk;
  broker_up : nat -> bool;
  store_up : nat -> bool;
  now : nat -> Z
}.

Record World := {
  tree : Fs.tree;
  emitted : list (string * ProgressEvent);
  delivered : list (string * Payload);
  stored : list StoreWrite.t;
  ticks : nat
}.

Definition with_tree (t : Fs.tree) (w : World) : World :=
  {| tree := t; emitted := emitted w; delivered := delivered w;
     stored := stored w; ticks := ticks w |}.

Definition note_emitted (e : string * ProgressEvent) (w : World) : World :=
  {| tree := tree w; emitted := (emitted w ++ [e])%list; delivered := delivered w;
     stored := stored w; ticks := ticks w |}.

Definition note_delivered (d : string * Payload) (w : World) : World :=
  {| tree := tree w; emitted := emitted w; delivered := (delivered w ++ [d])%list;
     stored := stored w; ticks := ticks w |}.

Definition note_stored (s : StoreWrite.t) (w : World) : World :=
  {| tree := tree w; emitted := emitted w; delivered := delivered w;
     stored := (stored w ++ [s])%list; ticks := ticks w |}.

Definition tick (w : World) : World :=
  {| tree := tree w; emitted := emitted w; delivered := delivered w;
     stored := stored w; ticks := S (ticks w) |}.

(** ** Computations: a state monad with JavaScript exceptions *)

Inductive Outcome (A : Type) :=
| Returned (a : A)
| Threw (message : string)
| OutOfFuel.
Arguments Returned {A} a.
Arguments Threw {A} message.
Arguments OutOfFuel {A}.

Definition M (A : Type) : Type := World -> Outcome A * World.

Definition ret {A} (a : A) : M A := fun w => (Returned a, w).

Definition throw {A} (message : string) : M A := fun w => (Threw message, w).

Definition bind {A B} (m : M A) (k : A -> M B) : M B :=
  fun w =>
    match m w with
    | (Returned a, w') => k a w'
    | (Threw e, w') => (Threw e, w')
    | (OutOfFuel, w') => (OutOfFuel, w')
    end.

(** [try { m } catch (error) { handler(error.message) }] *)
Definition try_catch {A} (m : M A) (handler : string -> M A) : M A :=
  fun w =>
    match m w with
    | (Threw e, w') => handler e w'
    | r => r
    end.

Notation "x <- m ;; k" := (bind m (fun x => k))
  (at level 100, m at next level, right associativity).
Notation "m ;; k" := (bind m (fun _ => k))
  (at level 100, right associativity).

Definition lift_fs {A} (r : A + string) : Outcome A :=
  match r with inl a => Returned a | inr e => Threw e end.

Definition decimal (n : nat) : string :=
  DecimalString.NilEmpty.string_of_uint (Nat.to_uint n).

Definition maxIterations : nat := 20.

(** What the stream loop of one iteration accumulates. *)
Module StreamState.
Record t := mk {
  currentThinking : string;
  toolUses : list ToolUse.t;
  content : list AssistantBlock
}.
Definition initial : t := mk "" [] [].
End StreamState.

(** The variables of [processTask] that live across iterations. *)
Module LoopState.
Record t := mk {
  messages : list Message;
  iterations : nat;
  completed : bool
}.
End LoopState.

Section Orchestrator.

Context (env : Env).

(** *** The outside calls *)

(** [redisPub.publish(channel, JSON.stringify(payload))] *)
Definition publish (channel : string) (payload : Payload) : M unit :=
  fun w =>
    if broker_up env (ticks w)
    then (Returned tt, tick (note_delivered (channel, payload) w))
    else (Threw "The client is closed", tick w).

(** [redisClient.set(key, JSON.stringify(value), { EX: ttl })] *)
Definition set_result (key : string) (value : Result.t) (ttl : Z) : M unit :=
  fun w =>
    if store_up env (ticks w)
    then (Returned tt, tick (note_stored (StoreWrite.mk key value ttl) w))
    else (Threw "The client is closed", tick w).

(** [Date.now()] *)
Definition date_now : M Z := fun w => (Returned (now env (ticks w)), w).

Definition fs_mkdir (p : string) : M unit :=
  fun w =>
    match Fs.mkdir (cwd env) p (tree w) with
    | inl t => (Returned tt, with_tree t w)
    | inr e => (Threw e, w)
    end.

Definition fs_writeFile (p : string) (data : option string) : M unit :=
  fun w =>
    match Fs.writeFile (disk env) (cwd env) p data (tree w) with
    | Fs.Done t => (Returned tt, with_tree t w)
    | Fs.Refused e => (Threw e, w)
    | Fs.Broken e t => (Threw e, with_tree t w)
    end.

Definition fs_readFile (p : string) : M string :=
  fun w => (lift_fs (Fs.readFile (cwd env) p (tree w)), w).

Definition fs_readdir (p : string) : M (list (string * bool)) :=
  fun w => (lift_fs (Fs.readdir (cwd env) p (tree w)), w).

(** [path.join(root, p)] with [p] read from the tool input. *)
Definition path_join (root : string) (p : option string) : M string :=
  match p with
  | Some rel => ret (NodePath.join2 root rel)
  | None => throw (Js.invalid_arg_type "path" "of type string")
  end.

(** [execAsync(command, { cwd, timeout })]: the command does to the tree
    what the shell oracle says, also when it fails. *)
Definition execAsync (command : option string) (dir : string) : M (string * string) :=
  fun w =>
    match command with
    | None => (Threw (Js.invalid_arg_type "command" "of type string"), w)
    | Some c =>
        let r := shell env c dir (tree w) in
        match Exec.failed r with
        | Some e => (Threw e, with_tree (Exec.tree_after r) w)
        | None => (Returned (Exec.stdout r, Exec.stderr r), with_tree (Exec.tree_after r) w)
        end
    end.

(** [anthropic.messages.create({ ..., messages, stream: true })]; the model,
    the system prompt and the tool catalogue are the same at every call. *)
Definition create_stream (messages : list Message)
  : M (list StreamEvent * option string) :=
  match provider env messages with
  | Rejected e => throw e
  | Stream events broken => ret (events, broken)
  end.

(** *** [publishProgress] *)

Definition publishProgress (taskId : string) (event : ProgressEvent) : M unit :=
  fun w =>
    try_catch
      (timestamp <- date_now ;;
       publish ("progress:" +:+ taskId) (ProgressMsg timestamp event))
      (fun _ => ret tt)
      (note_emitted (taskId, event) w).

(** *** [executeTool] *)

Definition executeTool (toolName : string) (toolInput : Input.t)
    (taskContext : TaskContext.t) : M ToolResult.t :=
  let projectId := TaskContext.projectId taskContext in
  let projectRoot := NodePath.join2 (WORKSPACE_ROOT env) projectId in
  try_catch
    (if String.eqb toolName "create_file" then
       filePath <- path_join projectRoot (Input.path toolInput) ;;
       let dir := NodePath.dirname filePath in
       fs_mkdir dir ;;
       fs_writeFile filePath (Input.content toolInput) ;;
       publish ("files:" +:+ projectId)
         (FileChange "create" (Js.str (Input.path toolInput))
            (Js.str (Input.content toolInput))) ;;
       ret (ToolResult.ok
              (ToolResult.Written ("Created file: " +:+ Js.str (Input.path toolInput))
                 (Js.str (Input.path toolInput))))
     else if String.eqb toolName "edit_file" then
       filePath <- path_join projectRoot (Input.path toolInput) ;;
       content <- fs_readFile filePath ;;
       if negb (Js.includes content (Js.str (Input.old_content toolInput))) then
         ret (ToolResult.failure
                ("Old content not found in " +:+ Js.str (Input.path toolInput)
                 +:+ ". The file may have changed."))
       else
         let content :=
           Js.replace content (Js.str (Input.old_content toolInput))
             (Js.str (Input.new_content toolInput)) in
         fs_writeFile filePath (Some content) ;;
         publish ("files:" +:+ projectId)
           (FileChange "edit" (Js.str (Input.path toolInput)) content) ;;
         ret (ToolResult.ok
                (ToolResult.Written ("Edited file: " +:+ Js.str (Input.path toolInput))
                   (Js.str (Input.path toolInput))))
     else if String.eqb toolName "read_file" then
       filePath <- path_join projectRoot (Input.path toolInput) ;;
       content <- fs_readFile filePath ;;
       ret (ToolResult.ok
              (ToolResult.Contents content (Js.str (Input.path toolInput))
                 (Js.line_count content)))
     else if String.eqb toolName "list_files" then
       let dirPath := NodePath.join2 projectRoot (Js.or_else (Input.path toolInput) "") in
       entries <- fs_readdir dirPath ;;
       let directories :=
         map (fun e => fst e +:+ "/") (filter (fun e => snd e = true) entries) in
       let files := map fst (filter (fun e => snd e = false) entries) in
       ret (ToolResult.ok
              (ToolResult.Listing directories files (Js.or_else (Input.path toolInput) "/")))
     else if String.eqb toolName "install_package" then
       let flag :=
         match Input.dev toolInput with Some true => "--save-dev" | _ => "--save" end in
       out <- execAsync
                (Some ("npm install " +:+ flag +:+ " " +:+ Js.str (Input.package toolInput)))
                projectRoot ;;
       ret (ToolResult.ok
              (ToolResult.Installed ("Installed " +:+ Js.str (Input.package toolInput))
                 (Js.str (Input.package toolInput)) (fst out)))
     else if String.eqb toolName "web_search" then
       ret (ToolResult.ok
              (ToolResult.Searched ("Searched for: " +:+ Js.str (Input.query toolInput))
                 [("Search result placeholder",
                   "In production, integrate with real search API")]))
     else if String.eqb toolName "execute_command" then
       out <- execAsync (Input.command toolInput) projectRoot ;;
       ret (ToolResult.ok
              (ToolResult.Executed (fst out) (snd out) (Js.str (Input.command toolInput))))
     else if String.eqb toolName "generate_image" then
       ret (ToolResult.ok
              (ToolResult.Image
                 ("Would generate image: " +:+ Js.str (Input.prompt toolInput))
                 (Input.filename toolInput)
                 "In production, integrate with OpenAI DALL-E 3 API"))
     else if String.eqb toolName "task_complete" then
       ret (ToolResult.mk true None (Some true)
              (ToolResult.Summary (Input.summary toolInput)
                 (match Input.files_modified toolInput with
                  | Some l => l
                  | None => []
                  end)))
     else
       ret (ToolResult.failure ("Unknown tool: " +:+ toolName)))
    (fun message => ret (ToolResult.failure message)).

(** *** [processTask] *)

(** One turn of [for await (const event of stream)], up to the test for
    [message_stop]. *)
Definition on_event (taskId : string) (event : StreamEvent) (st : StreamState.t)
  : M StreamState.t :=
  match event with
  | content_block_start text_block =>
      publishProgress taskId (thinking_start "Agent is thinking...") ;;
      ret st
  | content_block_start (tool_use_block use) =>
      publishProgress taskId (tool_start (ToolUse.name use)) ;;
      ret st
  | content_block_delta (text_delta chunk) =>
      let st' :=
        StreamState.mk (StreamState.currentThinking st +:+ chunk)
          (StreamState.toolUses st) (StreamState.content st) in
      publishProgress taskId (thinking_chunk chunk) ;;
      ret st'
  | content_block_stop (Some text_block) =>
      ret (StreamState.mk ""
             (StreamState.toolUses st)
             (StreamState.content st ++ [text (StreamState.currentThinking st)])%list)
  | content_block_stop (Some (tool_use_block use)) =>
      ret (StreamState.mk (StreamState.currentThinking st)
             (StreamState.toolUses st ++ [use])%list
             (StreamState.content st ++ [tool_use use])%list)
  | _ => ret st
  end.

Definition is_message_stop (event : StreamEvent) : bool :=
  match event with message_stop => true | _ => false end.

(** The stream loop: the events in order, [break] at [message_stop]; a
    stream that breaks off throws once its events are consumed. *)
Fixpoint process_stream (taskId : string) (events : list StreamEvent)
    (broken : option string) (st : StreamState.t) : M StreamState.t :=
  match events with
  | [] =>
      match broken with
      | Some e => throw e
      | None => ret st
      end
  | event :: rest =>
      st' <- on_event taskId event st ;;
      if is_message_stop event then ret st'
      else process_stream taskId rest broken st'
  end.

(** The loop over the tool uses of one response. *)
Fixpoint run_tools (ctx : TaskContext.t) (toolUses : list ToolUse.t)
    (toolResults : list ToolResultBlock.t) (completed : bool)
  : M (list ToolResultBlock.t * bool) :=
  match toolUses with
  | [] => ret (toolResults, completed)
  | toolUse :: rest =>
      let taskId := TaskContext.taskId ctx in
      publishProgress taskId
        (tool_executing (ToolUse.name toolUse) (ToolUse.input toolUse)) ;;
      result <- executeTool (ToolUse.name toolUse) (ToolUse.input toolUse) ctx ;;
      publishProgress taskId (tool_result (ToolUse.name toolUse) result) ;;
      let toolResults :=
        (toolResults ++ [ToolResultBlock.mk (ToolUse.id toolUse) result])%list in
      if String.eqb (ToolUse.name toolUse) "task_complete" && ToolResult.success result
      then
        publishProgress taskId
          (task_completed (Input.summary (ToolUse.input toolUse))
             (Input.files_modified (ToolUse.input toolUse)) None) ;;
        run_tools ctx rest toolResults true
      else run_tools ctx rest toolResults completed
  end.

(** The first half of the loop body: announce the iteration, call the
    provider and consume its stream. *)
Definition receive (ctx : TaskContext.t) (st : LoopState.t) : M StreamState.t :=
  let taskId := TaskContext.taskId ctx in
  let iterations := S (LoopState.iterations st) in
  publishProgress taskId
    (iteration_start iterations
       ("Iteration " +:+ decimal iterations +:+ "/" +:+ decimal maxIterations)) ;;
  stream <- create_stream (LoopState.messages st) ;;
  process_stream taskId (fst stream) (snd stream) StreamState.initial.

(** The body of the [while] loop. *)
Definition iteration (ctx : TaskContext.t) (st : LoopState.t) : M LoopState.t :=
  let taskId := TaskContext.taskId ctx in
  let iterations := S (LoopState.iterations st) in
  s <- receive ctx st ;;
  let messages := (LoopState.messages st ++ [assistant (StreamState.content s)])%list in
  match StreamState.toolUses s with
  | _ :: _ =>
      r <- run_tools ctx (StreamState.toolUses s) [] (LoopState.completed st) ;;
      ret (LoopState.mk (messages ++ [user_results (fst r)])%list iterations (snd r))
  | [] =>
      publishProgress taskId
        (task_completed None None
           (Some "Agent completed thinking, no more actions needed")) ;;
      ret (LoopState.mk messages iterations true)
  end.

(** [while (!completed && iterations < maxIterations)]; the fuel bounds the
    number of turns and [processTask] provides [maxIterations] of it. *)
Fixpoint while_loop (fuel : nat) (ctx : TaskContext.t) (st : LoopState.t)
  : M LoopState.t :=
  if negb (LoopState.completed st) && (LoopState.iterations st <? maxIterations)%nat
  then
    match fuel with
    | 0 => fun w => (OutOfFuel, w)
    | S fuel' =>
        st' <- iteration ctx st ;;
        while_loop fuel' ctx st'
    end
  else ret st.

(** What follows the loop inside the [try] block: the warning, the
    terminal record and the completion broadcast. *)
Definition finish (taskId : string) (st : LoopState.t) : M unit :=
  (if (maxIterations <=? LoopState.iterations st)%nat
   then publishProgress taskId (task_warning "Reached maximum iterations limit")
   else ret tt) ;;
  timestamp <- date_now ;;
  set_result ("result:" +:+ taskId)
    (Result.mk taskId (AGENT_TYPE env) (Some (LoopState.iterations st))
       (Some (LoopState.completed st)) None timestamp)
    3600 ;;
  publish "task-completed"
    (TaskCompletedMsg taskId (AGENT_TYPE env) (LoopState.iterations st)
       (LoopState.completed st)).

(** The [catch] block of [processTask]. *)
Definition on_error (taskId : string) (message : string) : M unit :=
  publishProgress taskId (task_error message) ;;
  timestamp <- date_now ;;
  set_result ("result:" +:+ taskId)
    (Result.mk taskId (AGENT_TYPE env) None None (Some message) timestamp)
    3600.

Definition initial_state (task : Task.t) : LoopState.t :=
  LoopState.mk [user_prompt (Task.prompt task)] 0 false.

Definition context_of (task : Task.t) : TaskContext.t :=
  TaskContext.mk (Task.taskId task) (Task.projectId task) (Task.userId task).

Definition processTask (task : Task.t) : M unit :=
  let taskId := Task.taskId task in
  let projectRoot := NodePath.join2 (WORKSPACE_ROOT env) (Task.projectId task) in
  fs_mkdir projectRoot ;;
  publishProgress taskId
    (task_started (AGENT_TYPE env) "Starting task processing...") ;;
  try_catch
    (st <- while_loop maxIterations (context_of task) (initial_state task) ;;
     finish taskId st)
    (on_error taskId).

End Orchestrator.

(** ** The vocabulary of the properties *)

(** A response stream that is made of closed content blocks: a text block
    with its text deltas, a tool-use block with its input deltas, or an
    event of another kind (ping, message_start, message_delta). *)
Inductive Block :=
| TextBlock (chunks : list string)
| ToolBlock (use : ToolUse.t) (partials : list string)
| Aside (type : string).

Definition block_events (b : Block) : list StreamEvent :=
  match b with
  | TextBlock chunks =>
      (content_block_start text_block
        :: map (fun c => content_block_delta (text_delta c)) chunks
        ++ [content_block_stop (Some text_block)])%list
  | ToolBlock use partials =>
      (content_block_start (tool_use_block use)
        :: map (fun _ => content_block_delta (other_delta "input_json_delta")) partials
        ++ [content_block_stop (Some (tool_use_block use))])%list
  | Aside type => [other_event type]
  end.





(** The batch holds a completion tool. *)
Definition has_complete (toolUses : list ToolUse.t) : bool :=
  existsb (fun use => String.eqb (ToolUse.name use) "task_complete") toolUses.

Definition is_warning (e : string * ProgressEvent) : bool :=
  match snd e with task_warning _ => true | _ => false end.

(** A location is inside a directory when the directory's segments come
    first. *)
Definition inside (root key : list string) : bool :=
  bool_decide (root `prefix_of` key).


(** A failed tool result says why. *)
Definition explains_failure (r : ToolResult.t) : Prop :=
  ToolResult.success r = false -> exists message, ToolResult.error r = Some message.

(** The broker and the store accept every call. *)
Definition reliable (env : Env) : Prop :=
  forall n, broker_up env n = true /\ store_up env n = true.

(** The project directory of the task exists or can be created. *)
Definition workspace_ready (env : Env) (task : Task.t) (w : World) : Prop :=
  Fs.succeeds
    (Fs.mkdir (cwd env) (NodePath.join2 (WORKSPACE_ROOT env) (Task.projectId task))
       (tree w))
  = true.

(** The two shapes of a stored terminal record. *)
Definition success_shape (r : Result.t) : Prop :=
  (exists n, Result.iterations r = Some n /\ n <= maxIterations)
  /\ (exists c, Result.completed r = Some c)
  /\ Result.error r = None.

Definition error_shape (r : Result.t) : Prop :=
  Result.iterations r = None
  /\ Result.completed r = None
  /\ exists message, Result.error r = Some message.

(** A write of the terminal record of a task: its key, its retention and
    one of the two shapes. *)
Definition well_recorded (taskId agentType : string) (sw : StoreWrite.t) : Prop :=
  StoreWrite.key sw = "result:" +:+ taskId
  /\ StoreWrite.ttl sw = 3600%Z
  /\ Result.taskId (StoreWrite.value sw) = taskId
  /\ Result.agentType (StoreWrite.value sw) = agentType
  /\ (success_shape (StoreWrite.value sw) \/ error_shape (StoreWrite.value sw)).

(** *** Four statements of the specification, as they are written there *)

(** [processTask] writes exactly one record under [result:<taskId>], and the
    iterations it counts are within the cap. *)
Definition writes_one_result (env : Env) (task : Task.t) (w : World) : Prop :=
  exists sw,
    stored (snd (processTask env task w)) = (stored w ++ [sw])%list
    /\ StoreWrite.key sw = "result:" +:+ Task.taskId task
    /\ forall n, Result.iterations (StoreWrite.value sw) = Some n -> n <= maxIterations.



(** Every stored record has the iterations and [completed], and is kept
    for 3600 seconds. *)
Definition uniform_shape (r : Result.t) : Prop :=
  (exists n, Result.iterations r = Some n) /\ (exists c, Result.completed r = Some c).

Definition stores_uniform_records (env : Env) (task : Task.t) (w : World) : Prop :=
  forall sw,
    In sw (stored (snd (processTask env task w))) ->
    uniform_shape (StoreWrite.value sw) /\ StoreWrite.ttl sw = 3600%Z.

(** ** Hoare-style triples for computations

    [triple I throws Q m]: from every state, [m] never runs out of fuel,
    relates the states by [I], returns values in [Q], and throws only if
    [throws] allows it. *)

Definition triple {A} (I : World -> World -> Prop) (throws : bool) (Q : A -> Prop)
    (m : M A) : Prop :=
  forall w,
    match m w with
    | (Returned a, w') => I w w' /\ Q a
    | (Threw _, w') => throws = true /\ I w w'
    | (OutOfFuel, _) => False
    end.

(** The frame of the conversation loop: it stores nothing and emits no
    warning. *)
Definition quiet (w w' : World) : Prop :=
  stored w' = stored w
  /\ exists l, emitted w' = (emitted w ++ l)%list /\ existsb is_warning l = false.

(** The frame of a tool: it stores nothing and emits nothing. *)
Definition silent (w w' : World) : Prop :=
  stored w' = stored w /\ emitted w' = emitted w.

(** The frame of a tool that only looks: the state stays as it is. *)
Definition unchanged (w w' : World) : Prop := w' = w.

(** The frame of [processTask]: what it adds to the store are terminal
    records of its task. *)
Definition recording (taskId agentType : string) (w w' : World) : Prop :=
  exists l,
    stored w' = (stored w ++ l)%list /\ Forall (well_recorded taskId agentType) l.

(** ** A worker, a workspace and some providers to run the program on *)

Module Demo.

Definition env_with (provider : list Message -> ProviderResponse)
    (broker store : nat -> bool) : Env :=
  {| WORKSPACE_ROOT := "/app/.workspace";
     AGENT_TYPE := "generic";
     cwd := ["app"];
     provider := provider;
     shell := fun _ _ t => Exec.mk None "" "" t;
     disk := Fs.sound;
     broker_up := broker;
     store_up := store;
     now := fun n => Z.of_nat n |}.

Definition always (_ : nat) : bool := true.
Definition except (k n : nat) : bool := negb (Nat.eqb n k).

Definition workspace : Fs.tree :=
  <[ ["app"; ".workspace"; "p1"; "notes.txt"] := Fs.File "hello world" ]>
    (<[ ["app"; ".workspace"; "p1"] := Fs.Dir ]>
       (<[ ["app"; ".workspace"] := Fs.Dir ]>
          (<[ ["app"; "server.js"] := Fs.File "listen(8082)" ]>
             (<[ ["app"] := Fs.Dir ]> ∅)))).

Definition world : World :=
  {| tree := workspace; emitted := []; delivered := []; stored := []; ticks := 0 |}.

Definition task : Task.t := Task.mk "t1" "u1" "p1" "create a hello world file".

Definition ctx : TaskContext.t := TaskContext.mk "t1" "p1" "u1".

Definition file_input (p c : string) : Input.t :=
  Input.mk (Some p) (Some c) None None None None None None None None None None.

Definition edit_input (p old new : string) : Input.t :=
  Input.mk (Some p) None (Some old) (Some new) None None None None None None None None.

Definition search : ToolUse.t :=
  ToolUse.mk "toolu_1" "web_search"
    (Input.mk None None None None None None (Some "rocq") None None None None None).

Definition completion : ToolUse.t :=
  ToolUse.mk "toolu_2" "task_complete"
    (Input.mk None None None None None None None None None None (Some "all done") None).

Definition hello : ToolUse.t :=
  ToolUse.mk "toolu_3" "create_file" (file_input "hello.txt" "Hello, world!").

Definition call (use : ToolUse.t) : list StreamEvent :=
  block_events (ToolBlock use []).

Definition env (provider : list Message -> ProviderResponse) : Env :=
  env_with provider always always.

(** Answers with plain text and no tool. *)
Definition talker (_ : list Message) : ProviderResponse :=
  Stream (block_events (TextBlock ["All "; "good."]) ++ [message_stop]) None.

(** Is overloaded at the first call. *)
Definition overloaded (_ : list Message) : ProviderResponse :=
  Rejected "Overloaded".

(** Asks for a search at every call, forever. *)
Definition restless (_ : list Message) : ProviderResponse :=
  Stream (call search ++ [message_stop]) None.


(** Completes at once, and asks for a search in the same batch. *)
Definition closer (_ : list Message) : ProviderResponse :=
  Stream (call completion ++ call search ++ [message_stop]) None.

(** Creates the hello-world file, then has nothing to add. *)
Definition builder (messages : list Message) : ProviderResponse :=
  if (List.length messages <? 2)%nat
  then Stream (call hello ++ [message_stop]) None
  else Stream [message_stop] None.

(** The response that [receive] finalizes, when it returns. *)
Definition received (env : Env) (ctx : TaskContext.t) (st : LoopState.t) (w : World)
  : StreamState.t :=
  match fst (receive env ctx st w) with
  | Returned s => s
  | _ => StreamState.initial
  end.

(** The broker drops the completion broadcast of the talker's task (its
    eighth Redis call). *)
Definition env_broadcast_lost : Env := env_with talker (except 7) always.


End Demo.


(** ** Further vocabulary *)

(** How often a character occurs in a string. *)
Fixpoint occurrences (c : ascii) (s : string) : nat :=
  match s with
  | EmptyString => 0
  | String a s' => (if Ascii.eqb a c then 1 else 0) + occurrences c s'
  end.

(** A segment that [normalize] keeps as it is. *)
Definition plain (seg : string) : Prop := seg <> "" /\ seg <> "." /\ seg <> "..".

(** The tool catalogue [TOOLS] that is sent to the provider with every
    call: the name of each tool, the fields of its input with their types,
    and the fields that are required (the descriptions are left out). *)
Module Tool.
Record t := mk {
  name : string;
  properties : list (string * string);
  required : list string
}.
End Tool.

Definition TOOLS : list Tool.t :=
  [ Tool.mk "create_file" [("path", "string"); ("content", "string")] ["path"; "content"];
    Tool.mk "edit_file"
      [("path", "string"); ("old_content", "string"); ("new_content", "string")]
      ["path"; "old_content"; "new_content"];
    Tool.mk "read_file" [("path", "string")] ["path"];
    Tool.mk "list_files" [("path", "string")] ["path"];
    Tool.mk "install_package" [("package", "string"); ("dev", "boolean")] ["package"];
    Tool.mk "web_search" [("query", "string")] ["query"];
    Tool.mk "execute_command" [("command", "string")] ["command"];
    Tool.mk "generate_image" [("prompt", "string"); ("filename", "string")]
      ["prompt"; "filename"];
    Tool.mk "task_complete" [("summary", "string"); ("files_modified", "array")]
      ["summary"] ].

(** The frame of a tool that announces nothing. *)
Definition mute (w w' : World) : Prop := delivered w' = delivered w.

(** *** Kinds of progress events *)

Definition is_completed (e : string * ProgressEvent) : bool :=
  match snd e with task_completed _ _ _ => true | _ => false end.

Definition is_error (e : string * ProgressEvent) : bool :=
  match snd e with task_error _ => true | _ => false end.

Definition is_iteration_start (e : string * ProgressEvent) : bool :=
  match snd e with iteration_start _ _ => true | _ => false end.

(** The events that end a task for its observer. *)
Definition is_terminal (e : string * ProgressEvent) : bool :=
  is_completed e || is_warning e || is_error e.

(** The events of the stream loop. *)
Definition from_stream (e : string * ProgressEvent) : bool :=
  match snd e with
  | thinking_start _ | tool_start _ | thinking_chunk _ => true
  | _ => false
  end.

(** The events of the tool loop. *)
Definition from_tools (e : string * ProgressEvent) : bool :=
  match snd e with
  | tool_executing _ _ | tool_result _ _ | task_completed _ _ _ => true
  | _ => false
  end.

(** The events of the iteration loop: all but the start of the task, the
    warning and the error. *)
Definition in_loop (e : string * ProgressEvent) : bool :=
  match snd e with
  | task_started _ _ | task_warning _ | task_error _ => false
  | _ => true
  end.

(** The frame of a computation that stores nothing and emits events of one
    kind only. *)
Definition only (P : string * ProgressEvent -> bool) (w w' : World) : Prop :=
  stored w' = stored w
  /\ exists l, emitted w' = (emitted w ++ l)%list /\ forallb P l = true.

(** What the tool loop emits for a tool use and the result that went back
    to the model. *)
Definition tool_events (taskId : string) (pair : ToolUse.t * ToolResultBlock.t)
  : list (string * ProgressEvent) :=
  let use := fst pair in
  let result := ToolResultBlock.content (snd pair) in
  [(taskId, tool_executing (ToolUse.name use) (ToolUse.input use));
   (taskId, tool_result (ToolUse.name use) result)]
  ++ (if String.eqb (ToolUse.name use) "task_complete" && ToolResult.success result
      then [(taskId,
             task_completed (Input.summary (ToolUse.input use))
               (Input.files_modified (ToolUse.input use)) None)]
      else []).

(** The events inside an iteration, after its start. *)
Definition inner (e : string * ProgressEvent) : bool :=
  from_stream e || from_tools e.

(** The message that opens an iteration. *)
Definition iteration_message (n : nat) : string :=
  "Iteration " +:+ decimal n +:+ "/" +:+ decimal maxIterations.

(** The starts of [count] iterations, numbered from [first]. *)
Definition iteration_starts (taskId : string) (first count : nat)
  : list (string * ProgressEvent) :=
  map (fun n => (taskId, iteration_start n (iteration_message n))) (seq first count).

(** ** The event bridge (src/unnamed/part_005, the SSE endpoint) *)

Module Bridge.

(** [const progressChannel = `progress:${taskId}`] *)
Definition progressChannel (taskId : string) : string := "progress:" +:+ taskId.

(** [const filesChannel = `files:${taskId}`] *)
Definition filesChannel (taskId : string) : string := "files:" +:+ taskId.

(** The channels of the two [subscribe] calls of a connection. *)
Definition subscribed (taskId channel : string) : bool :=
  String.eqb channel (progressChannel taskId) || String.eqb channel (filesChannel taskId).

(** [event.type === 'task_completed' || event.type === 'task_error']: the
    events after which the bridge ends the response. *)
Definition closes (event : ProgressEvent) : bool :=
  match event with
  | task_completed _ _ _ | task_error _ => true
  | _ => false
  end.

End Bridge.

(** ** The task queue *)

(** Redis lists and hashes, as far as the program uses them.  A list is
    written from its head to its tail: [LPUSH] adds at the head, [RPUSH] at
    the tail and [BRPOP] takes from the tail.  The elements are the tasks
    that [JSON.stringify] wrote and [JSON.parse] reads back. *)
Module Redis.

Record t := mk {
  lists : gmap string (list Task.t);
  hashes : gmap (string * string) Task.t
}.

Definition empty : t := mk ∅ ∅.

Definition list_at (r : t) (key : string) : list Task.t := default [] (lists r !! key).

Definition lPush (key : string) (element : Task.t) (r : t) : t :=
  mk (<[key := element :: list_at r key]> (lists r)) (hashes r).

Definition rPush (key : string) (element : Task.t) (r : t) : t :=
  mk (<[key := (list_at r key ++ [element])%list]> (lists r)) (hashes r).

(** [brPop(key, timeout)]: the tail of the list, or [null] when the list
    stays empty until the timeout. *)
Definition brPop (key : string) (r : t) : option Task.t * t :=
  match rev (list_at r key) with
  | [] => (None, r)
  | element :: rest => (Some element, mk (<[key := rev rest]> (lists r)) (hashes r))
  end.

Definition hSet (key field : string) (value : Task.t) (r : t) : t :=
  mk (lists r) (<[(key, field) := value]> (hashes r)).

(** [count] calls of [brPop] in a row, and what they return. *)
Fixpoint drain (count : nat) (key : string) (r : t) : list Task.t :=
  match count with
  | 0 => []
  | S count' =>
      match brPop key r with
      | (Some element, r') => element :: drain count' key r'
      | (None, r') => drain count' key r'
      end
  end.

End Redis.

(** [!value] for a field of a request body that is a string or is absent. *)
Definition falsy (value : option string) : bool :=
  match value with
  | None | Some "" => true
  | Some _ => false
  end.

(** The answers of the two handlers that queue tasks. *)
Inductive Response :=
| MethodNotAllowed
| BadRequest (error : string)
| Queued (taskId queueName : string)
| ServerError (message : string).

(** The body of a request to queue a task. *)
Module Body.
Record t := mk {
  projectId : option string;
  userId : option string;
  prompt : option string;
  agentType : option string
}.
End Body.

Module Request.
Record t := mk { method : string; body : Body.t }.
End Request.

(** *** src/pages/api/ai/submit-task.js *)

Module SubmitTask.

(** The task that the handler builds. *)
Definition task_of (taskId : string) (body : Body.t) : Task.t :=
  Task.mk taskId (Js.str (Body.userId body)) (Js.str (Body.projectId body))
    (Js.str (Body.prompt body)).

(** [handler(req, res)], with the identifier that [uuidv4()] returns and
    the error of the Redis client, if it has one. *)
Definition handler (uuidv4 : string) (redis_error : option string) (req : Request.t)
    (r : Redis.t) : Response * Redis.t :=
  if negb (String.eqb (Request.method req) "POST") then (MethodNotAllowed, r)
  else
    let body := Request.body req in
    let agentType := default "generic" (Body.agentType body) in
    if falsy (Body.projectId body) || falsy (Body.userId body) || falsy (Body.prompt body)
    then (BadRequest "Missing required fields: projectId, userId, prompt", r)
    else
      let taskId := uuidv4 in
      let task := task_of taskId body in
      match redis_error with
      | Some message => (ServerError message, r)
      | None =>
          let queueName := "queue:" +:+ agentType in
          (Queued taskId queueName, Redis.lPush queueName task r)
      end.

(** The request is one that the handler queues for [agentType]. *)
Definition accepted (agentType : string) (req : Request.t) : bool :=
  String.eqb (Request.method req) "POST"
  && negb (falsy (Body.projectId (Request.body req)))
  && negb (falsy (Body.userId (Request.body req)))
  && negb (falsy (Body.prompt (Request.body req)))
  && String.eqb (default "generic" (Body.agentType (Request.body req))) agentType.

(** Requests handled one after the other, each with its identifier, while
    Redis is up. *)
Definition submit_all (requests : list (string * Request.t)) (r : Redis.t) : Redis.t :=
  fold_left (fun r request => snd (handler (fst request) None (snd request) r)) requests r.

End SubmitTask.

(** *** src/unnamed/part_004, the direct queue handler *)

Module QueueTask.

Definition task_of (taskId : string) (body : Body.t) : Task.t :=
  Task.mk taskId "local-user"
    (if falsy (Body.projectId body) then "demo" else Js.str (Body.projectId body))
    (Js.str (Body.prompt body)).

(** [handler(req, res)], with the identifier that [uuidv4()] returns and
    the errors of [rPush] and of [hSet], if they have one. *)
Definition handler (uuidv4 : string) (rPush_error hSet_error : option string)
    (req : Request.t) (r : Redis.t) : Response * Redis.t :=
  if negb (String.eqb (Request.method req) "POST") then (MethodNotAllowed, r)
  else
    let body := Request.body req in
    let agentType := default "project-architect" (Body.agentType body) in
    if falsy (Body.prompt body) then (BadRequest "Missing prompt", r)
    else
      let taskId := uuidv4 in
      let task := task_of taskId body in
      match rPush_error with
      | Some message => (ServerError message, r)
      | None =>
          let r := Redis.rPush ("queue:" +:+ agentType) task r in
          match hSet_error with
          | Some message => (ServerError message, r)
          | None => (Queued taskId ("queue:" +:+ agentType), Redis.hSet "tasks" taskId task r)
          end
      end.

Definition accepted (agentType : string) (req : Request.t) : bool :=
  String.eqb (Request.method req) "POST"
  && negb (falsy (Body.prompt (Request.body req)))
  && String.eqb (default "project-architect" (Body.agentType (Request.body req))) agentType.

Definition submit_all (requests : list (string * Request.t)) (r : Redis.t) : Redis.t :=
  fold_left (fun r request => snd (handler (fst request) None None (snd request) r))
    requests r.

End QueueTask.

(** *** [processQueue] *)

Section Worker.

Context (env : Env).

(** [const queueName = `queue:${AGENT_TYPE}`] *)
Definition queueName : string := "queue:" +:+ AGENT_TYPE env.

(** [redisClient.brPop(queueName, 5)] on the client of the worker. *)
Definition brPop (key : string) (r : Redis.t) (w : World)
  : Outcome (option Task.t) * World * Redis.t :=
  if store_up env (ticks w)
  then (Returned (fst (Redis.brPop key r)), tick w, snd (Redis.brPop key r))
  else (Threw "The client is closed", tick w, r).

(** One turn of [while (true)]: wait for a task and process it; an error
    is logged, and the loop goes on after a second. *)
Definition turn (r : Redis.t) (w : World) : Outcome unit * World * Redis.t :=
  match brPop queueName r w with
  | (Returned (Some task), w1, r1) =>
      match processTask env task w1 with
      | (Threw _, w2) => (Returned tt, w2, r1)
      | (o, w2) => (o, w2, r1)
      end
  | (Returned None, w1, r1) => (Returned tt, w1, r1)
  | (Threw _, w1, r1) => (Returned tt, w1, r1)
  | (OutOfFuel, w1, r1) => (OutOfFuel, w1, r1)
  end.

(** The first [turns] turns of the loop. *)
Fixpoint processQueue (turns : nat) (r : Redis.t) (w : World)
  : Outcome unit * World * Redis.t :=
  match turns with
  | 0 => (Returned tt, w, r)
  | S turns' =>
      match turn r w with
      | (Returned _, w', r') => processQueue turns' r' w'
      | stopped => stopped
      end
  end.

End Worker.

(** ** Some requests to run the handlers on *)

Module Requests.

Definition post (projectId userId prompt : string) (agentType : option string)
  : Request.t :=
  Request.mk "POST" (Body.mk (Some projectId) (Some userId) (Some prompt) agentType).

Definition first : string * Request.t :=
  ("id-1", post "p1" "u1" "create a hello world file" None).

Definition second : string * Request.t :=
  ("id-2", post "p2" "u2" "add a readme" (Some "generic")).

Definition third : string * Request.t :=
  ("id-3", post "p3" "u3" "fix the build" (Some "generic")).

(** A task whose project directory cannot be made: its path goes through
    a file. *)
Definition blocked : Task.t := Task.mk "t9" "u1" "p1/notes.txt/x" "anything".

End Requests.

(** ** The paths of [processTask] *)

(** [processTask] up to the end of its loop. *)
Definition loop_end (env : Env) (task : Task.t) : M LoopState.t :=
  fs_mkdir env (NodePath.join2 (WORKSPACE_ROOT env) (Task.projectId task)) ;;
  publishProgress env (Task.taskId task)
    (task_started (AGENT_TYPE env) "Starting task processing...") ;;
  while_loop env maxIterations (context_of task) (initial_state task).

(** The result store accepts every call. *)
Definition store_accepts (env : Env) : Prop := forall n, store_up env n = true.

(** The broker accepts the completion broadcast of the run, when the run
    gets there: it is the Redis call that follows the end of the loop, the
    warning if there is one, and the write of the record.  Nothing is asked
    of the other publications. *)
Definition broadcast_accepted (env : Env) (task : Task.t) (w : World) : bool :=
  match loop_end env task w with
  | (Returned st, w') =>
      broker_up env
        (S (ticks w' + if (maxIterations <=? LoopState.iterations st)%nat then 1 else 0))
  | _ => true
  end.

(** The provider failed with [message]: it refused a call with it, or a
    stream of it broke off with it. *)
Definition provider_failed (env : Env) (message : string) : Prop :=
  exists messages,
    match provider env messages with
    | Rejected e => e = message
    | Stream _ (Some e) => e = message
    | Stream _ None => False
    end.

(** The record of a run, path by path: when the loop ends without an
    exception, the counter and the flag of the loop, and no error; when the
    provider fails, its message, and neither counter nor flag. *)
Definition recorded_on_path (env : Env) (task : Task.t) (w : World) (r : Result.t)
  : Prop :=
  Result.taskId r = Task.taskId task
  /\ Result.agentType r = AGENT_TYPE env
  /\ match fst (loop_end env task w) with
     | Returned st =>
         Result.iterations r = Some (LoopState.iterations st)
         /\ LoopState.iterations st <= maxIterations
         /\ Result.completed r = Some (LoopState.completed st)
         /\ Result.error r = None
     | Threw message =>
         Result.iterations r = None
         /\ Result.completed r = None
         /\ Result.error r = Some message
         /\ provider_failed env message
     | OutOfFuel => False
     end.

(** *** The statement on text blocks, as it is written *)




(** ** Some runs that meet trouble *)

Module Trouble.

(** The broker refuses the first publication, the start of the task, and
    accepts every other. *)
Definition env_first_lost : Env := Demo.env_with Demo.talker (Demo.except 0) Demo.always.

(** The result store is down. *)
Definition env_store_down : Env := Demo.env_with Demo.talker Demo.always (fun _ => false).

(** The disk is full: every write breaks off and leaves the file empty. *)
Definition env_disk_full : Env :=
  {| WORKSPACE_ROOT := "/app/.workspace";
     AGENT_TYPE := "generic";
     cwd := ["app"];
     provider := Demo.talker;
     shell := fun _ _ t => Exec.mk None "" "" t;
     disk := {| Fs.utf8 := fun s => s;
                Fs.fault := fun _ _ => Some ("ENOSPC: no space left on device, write", "") |};
     broker_up := Demo.always;
     store_up := Demo.always;
     now := fun n => Z.of_nat n |}.



End Trouble.

(** * Proofs *)

(** ** The model at work *)

Example join_plain :
  NodePath.join2 "/app/.workspace/p1" "src/components/Button.jsx"
  = "/app/.workspace/p1/src/components/Button.jsx".
Proof. reflexivity. Qed.

Example join_parent :
  NodePath.join2 "/app/.workspace/p1" "../../escape.txt" = "/app/escape.txt".
Proof. reflexivity. Qed.

Example join_rooted : NodePath.join2 "/w/p" "/etc/passwd" = "/w/p/etc/passwd".
Proof. reflexivity. Qed.

Example join_relative_above : NodePath.join2 "w" "../../x" = "../x".
Proof. reflexivity. Qed.

Example join_empty : NodePath.join2 "/w/p" "" = "/w/p".
Proof. reflexivity. Qed.

Example dirname_file : NodePath.dirname "/w/p/src/a.js" = "/w/p/src".
Proof. reflexivity. Qed.

Example dirname_trailing : NodePath.dirname "/w/p/src/" = "/w/p".
Proof. reflexivity. Qed.

Example dirname_top : NodePath.dirname "/a" = "/".
Proof. reflexivity. Qed.

Example replace_first : Js.replace "a-b-a" "a" "[$&$$]" = "[a$]-b-a".
Proof. reflexivity. Qed.

Example includes_empty : Js.includes "" "" = true.
Proof. reflexivity. Qed.

Example locate_relative : Fs.locate ["app"] ".workspace/p1/../p2" = ["app"; ".workspace"; "p2"].
Proof. reflexivity. Qed.

(** The hello-world task: the file is created in the first iteration, the
    second iteration has nothing to add. *)
Example builder_run :
  let w := snd (processTask (Demo.env Demo.builder) Demo.task Demo.world) in
  map snd (emitted w)
  = [task_started "generic" "Starting task processing...";
     iteration_start 1 "Iteration 1/20";
     tool_start "create_file";
     tool_executing "create_file" (Demo.file_input "hello.txt" "Hello, world!");
     tool_result "create_file"
       (ToolResult.ok (ToolResult.Written "Created file: hello.txt" "hello.txt"));
     iteration_start 2 "Iteration 2/20";
     task_completed None None (Some "Agent completed thinking, no more actions needed")]
  /\ tree w !! ["app"; ".workspace"; "p1"; "hello.txt"] = Some (Fs.File "Hello, world!")
  /\ delivered w !! 4 = Some ("files:p1", FileChange "create" "hello.txt" "Hello, world!")
  /\ map StoreWrite.value (stored w)
     = [Result.mk "t1" "generic" (Some 2) (Some true) None 8].
Proof. vm_compute. repeat split. Qed.

(** A provider that never stops asking for tools: twenty iterations, then
    the warning and a record that is not completed and has no error. *)
Example restless_run :
  let w := snd (processTask (Demo.env Demo.restless) Demo.task Demo.world) in
  last (emitted w) = Some ("t1", task_warning "Reached maximum iterations limit")
  /\ stored w
     = [StoreWrite.mk "result:t1"
          (Result.mk "t1" "generic" (Some 20) (Some false) None 82) 3600].
Proof. vm_compute. repeat split. Qed.

(** A [create_file] without content: the directory is made, the write is
    refused, and the directory stays. *)
Example create_file_without_content :
  let input :=
    Input.mk (Some "src/app.js") None None None None None None None None None None None in
  let run := executeTool (Demo.env Demo.talker) "create_file" input Demo.ctx Demo.world in
  (exists r, fst run = Returned r /\ ToolResult.success r = false)
  /\ tree Demo.world !! ["app"; ".workspace"; "p1"; "src"] = None
  /\ tree (snd run) !! ["app"; ".workspace"; "p1"; "src"] = Some Fs.Dir
  /\ tree (snd run) !! ["app"; ".workspace"; "p1"; "src"; "app.js"] = None.
Proof. vm_compute. repeat split. eexists. split; reflexivity. Qed.

(** A batch that completes the task and asks for a search: both tools are
    dispatched, and the task ends after this one iteration. *)
Example closer_run :
  let w := snd (processTask (Demo.env Demo.closer) Demo.task Demo.world) in
  map snd (emitted w)
  = [task_started "generic" "Starting task processing...";
     iteration_start 1 "Iteration 1/20";
     tool_start "task_complete";
     tool_start "web_search";
     tool_executing "task_complete" (ToolUse.input Demo.completion);
     tool_result "task_complete"
       (ToolResult.mk true None (Some true)
          (ToolResult.Summary (Some "all done") []));
     task_completed (Some "all done") None None;
     tool_executing "web_search" (ToolUse.input Demo.search);
     tool_result "web_search"
       (ToolResult.ok
          (ToolResult.Searched "Searched for: rocq"
             [("Search result placeholder",
               "In production, integrate with real search API")]))]
  /\ map StoreWrite.value (stored w)
     = [Result.mk "t1" "generic" (Some 1) (Some true) None 9].
Proof. vm_compute. repeat split. Qed.


(** ** Rules for triples *)

Section TripleRules.

Context {I : World -> World -> Prop} `{!Reflexive I} `{!Transitive I}.

Lemma triple_ret {A} throws (Q : A -> Prop) (a : A) :
  Q a -> triple I throws Q (ret a).
Proof. intros HQ w. simpl. split; [reflexivity | exact HQ]. Qed.

Lemma triple_throw {A} (Q : A -> Prop) (e : string) :
  triple I true Q (throw e).
Proof. intros w. simpl. split; reflexivity. Qed.

Lemma triple_bind {A B} throws (Q1 : A -> Prop) (Q2 : B -> Prop)
    (m : M A) (k : A -> M B) :
  triple I throws Q1 m ->
  (forall a, Q1 a -> triple I throws Q2 (k a)) ->
  triple I throws Q2 (bind m k).
Proof.
  intros Hm Hk w. unfold bind. specialize (Hm w).
  destruct (m w) as [[a | e |] w1]; [| exact Hm | exact Hm].
  destruct Hm as [HI HQ]. specialize (Hk a HQ w1).
  destruct (k a w1) as [[b | e |] w2].
  - destruct Hk. split; [etransitivity; eassumption | assumption].
  - destruct Hk. split; [assumption | etransitivity; eassumption].
  - exact Hk.
Qed.

Lemma triple_try_catch {A} throws (Q : A -> Prop) (m : M A) (h : string -> M A) :
  triple I true Q m ->
  (forall e, triple I throws Q (h e)) ->
  triple I throws Q (try_catch m h).
Proof.
  intros Hm Hh w. unfold try_catch. specialize (Hm w).
  destruct (m w) as [[a | e |] w1]; [exact Hm | | exact Hm].
  destruct Hm as [_ HI]. specialize (Hh e w1).
  destruct (h e w1) as [[b | e' |] w2].
  - destruct Hh. split; [etransitivity; eassumption | assumption].
  - destruct Hh. split; [assumption | etransitivity; eassumption].
  - exact Hh.
Qed.

Lemma triple_weaken {A} (throws : bool) (Q Q' : A -> Prop) (m : M A) :
  triple I throws Q m ->
  (forall a, Q a -> Q' a) ->
  triple I throws Q' m.
Proof.
  intros Hm HQ w. specialize (Hm w).
  destruct (m w) as [[a | e |] w1].
  - destruct Hm. split; auto.
  - exact Hm.
  - exact Hm.
Qed.

Lemma triple_allow {A} (throws : bool) (Q : A -> Prop) (m : M A) :
  triple I throws Q m -> triple I true Q m.
Proof.
  intros Hm w. specialize (Hm w).
  destruct (m w) as [[a | e |] w1].
  - exact Hm.
  - destruct Hm. split; auto.
  - exact Hm.
Qed.

Lemma triple_returns {A} (Q : A -> Prop) (m : M A) (w : World) :
  triple I false Q m ->
  exists a w', m w = (Returned a, w') /\ I w w' /\ Q a.
Proof.
  intros Hm. specialize (Hm w).
  destruct (m w) as [[a | e |] w1].
  - destruct Hm. eauto.
  - destruct Hm. discriminate.
  - contradiction.
Qed.

End TripleRules.

#[local] Instance quiet_refl : Reflexive quiet.
Proof.
  intros w. split; [reflexivity |]. exists []. split; [| reflexivity].
  symmetry. apply app_nil_r.
Qed.

#[local] Instance quiet_trans : Transitive quiet.
Proof.
  intros w1 w2 w3 [Hs1 (l1 & He1 & Hw1)] [Hs2 (l2 & He2 & Hw2)].
  split; [congruence |]. exists (l1 ++ l2)%list. split.
  - rewrite He2, He1. symmetry. apply app_assoc.
  - rewrite existsb_app, Hw1, Hw2. reflexivity.
Qed.

#[local] Instance silent_refl : Reflexive silent.
Proof. intros w. split; reflexivity. Qed.

#[local] Instance silent_trans : Transitive silent.
Proof. intros w1 w2 w3 [? ?] [? ?]. split; congruence. Qed.

Lemma silent_quiet w w' : silent w w' -> quiet w w'.
Proof.
  intros [Hs He]. split; [exact Hs |]. exists []. split; [| reflexivity].
  rewrite He. symmetry. apply app_nil_r.
Qed.

Lemma triple_frame {A} (I I' : World -> World -> Prop) throws (Q : A -> Prop) (m : M A) :
  (forall w w', I w w' -> I' w w') ->
  triple I throws Q m -> triple I' throws Q m.
Proof.
  intros Hsub Hm w. specialize (Hm w).
  destruct (m w) as [[a | e |] w1]; [| | exact Hm]; destruct Hm; split; auto.
Qed.

#[local] Instance unchanged_refl : Reflexive unchanged.
Proof. intros w. reflexivity. Qed.

#[local] Instance unchanged_trans : Transitive unchanged.
Proof. intros w1 w2 w3 H1 H2. unfold unchanged in *. congruence. Qed.

Lemma unchanged_silent w w' : unchanged w w' -> silent w w'.
Proof. intros ->. reflexivity. Qed.

(** ** The outside calls *)

Section Calls.

Context (env : Env).

Lemma path_join_unchanged root p :
  triple unchanged true (fun _ => True) (path_join root p).
Proof.
  destruct p as [rel |]; simpl.
  - apply triple_ret. exact Logic.I.
  - apply triple_throw.
Qed.

Lemma fs_readFile_unchanged p :
  triple unchanged true (fun _ => True) (fs_readFile env p).
Proof.
  intros w. unfold fs_readFile, lift_fs.
  destruct (Fs.readFile (cwd env) p (tree w)); simpl; split; reflexivity || exact Logic.I.
Qed.

Lemma fs_readdir_unchanged p :
  triple unchanged true (fun _ => True) (fs_readdir env p).
Proof.
  intros w. unfold fs_readdir, lift_fs.
  destruct (Fs.readdir (cwd env) p (tree w)); simpl; split; reflexivity || exact Logic.I.
Qed.

Lemma fs_mkdir_silent p : triple silent true (fun _ => True) (fs_mkdir env p).
Proof.
  intros w. unfold fs_mkdir.
  destruct (Fs.mkdir (cwd env) p (tree w)); simpl; repeat split.
Qed.

Lemma fs_writeFile_silent p data :
  triple silent true (fun _ => True) (fs_writeFile env p data).
Proof.
  intros w. unfold fs_writeFile.
  destruct (Fs.writeFile (disk env) (cwd env) p data (tree w)); simpl; repeat split.
Qed.

Lemma publish_silent channel payload :
  triple silent true (fun _ => True) (publish env channel payload).
Proof.
  intros w. unfold publish.
  destruct (broker_up env (ticks w)); simpl; repeat split.
Qed.

Lemma execAsync_silent command dir :
  triple silent true (fun _ => True) (execAsync env command dir).
Proof.
  intros w. unfold execAsync.
  destruct command as [c |]; [| simpl; repeat split].
  destruct (Exec.failed (shell env c dir (tree w))); simpl; repeat split.
Qed.

Lemma create_stream_unchanged messages :
  triple unchanged true (fun _ => True) (create_stream env messages).
Proof.
  unfold create_stream. destruct (provider env messages).
  - apply triple_throw.
  - apply triple_ret. exact Logic.I.
Qed.

(** [publishProgress] always returns: a failure of the broker is swallowed.
    It notes the event and touches neither the tree nor the store. *)
Lemma publishProgress_spec taskId event w :
  exists w',
    publishProgress env taskId event w = (Returned tt, w')
    /\ tree w' = tree w
    /\ stored w' = stored w
    /\ emitted w' = (emitted w ++ [(taskId, event)])%list.
Proof.
  unfold publishProgress, try_catch, bind, date_now, publish. simpl.
  destruct (broker_up env (ticks w)); simpl; eexists; repeat split.
Qed.

Lemma publishProgress_quiet taskId event :
  is_warning (taskId, event) = false ->
  triple quiet false (fun _ => True) (publishProgress env taskId event).
Proof.
  intros Hw w. destruct (publishProgress_spec taskId event w) as (w' & -> & _ & Hs & He).
  split; [| exact Logic.I]. split; [exact Hs |].
  exists [(taskId, event)]. split; [exact He |]. simpl. rewrite Hw. reflexivity.
Qed.

End Calls.

(** ** [executeTool] *)

Create HintDb triples.

Ltac triple_go :=
  repeat first
    [ apply triple_ret; solve [auto with triples]
    | eapply triple_bind; [solve [eauto with triples] | intros ? _]
    | match goal with
      | |- triple _ _ _ (if ?b then _ else _) => destruct b
      end ].

Section Tools.

Context (env : Env).

Lemma explains_ok b : explains_failure (ToolResult.ok b).
Proof. intros H. discriminate H. Qed.

Lemma explains_failed message : explains_failure (ToolResult.failure message).
Proof. intros _. exists message. reflexivity. Qed.

Lemma explains_complete s l :
  explains_failure (ToolResult.mk true None (Some true) (ToolResult.Summary s l)).
Proof. intros H. discriminate H. Qed.

Lemma path_join_silent root p : triple silent true (fun _ => True) (path_join root p).
Proof. eapply triple_frame; [exact unchanged_silent | apply path_join_unchanged]. Qed.

Lemma fs_readFile_silent p : triple silent true (fun _ => True) (fs_readFile env p).
Proof. eapply triple_frame; [exact unchanged_silent | apply fs_readFile_unchanged]. Qed.

Lemma fs_readdir_silent p : triple silent true (fun _ => True) (fs_readdir env p).
Proof. eapply triple_frame; [exact unchanged_silent | apply fs_readdir_unchanged]. Qed.

#[local] Hint Resolve explains_ok explains_failed explains_complete
  path_join_silent fs_readFile_silent fs_readdir_silent
  path_join_unchanged fs_readFile_unchanged fs_readdir_unchanged
  fs_mkdir_silent fs_writeFile_silent publish_silent execAsync_silent : triples.

(** Whatever the tool and its input, [executeTool] returns a result and
    never throws; it neither stores nor emits, and a failed result carries
    an error message. *)
Lemma executeTool_silent toolName input ctx :
  triple silent false explains_failure (executeTool env toolName input ctx).
Proof.
  unfold executeTool. apply triple_try_catch.
  - triple_go.
  - intros e. apply triple_ret. apply explains_failed.
Qed.


(** The completion tool succeeds on every input and in every state. *)
Lemma executeTool_task_complete input ctx w :
  executeTool env "task_complete" input ctx w
  = (Returned
       (ToolResult.mk true None (Some true)
          (ToolResult.Summary (Input.summary input)
             (match Input.files_modified input with Some l => l | None => [] end))),
     w).
Proof. reflexivity. Qed.

End Tools.

(** ** Strings *)

Lemma append_cons (x : ascii) (a b : string) : String x a +:+ b = String x (a +:+ b).
Proof. reflexivity. Qed.


Lemma append_empty_r (a : string) : a +:+ "" = a.
Proof.
  induction a as [| x a IH]; [reflexivity |].
  rewrite append_cons, IH. reflexivity.
Qed.

Lemma prefix_spec (t s : string) :
  String.prefix t s = true <-> exists post, s = t +:+ post.
Proof.
  revert s. induction t as [| a t IH]; intros s.
  - split; [intros _; exists s; reflexivity | intros _; destruct s; reflexivity].
  - destruct s as [| b s]; simpl.
    + split; [discriminate | intros [post H]; discriminate H].
    + destruct (ascii_dec a b) as [-> | Hne].
      * rewrite IH. split; intros [post H]; exists post.
        -- rewrite H. reflexivity.
        -- injection H as H. exact H.
      * split; [discriminate | intros [post H]].
        injection H as Hb _. congruence.
Qed.

Lemma includes_cons (b : ascii) (s t : string) :
  Js.includes (String b s) t = String.prefix t (String b s) || Js.includes s t.
Proof.
  unfold Js.includes.
  change (String.index 0 t (String b s))
    with (if String.prefix t (String b s) then Some 0
          else match String.index 0 t s with Some n => Some (S n) | None => None end).
  destruct (String.prefix t (String b s)); [reflexivity |].
  destruct (String.index 0 t s); reflexivity.
Qed.

(** [includes] decides whether the text occurs somewhere in the string. *)
Lemma includes_spec (s t : string) :
  Js.includes s t = true <-> exists pre post, s = pre +:+ t +:+ post.
Proof.
  split.
  - induction s as [| b s IH].
    + unfold Js.includes. simpl. destruct t; [| discriminate].
      intros _. exists "", "". reflexivity.
    + rewrite includes_cons. intros H. apply orb_true_iff in H as [H | H].
      * apply prefix_spec in H as [post H]. exists "", post. exact H.
      * destruct (IH H) as (pre & post & ->). exists (String b pre), post. reflexivity.
  - intros (pre & post & ->). induction pre as [| a pre IH].
    + change ("" +:+ t +:+ post) with (t +:+ post).
      destruct (t +:+ post) as [| b s] eqn:E.
      * destruct t; [reflexivity | discriminate E].
      * rewrite includes_cons. apply orb_true_iff. left.
        rewrite <- E. apply prefix_spec. exists post. reflexivity.
    + rewrite append_cons, includes_cons. apply orb_true_iff. right. exact IH.
Qed.


(** ** The stream loop *)

Section Streams.

Context (env : Env).

Lemma on_event_quiet taskId event st :
  triple quiet false (fun _ => True) (on_event env taskId event st).
Proof.
  destruct event as [[| use | ty] | [chunk | ty] | [[| use | ty] |] | | ty]; simpl;
    try (apply triple_ret; exact Logic.I);
    (eapply triple_bind;
     [apply publishProgress_quiet; reflexivity
     | intros ? _; apply triple_ret; exact Logic.I]).
Qed.

Lemma process_stream_quiet taskId events broken st :
  triple quiet true (fun _ => True) (process_stream env taskId events broken st).
Proof.
  revert st. induction events as [| event rest IH]; intros st; simpl.
  - destruct broken; [apply triple_throw | apply triple_ret; exact Logic.I].
  - eapply triple_bind.
    + eapply triple_allow. apply on_event_quiet.
    + intros st' _. destruct (is_message_stop event);
        [apply triple_ret; exact Logic.I | apply IH].
Qed.







End Streams.

(** ** The tool loop and the iteration loop *)

Section Loops.

Context (env : Env).

Lemma silent_quiet_triple {A} throws (Q : A -> Prop) (m : M A) :
  triple silent throws Q m -> triple quiet throws Q m.
Proof. apply triple_frame. exact silent_quiet. Qed.

Lemma executeTool_reports toolName input ctx :
  triple quiet false
    (fun r => toolName = "task_complete" -> ToolResult.success r = true)
    (executeTool env toolName input ctx).
Proof.
  destruct (String.eqb_spec toolName "task_complete") as [-> | Hne].
  - intros w. rewrite executeTool_task_complete. split; [reflexivity | auto].
  - apply silent_quiet_triple.
    eapply triple_weaken; [apply executeTool_silent |].
    intros r _ H. contradiction.
Qed.

(** The tool loop never throws; it dispatches every tool of the batch, and
    the task is completed after it exactly when it was before or the batch
    holds a completion tool. *)
Lemma run_tools_quiet ctx toolUses toolResults completed :
  triple quiet false
    (fun r =>
       List.length (fst r) = List.length toolResults + List.length toolUses
       /\ snd r = completed || has_complete toolUses)
    (run_tools env ctx toolUses toolResults completed).
Proof.
  revert toolResults completed.
  induction toolUses as [| use rest IH]; intros toolResults completed; simpl.
  - apply triple_ret. simpl. split; [lia | rewrite orb_false_r; reflexivity].
  - eapply triple_bind; [apply publishProgress_quiet; reflexivity | intros _ _].
    eapply triple_bind; [apply executeTool_reports | intros result Hres].
    eapply triple_bind; [apply publishProgress_quiet; reflexivity | intros _ _].
    destruct (String.eqb_spec (ToolUse.name use) "task_complete") as [Hname | Hname];
      simpl.
    + rewrite (Hres Hname).
      eapply triple_bind; [apply publishProgress_quiet; reflexivity | intros _ _].
      eapply triple_weaken; [apply IH |].
      intros r [Hlen Hc]. rewrite length_app in Hlen. simpl in Hlen.
      split; [lia |]. rewrite Hc. rewrite orb_true_r. reflexivity.
    + eapply triple_weaken; [apply IH |].
      intros r [Hlen Hc]. rewrite length_app in Hlen. simpl in Hlen.
      split; [lia | exact Hc].
Qed.

Lemma receive_quiet ctx st :
  triple quiet true (fun _ => True) (receive env ctx st).
Proof.
  unfold receive.
  eapply triple_bind;
    [eapply triple_allow; apply publishProgress_quiet; reflexivity | intros _ _].
  eapply triple_bind.
  - eapply triple_frame; [| apply create_stream_unchanged].
    intros w w' ->. reflexivity.
  - intros stream _. apply process_stream_quiet.
Qed.

Lemma iteration_quiet ctx st :
  triple quiet true
    (fun st' => LoopState.iterations st' = S (LoopState.iterations st))
    (iteration env ctx st).
Proof.
  unfold iteration.
  eapply triple_bind; [apply receive_quiet | intros s _].
  destruct (StreamState.toolUses s) as [| use uses].
  - eapply triple_bind;
      [eapply triple_allow; apply publishProgress_quiet; reflexivity | intros _ _].
    apply triple_ret. reflexivity.
  - eapply triple_bind; [eapply triple_allow; apply run_tools_quiet | intros r _].
    apply triple_ret. reflexivity.
Qed.

Lemma while_loop_eq fuel ctx st :
  while_loop env fuel ctx st
  = if negb (LoopState.completed st) && (LoopState.iterations st <? maxIterations)%nat
    then match fuel with
         | 0 => fun w => (OutOfFuel, w)
         | S fuel' => bind (iteration env ctx st) (fun st' => while_loop env fuel' ctx st')
         end
    else ret st.
Proof. destruct fuel; reflexivity. Qed.

(** With fuel for the iterations that are left, the loop ends: it returns
    or throws, and the counter stays within the cap. *)
Lemma while_loop_quiet fuel ctx st :
  LoopState.iterations st <= maxIterations ->
  maxIterations - LoopState.iterations st <= fuel ->
  triple quiet true
    (fun st' => LoopState.iterations st' <= maxIterations)
    (while_loop env fuel ctx st).
Proof.
  revert st. induction fuel as [| fuel IH]; intros st Hle Hfuel;
    rewrite while_loop_eq;
    destruct (Nat.ltb_spec (LoopState.iterations st) maxIterations) as [Hlt | Hge];
    try (rewrite andb_false_r; apply triple_ret; exact Hle).
  - exfalso. lia.
  - destruct (LoopState.completed st); simpl; [apply triple_ret; exact Hle |].
    eapply triple_bind; [apply iteration_quiet | intros st' Hst'].
    cbv beta in Hst'. apply IH; lia.
Qed.

(** A completed task does not iterate again. *)
Lemma while_loop_completed fuel ctx st w :
  LoopState.completed st = true ->
  while_loop env fuel ctx st w = (Returned st, w).
Proof. intros H. rewrite while_loop_eq, H. reflexivity. Qed.

End Loops.

(** ** [processTask] *)

Section Tasks.

Context (env : Env).

#[local] Instance recording_refl taskId agentType : Reflexive (recording taskId agentType).
Proof. intros w. exists []. split; [symmetry; apply app_nil_r | constructor]. Qed.

#[local] Instance recording_trans taskId agentType :
  Transitive (recording taskId agentType).
Proof.
  intros w1 w2 w3 (l1 & H1 & F1) (l2 & H2 & F2). exists (l1 ++ l2)%list. split.
  - rewrite H2, H1. symmetry. apply app_assoc.
  - apply Forall_app. split; assumption.
Qed.

Lemma quiet_recording taskId agentType w w' :
  quiet w w' -> recording taskId agentType w w'.
Proof.
  intros [Hs _]. exists []. split; [rewrite Hs; symmetry; apply app_nil_r | constructor].
Qed.

Lemma set_result_recording taskId agentType key value ttl :
  well_recorded taskId agentType (StoreWrite.mk key value ttl) ->
  triple (recording taskId agentType) true (fun _ => True) (set_result env key value ttl).
Proof.
  intros Hrec w. unfold set_result. destruct (store_up env (ticks w)); simpl.
  - split; [| exact Logic.I]. exists [StoreWrite.mk key value ttl].
    split; [reflexivity | constructor; [exact Hrec | constructor]].
  - split; [reflexivity |]. exists []. split; [symmetry; apply app_nil_r | constructor].
Qed.

Lemma date_now_recording taskId agentType :
  triple (recording taskId agentType) true (fun _ => True) (date_now env).
Proof. intros w. simpl. split; [reflexivity | exact Logic.I]. Qed.

Lemma publishProgress_recording taskId agentType id event :
  triple (recording taskId agentType) true (fun _ => True) (publishProgress env id event).
Proof.
  intros w. destruct (publishProgress_spec env id event w) as (w' & -> & _ & Hs & _).
  split; [| exact Logic.I]. exists []. split; [rewrite Hs; symmetry; apply app_nil_r | constructor].
Qed.

Lemma publish_recording taskId agentType channel payload :
  triple (recording taskId agentType) true (fun _ => True) (publish env channel payload).
Proof.
  eapply triple_frame; [| apply publish_silent].
  intros w w' H. apply quiet_recording, silent_quiet, H.
Qed.

Lemma finish_recording taskId st :
  LoopState.iterations st <= maxIterations ->
  triple (recording taskId (AGENT_TYPE env)) true (fun _ => True) (finish env taskId st).
Proof.
  intros Hle. unfold finish.
  eapply triple_bind with (Q1 := fun _ => True).
  - destruct (maxIterations <=? LoopState.iterations st)%nat;
      [apply publishProgress_recording | apply triple_ret; exact Logic.I].
  - intros _ _. eapply triple_bind; [apply date_now_recording | intros timestamp _].
    eapply triple_bind; [| intros _ _; apply publish_recording].
    apply set_result_recording. repeat split; simpl. left. repeat split.
    + exists (LoopState.iterations st). split; [reflexivity | exact Hle].
    + exists (LoopState.completed st). reflexivity.
Qed.

Lemma on_error_recording taskId message :
  triple (recording taskId (AGENT_TYPE env)) true (fun _ => True)
    (on_error env taskId message).
Proof.
  unfold on_error.
  eapply triple_bind; [apply publishProgress_recording | intros _ _].
  eapply triple_bind; [apply date_now_recording | intros timestamp _].
  apply set_result_recording. repeat split; simpl. right. repeat split.
  exists message. reflexivity.
Qed.

Lemma while_loop_start task :
  triple quiet true
    (fun st => LoopState.iterations st <= maxIterations)
    (while_loop env maxIterations (context_of task) (initial_state task)).
Proof. apply while_loop_quiet; unfold maxIterations; simpl; lia. Qed.

(** [processTask] never runs out of fuel, and whatever it adds to the store
    is a terminal record of its task. *)
Lemma processTask_recording task :
  triple (recording (Task.taskId task) (AGENT_TYPE env)) true (fun _ => True)
    (processTask env task).
Proof.
  unfold processTask.
  eapply triple_bind.
  { eapply triple_frame; [| apply fs_mkdir_silent].
    intros w w' H. apply quiet_recording, silent_quiet, H. }
  intros _ _. eapply triple_bind; [apply publishProgress_recording | intros _ _].
  apply triple_try_catch; [| intros e; apply on_error_recording].
  eapply triple_bind.
  - eapply triple_frame; [| apply while_loop_start].
    intros w w'. apply quiet_recording.
  - intros st Hst. apply finish_recording. exact Hst.
Qed.

(** *** With a reliable broker and store *)

Lemma finish_reliable taskId st w :
  reliable env ->
  exists w' timestamp,
    finish env taskId st w = (Returned tt, w')
    /\ emitted w'
       = (emitted w
          ++ if (maxIterations <=? LoopState.iterations st)%nat
             then [(taskId, task_warning "Reached maximum iterations limit")]
             else [])%list
    /\ stored w'
       = (stored w
          ++ [StoreWrite.mk ("result:" +:+ taskId)
                (Result.mk taskId (AGENT_TYPE env) (Some (LoopState.iterations st))
                   (Some (LoopState.completed st)) None timestamp)
                3600])%list.
Proof.
  intros Hrel. unfold finish.
  assert (exists w1,
             (if (maxIterations <=? LoopState.iterations st)%nat
              then publishProgress env taskId
                     (task_warning "Reached maximum iterations limit")
              else ret tt) w = (Returned tt, w1)
             /\ stored w1 = stored w
             /\ emitted w1
                = (emitted w
                   ++ if (maxIterations <=? LoopState.iterations st)%nat
                      then [(taskId, task_warning "Reached maximum iterations limit")]
                      else [])%list) as (w1 & Hw1 & Hs1 & He1).
  { destruct (maxIterations <=? LoopState.iterations st)%nat.
    - destruct (publishProgress_spec env taskId
                  (task_warning "Reached maximum iterations limit") w)
        as (w1 & H & _ & Hs & He).
      exists w1. auto.
    - exists w. rewrite app_nil_r. auto. }
  exists (tick (note_delivered
                  ("task-completed",
                   TaskCompletedMsg taskId (AGENT_TYPE env) (LoopState.iterations st)
                     (LoopState.completed st))
                  (tick (note_stored
                           (StoreWrite.mk ("result:" +:+ taskId)
                              (Result.mk taskId (AGENT_TYPE env)
                                 (Some (LoopState.iterations st))
                                 (Some (LoopState.completed st)) None
                                 (now env (ticks w1)))
                              3600) w1)))),
    (now env (ticks w1)).
  unfold bind at 1. rewrite Hw1.
  unfold bind, date_now, set_result, publish. simpl.
  destruct (Hrel (ticks w1)) as [_ ->]. simpl.
  destruct (Hrel (S (ticks w1))) as [-> _]. simpl.
  rewrite He1, Hs1. repeat split.
Qed.

Lemma on_error_reliable taskId message w :
  reliable env ->
  exists w' timestamp,
    on_error env taskId message w = (Returned tt, w')
    /\ emitted w' = (emitted w ++ [(taskId, task_error message)])%list
    /\ stored w'
       = (stored w
          ++ [StoreWrite.mk ("result:" +:+ taskId)
                (Result.mk taskId (AGENT_TYPE env) None None (Some message) timestamp)
                3600])%list.
Proof.
  intros Hrel. unfold on_error.
  destruct (publishProgress_spec env taskId (task_error message) w)
    as (w1 & Hw1 & _ & Hs1 & He1).
  exists (tick (note_stored
                  (StoreWrite.mk ("result:" +:+ taskId)
                     (Result.mk taskId (AGENT_TYPE env) None None (Some message)
                        (now env (ticks w1)))
                     3600) w1)),
    (now env (ticks w1)).
  unfold bind at 1. rewrite Hw1.
  unfold bind, date_now, set_result. simpl.
  destruct (Hrel (ticks w1)) as [_ ->]. simpl.
  rewrite He1, Hs1. repeat split.
Qed.

(** The whole run: the start event, the events of the loop (no warning
    among them), and then either the success-path ending or the
    error-path ending, each with its single record. *)
Lemma processTask_reliable task w :
  reliable env ->
  workspace_ready env task w ->
  exists w' l timestamp,
    processTask env task w = (Returned tt, w')
    /\ existsb is_warning l = false
    /\ ((exists st,
            LoopState.iterations st <= maxIterations
            /\ emitted w'
               = (emitted w
                  ++ (Task.taskId task,
                      task_started (AGENT_TYPE env) "Starting task processing...")
                  :: l
                  ++ if (maxIterations <=? LoopState.iterations st)%nat
                     then [(Task.taskId task,
                            task_warning "Reached maximum iterations limit")]
                     else [])%list
            /\ stored w'
               = (stored w
                  ++ [StoreWrite.mk ("result:" +:+ Task.taskId task)
                        (Result.mk (Task.taskId task) (AGENT_TYPE env)
                           (Some (LoopState.iterations st))
                           (Some (LoopState.completed st)) None timestamp)
                        3600])%list)
        \/ (exists message,
               emitted w'
               = (emitted w
                  ++ (Task.taskId task,
                      task_started (AGENT_TYPE env) "Starting task processing...")
                  :: l ++ [(Task.taskId task, task_error message)])%list
               /\ stored w'
                  = (stored w
                     ++ [StoreWrite.mk ("result:" +:+ Task.taskId task)
                           (Result.mk (Task.taskId task) (AGENT_TYPE env) None None
                              (Some message) timestamp)
                           3600])%list)).
Proof.
  intros Hrel Hready. unfold workspace_ready in Hready.
  destruct (Fs.mkdir (cwd env)
              (NodePath.join2 (WORKSPACE_ROOT env) (Task.projectId task)) (tree w))
    as [t | e] eqn:Ht; [clear Hready | discriminate Hready].
  unfold processTask.
  unfold bind at 1. unfold fs_mkdir at 1. rewrite Ht.
  unfold bind at 1.
  destruct (publishProgress_spec env (Task.taskId task)
              (task_started (AGENT_TYPE env) "Starting task processing...")
              (with_tree t w)) as (w1 & -> & _ & Hs1 & He1).
  simpl in Hs1, He1.
  unfold try_catch, bind.
  pose proof (while_loop_start task w1) as Hloop.
  destruct (while_loop env maxIterations (context_of task) (initial_state task) w1)
    as [[st | message |] w2].
  - destruct Hloop as [[Hs2 (l & He2 & Hl)] Hst].
    destruct (finish_reliable (Task.taskId task) st w2 Hrel) as (w3 & ts & -> & He3 & Hs3).
    exists w3, l, ts. split; [reflexivity |]. split; [exact Hl |]. left.
    exists st. split; [exact Hst |]. split.
    + rewrite He3, He2, He1. rewrite <- !app_assoc. reflexivity.
    + rewrite Hs3, Hs2, Hs1. reflexivity.
  - destruct Hloop as [_ [Hs2 (l & He2 & Hl)]].
    destruct (on_error_reliable (Task.taskId task) message w2 Hrel)
      as (w3 & ts & -> & He3 & Hs3).
    exists w3, l, ts. split; [reflexivity |]. split; [exact Hl |]. right.
    exists message. split.
    + rewrite He3, He2, He1. rewrite <- !app_assoc. reflexivity.
    + rewrite Hs3, Hs2, Hs1. reflexivity.
  - contradiction.
Qed.

End Tasks.

(** * Further properties of the program *)

(** ** Splitting and joining *)

Lemma split_nonempty c s : Js.split c s <> [].
Proof.
  destruct s as [| a s]; simpl; [discriminate |].
  destruct (Ascii.eqb a c); [discriminate |].
  destruct (Js.split c s); discriminate.
Qed.

Lemma split_cons c a s :
  Js.split c (String a s)
  = if Ascii.eqb a c then EmptyString :: Js.split c s
    else match Js.split c s with
         | seg :: rest => String a seg :: rest
         | [] => [String a EmptyString]
         end.
Proof. reflexivity. Qed.

Lemma split_app_sep c a b :
  Js.split c (a +:+ String c b) = (Js.split c a ++ Js.split c b)%list.
Proof.
  induction a as [| x a IH].
  - change ("" +:+ String c b) with (String c b).
    rewrite split_cons, Ascii.eqb_refl. reflexivity.
  - rewrite append_cons, !split_cons, IH.
    destruct (Ascii.eqb x c); [reflexivity |].
    destruct (Js.split c a) as [| seg rest] eqn:E; [| reflexivity].
    exfalso. exact (split_nonempty c a E).
Qed.

Lemma split_no_sep c s : occurrences c s = 0 -> Js.split c s = [s].
Proof.
  induction s as [| a s IH]; [reflexivity |].
  simpl occurrences. rewrite split_cons.
  destruct (Ascii.eqb a c); [discriminate |].
  intros H. rewrite (IH H). reflexivity.
Qed.

Lemma split_segments c s : Forall (fun seg => occurrences c seg = 0) (Js.split c s).
Proof.
  induction s as [| a s IH]; [repeat constructor |].
  rewrite split_cons. destruct (Ascii.eqb a c) eqn:E.
  - constructor; [reflexivity | exact IH].
  - destruct (Js.split c s) as [| seg rest].
    + repeat constructor. simpl. rewrite E. reflexivity.
    + inversion IH as [| ? ? Hseg Hrest]; subst. constructor; [| exact Hrest].
      simpl. rewrite E. exact Hseg.
Qed.

Lemma join_cons2 s s' rest :
  Js.join "/" (s :: s' :: rest) = s +:+ String "/" (Js.join "/" (s' :: rest)).
Proof. reflexivity. Qed.

Lemma split_join segs :
  segs <> [] ->
  Forall (fun seg => occurrences NodePath.sep seg = 0) segs ->
  Js.split NodePath.sep (Js.join "/" segs) = segs.
Proof.
  unfold NodePath.sep.
  induction segs as [| s rest IH]; [congruence |].
  intros _ H. inversion H as [| ? ? Hs Hrest]; subst.
  destruct rest as [| s' rest].
  - simpl. apply split_no_sep. exact Hs.
  - rewrite join_cons2, split_app_sep, (split_no_sep _ _ Hs), IH;
      [reflexivity | discriminate | exact Hrest].
Qed.

(** ** Normalization of segments *)

Lemma plain_step b stack seg :
  plain seg -> NodePath.norm_step b stack seg = seg :: stack.
Proof.
  intros (H1 & H2 & H3). unfold NodePath.norm_step.
  apply String.eqb_neq in H1, H2, H3. rewrite H1, H2, H3. reflexivity.
Qed.

Lemma step_cases seg : seg = "" \/ seg = "." \/ seg = ".." \/ plain seg.
Proof.
  destruct (String.eqb_spec seg ""); [auto |].
  destruct (String.eqb_spec seg "."); [auto |].
  destruct (String.eqb_spec seg ".."); [auto |].
  right. right. right. repeat split; assumption.
Qed.

Lemma step_parent b stack :
  NodePath.norm_step b stack ".."
  = match stack with
    | top :: below =>
        if String.eqb top ".." then (if b then ".." :: stack else stack) else below
    | [] => if b then [".."] else []
    end.
Proof. reflexivity. Qed.

Lemma plain_not_parent seg : plain seg -> String.eqb seg ".." = false.
Proof. intros (_ & _ & H). apply String.eqb_neq. exact H. Qed.

Lemma fold_plain b segs stack :
  Forall plain segs ->
  fold_left (NodePath.norm_step b) segs stack = (rev segs ++ stack)%list.
Proof.
  revert stack. induction segs as [| seg segs IH]; intros stack H; [reflexivity |].
  inversion H as [| ? ? Hseg Hsegs]; subst.
  simpl. rewrite (plain_step _ _ _ Hseg), (IH _ Hsegs), <- app_assoc. reflexivity.
Qed.

(** Without [allowAboveRoot], a stack of plain segments stays one. *)
Lemma fold_keeps_plain segs stack :
  Forall plain stack ->
  Forall plain (fold_left (NodePath.norm_step false) segs stack).
Proof.
  revert stack. induction segs as [| seg segs IH]; intros stack H; [exact H |].
  simpl. apply IH.
  destruct (step_cases seg) as [-> | [-> | [-> | Hp]]]; try exact H.
  - destruct stack as [| top below]; [constructor |].
    inversion H as [| ? ? Htop Hbelow]; subst.
    rewrite step_parent, (plain_not_parent _ Htop). exact Hbelow.
  - rewrite (plain_step _ _ _ Hp). constructor; assumption.
Qed.

(** Whatever holds of the segments and of [".."] holds of what is kept. *)
Lemma fold_keeps b (P : string -> Prop) segs stack :
  P ".." -> Forall P segs -> Forall P stack ->
  Forall P (fold_left (NodePath.norm_step b) segs stack).
Proof.
  intros Hpar. revert stack.
  induction segs as [| seg segs IH]; intros stack Hsegs Hstack; [exact Hstack |].
  inversion Hsegs as [| ? ? Hseg Hrest]; subst.
  simpl. apply IH; [exact Hrest |].
  unfold NodePath.norm_step.
  destruct (String.eqb seg "" || String.eqb seg "."); [exact Hstack |].
  destruct (String.eqb_spec seg "..") as [-> | _].
  - destruct stack as [| top below].
    + destruct b; repeat constructor. exact Hpar.
    + inversion Hstack; subst.
      destruct (String.eqb top ".."); [destruct b |]; try assumption.
      constructor; assumption.
  - constructor; assumption.
Qed.

(** What is kept is never the empty segment. *)
Lemma fold_nonempty b segs :
  Forall (fun seg => seg <> "") (fold_left (NodePath.norm_step b) segs []).
Proof.
  assert (forall stack, Forall (fun seg => seg <> "") stack ->
                        Forall (fun seg => seg <> "")
                          (fold_left (NodePath.norm_step b) segs stack)) as H.
  { induction segs as [| seg segs IH]; intros stack Hstack; [exact Hstack |].
    simpl. apply IH. unfold NodePath.norm_step.
    destruct (String.eqb_spec seg "") as [-> | Hne]; [exact Hstack |].
    simpl. destruct (String.eqb seg "."); [exact Hstack |].
    destruct (String.eqb_spec seg "..") as [-> | _].
    - destruct stack as [| top below].
      + destruct b; repeat constructor. discriminate.
      + inversion Hstack; subst.
        destruct (String.eqb top ".."); [destruct b |]; try assumption.
        constructor; [discriminate | assumption].
    - constructor; assumption. }
  apply H. constructor.
Qed.

Lemma drop_next {A} k (l : list A) x rest :
  drop k l = x :: rest -> drop (S k) l = rest.
Proof.
  revert l. induction k as [| k IH]; intros l H.
  - change (l = x :: rest) in H. subst. reflexivity.
  - destruct l as [| y l]; [discriminate H |]. exact (IH l H).
Qed.

Lemma drop_done {A} k (l : list A) : drop k l = [] -> drop (S k) l = [].
Proof.
  revert l. induction k as [| k IH]; intros l H.
  - change (l = []) in H. subst. reflexivity.
  - destruct l as [| y l]; [reflexivity |]. exact (IH l H).
Qed.

Lemma step_parent_above k :
  NodePath.norm_step true (replicate k "..") ".." = replicate (S k) "..".
Proof. destruct k; reflexivity. Qed.

Lemma step_parent_below base k :
  Forall plain base ->
  NodePath.norm_step false (drop k base) ".." = drop (S k) base.
Proof.
  intros Hbase. rewrite step_parent.
  destruct (drop k base) as [| top below] eqn:Ed.
  - symmetry. apply drop_done. exact Ed.
  - assert (Forall plain (drop k base)) as Hd by (apply Forall_drop; exact Hbase).
    rewrite Ed in Hd. inversion Hd as [| ? ? Htop _]; subst.
    rewrite (plain_not_parent _ Htop). symmetry. exact (drop_next _ _ _ _ Ed).
Qed.

(** Normalizing with and without [allowAboveRoot], side by side: the
    leading [".."] segments that the first keeps are the segments that the
    second removes from the stack it started with. *)
Lemma fold_side_by_side base segs :
  Forall plain base ->
  forall kept k,
    Forall plain kept ->
    exists kept' k',
      Forall plain kept'
      /\ fold_left (NodePath.norm_step true) segs (kept ++ replicate k "..")%list
         = (kept' ++ replicate k' "..")%list
      /\ fold_left (NodePath.norm_step false) segs (kept ++ drop k base)%list
         = (kept' ++ drop k' base)%list.
Proof.
  intros Hbase. induction segs as [| seg segs IH]; intros kept k Hkept.
  - exists kept, k. auto.
  - simpl fold_left. destruct (step_cases seg) as [-> | [-> | [-> | Hp]]].
    + apply IH. exact Hkept.
    + apply IH. exact Hkept.
    + destruct kept as [| top below].
      * rewrite !app_nil_l, step_parent_above, (step_parent_below _ _ Hbase).
        apply (IH [] (S k)). constructor.
      * inversion Hkept as [| ? ? Htop Hbelow]; subst.
        rewrite <- !app_comm_cons, !step_parent, !(plain_not_parent _ Htop).
        apply IH. exact Hbelow.
    + rewrite !(plain_step _ _ _ Hp).
      apply (IH (seg :: kept) k). constructor; assumption.
Qed.

Lemma fold_pop base k :
  Forall plain base ->
  fold_left (NodePath.norm_step false) (replicate k "..") base = drop k base.
Proof.
  revert base. induction k as [| k IH]; intros base Hbase; [reflexivity |].
  simpl. change base with (drop 0 base) at 1.
  rewrite (step_parent_below _ _ Hbase), IH by (apply Forall_drop; exact Hbase).
  rewrite drop_drop. f_equal.
Qed.

Lemma rev_replicate {A} k (x : A) : rev (replicate k x) = replicate k x.
Proof.
  induction k as [| k IH]; [reflexivity |].
  simpl. rewrite IH. clear IH.
  induction k as [| k IH]; [reflexivity |]. simpl. rewrite IH. reflexivity.
Qed.

(** Resolving already normalized segments gives what resolving the
    original segments gives. *)
Lemma renormalize (b : bool) base segs :
  (if b then Forall plain base else base = []) ->
  fold_left (NodePath.norm_step false) (NodePath.normalize_segments b segs) base
  = fold_left (NodePath.norm_step false) segs base.
Proof.
  intros Hbase. unfold NodePath.normalize_segments. destruct b.
  - destruct (fold_side_by_side base segs Hbase [] 0 (List.Forall_nil _))
      as (kept & k & Hkept & Htrue & Hfalse).
    change (fold_left (NodePath.norm_step true) segs [] = (kept ++ replicate k "..")%list)
      in Htrue.
    change (fold_left (NodePath.norm_step false) segs base = (kept ++ drop k base)%list)
      in Hfalse.
    rewrite Htrue, Hfalse.
    rewrite rev_app_distr, rev_replicate, fold_left_app, (fold_pop _ _ Hbase).
    rewrite fold_plain by (apply Forall_rev; exact Hkept).
    rewrite rev_involutive. reflexivity.
  - subst base.
    assert (Forall plain (fold_left (NodePath.norm_step false) segs [])) as Hkept
      by (apply fold_keeps_plain; constructor).
    rewrite fold_plain by (apply Forall_rev; exact Hkept).
    rewrite rev_involutive, app_nil_r. reflexivity.
Qed.

Lemma join_is_empty segs :
  Forall (fun seg => seg <> "") segs -> Js.join "/" segs = "" -> segs = [].
Proof.
  destruct segs as [| s rest]; [reflexivity |].
  intros H Hj. inversion H as [| ? ? Hs _]; subst. exfalso.
  destruct rest as [| s' rest]; simpl in Hj; [exact (Hs Hj) |].
  destruct s; [exact (Hs eq_refl) | discriminate Hj].
Qed.

Lemma join_starts segs :
  Forall (fun seg => seg <> "") segs ->
  Forall (fun seg => occurrences NodePath.sep seg = 0) segs ->
  NodePath.starts_with_sep (Js.join "/" segs) = false.
Proof.
  destruct segs as [| s rest]; [reflexivity |].
  intros Hne Hns. inversion Hne as [| ? ? Hs _]; inversion Hns as [| ? ? Hs' _]; subst.
  destruct s as [| a s]; [exfalso; exact (Hs eq_refl) |].
  assert (Ascii.eqb a NodePath.sep = false) as E.
  { destruct (Ascii.eqb a NodePath.sep) eqn:E; [| reflexivity].
    simpl in Hs'. rewrite E in Hs'. discriminate Hs'. }
  destruct rest; [exact E | rewrite join_cons2, append_cons; exact E].
Qed.

Lemma starts_append a b :
  a <> "" -> NodePath.starts_with_sep (a +:+ b) = NodePath.starts_with_sep a.
Proof. destruct a; [congruence | reflexivity]. Qed.

(** The segments that [normalize] keeps, free of separators and not empty. *)
Lemma normalized_segments b s :
  let segs := NodePath.normalize_segments b (Js.split NodePath.sep s) in
  Forall (fun seg => seg <> "") segs
  /\ Forall (fun seg => occurrences NodePath.sep seg = 0) segs.
Proof.
  unfold NodePath.normalize_segments. split; apply Forall_rev.
  - apply fold_nonempty.
  - apply fold_keeps; [reflexivity | apply split_segments | constructor].
Qed.

(** The segments of a normalized path differ from the normalized segments
    by empty and ["."] segments only. *)
Lemma split_normalize b stack s :
  fold_left (NodePath.norm_step b) (Js.split NodePath.sep (NodePath.normalize s)) stack
  = fold_left (NodePath.norm_step b)
      (NodePath.normalize_segments (negb (NodePath.starts_with_sep s))
         (Js.split NodePath.sep s))
      stack.
Proof.
  unfold NodePath.normalize.
  destruct (String.eqb_spec s "") as [-> | Hs]; [reflexivity |].
  destruct (normalized_segments (negb (NodePath.starts_with_sep s)) s) as [Hne Hns].
  cbv zeta in *.
  set (segs := NodePath.normalize_segments (negb (NodePath.starts_with_sep s))
                 (Js.split NodePath.sep s)) in *.
  destruct (String.eqb_spec (Js.join "/" segs) "") as [Hj | Hj].
  - rewrite (join_is_empty _ Hne Hj).
    destruct (NodePath.starts_with_sep s); [reflexivity |].
    destruct (NodePath.ends_with_sep s); reflexivity.
  - assert (segs <> []) as Hsegs by (intros E; rewrite E in Hj; exact (Hj eq_refl)).
    pose proof (split_join segs Hsegs Hns) as Hsplit.
    assert (Js.split NodePath.sep (Js.join "/" segs +:+ "/") = (segs ++ [""])%list) as Hslash.
    { change "/" with (String NodePath.sep "") at 2.
      rewrite split_app_sep, Hsplit. reflexivity. }
    assert (forall p, Js.split NodePath.sep ("/" +:+ p) = "" :: Js.split NodePath.sep p)
      as Hroot by reflexivity.
    destruct (NodePath.ends_with_sep s), (NodePath.starts_with_sep s);
      rewrite ?Hroot, ?Hslash, ?Hsplit; cbn [fold_left]; rewrite ?fold_left_app;
      reflexivity.
Qed.

Lemma starts_normalize s :
  NodePath.starts_with_sep (NodePath.normalize s) = NodePath.starts_with_sep s.
Proof.
  unfold NodePath.normalize.
  destruct (String.eqb_spec s "") as [-> | Hs]; [reflexivity |].
  destruct (normalized_segments (negb (NodePath.starts_with_sep s)) s) as [Hne Hns].
  cbv zeta in *.
  set (segs := NodePath.normalize_segments (negb (NodePath.starts_with_sep s))
                 (Js.split NodePath.sep s)) in *.
  pose proof (join_starts segs Hne Hns) as Hstart.
  destruct (String.eqb_spec (Js.join "/" segs) "") as [Hj | Hj].
  - destruct (NodePath.starts_with_sep s); [reflexivity |].
    destruct (NodePath.ends_with_sep s); reflexivity.
  - destruct (NodePath.starts_with_sep s); [destruct (NodePath.ends_with_sep s); reflexivity |].
    destruct (NodePath.ends_with_sep s); [| exact Hstart].
    rewrite (starts_append _ _ Hj). exact Hstart.
Qed.

(** The operating system finds a normalized path where it finds the path. *)
Lemma locate_normalize cwd s :
  Fs.locate cwd (NodePath.normalize s) = Fs.locate cwd s.
Proof.
  unfold Fs.locate, NodePath.normalize_segments. f_equal.
  rewrite starts_normalize, !fold_left_app, split_normalize.
  apply renormalize.
  destruct (NodePath.starts_with_sep s); simpl; [reflexivity |].
  apply fold_keeps_plain. constructor.
Qed.

Lemma normalize_not_empty s : NodePath.normalize s <> "".
Proof.
  unfold NodePath.normalize.
  destruct (String.eqb_spec s ""); [discriminate |].
  cbv zeta.
  set (body := Js.join "/" _).
  destruct (String.eqb_spec body "") as [Hj | Hj].
  - destruct (NodePath.starts_with_sep s); [discriminate |].
    destruct (NodePath.ends_with_sep s); discriminate.
  - destruct (NodePath.starts_with_sep s); [discriminate |].
    destruct (NodePath.ends_with_sep s); [| exact Hj].
    intros E. destruct body; [exact (Hj eq_refl) | discriminate E].
Qed.

Lemma join2_not_empty a b : NodePath.join2 a b <> "".
Proof.
  unfold NodePath.join2.
  destruct (String.eqb a ""), (String.eqb b ""); try apply normalize_not_empty.
  discriminate.
Qed.

(** Where [path.join(root, rel)] is found: the segments of [rel] resolved
    after those of [root]. *)
Lemma locate_join2 cwd root rel :
  root <> "" ->
  Fs.locate cwd (NodePath.join2 root rel)
  = rev (fold_left (NodePath.norm_step false) (Js.split NodePath.sep rel)
           (rev (Fs.locate cwd root))).
Proof.
  intros Hroot. unfold NodePath.join2.
  apply String.eqb_neq in Hroot as Hr. rewrite Hr.
  destruct (String.eqb_spec rel "") as [-> | Hrel].
  - rewrite locate_normalize.
    change (fold_left (NodePath.norm_step false) (Js.split NodePath.sep "")
              (rev (Fs.locate cwd root)))
      with (rev (Fs.locate cwd root)).
    rewrite rev_involutive. reflexivity.
  - rewrite locate_normalize. unfold Fs.locate, NodePath.normalize_segments.
    rewrite rev_involutive.
    change (root +:+ "/" +:+ rel) with (root +:+ String NodePath.sep rel).
    rewrite (starts_append _ _ Hroot), split_app_sep, app_assoc, fold_left_app.
    reflexivity.
Qed.

Lemma fold_grows segs stack :
  ~ In ".." segs ->
  exists added, fold_left (NodePath.norm_step false) segs stack = (added ++ stack)%list.
Proof.
  revert stack. induction segs as [| seg segs IH]; intros stack Hno.
  - exists []. reflexivity.
  - assert (~ In ".." segs) as Hrest by (intros H; apply Hno; right; exact H).
    simpl fold_left. destruct (step_cases seg) as [-> | [-> | [-> | Hp]]].
    + apply IH, Hrest.
    + apply IH, Hrest.
    + exfalso. apply Hno. left. reflexivity.
    + rewrite (plain_step _ _ _ Hp).
      destruct (IH (seg :: stack) Hrest) as (added & ->).
      exists (added ++ [seg])%list. rewrite <- app_assoc. reflexivity.
Qed.

(** [path.join] stays below its first argument when the second has no
    [".."] segment. *)
Lemma join2_inside cwd root rel :
  root <> "" ->
  ~ In ".." (Js.split NodePath.sep rel) ->
  inside (Fs.locate cwd root) (Fs.locate cwd (NodePath.join2 root rel)) = true.
Proof.
  intros Hroot Hno. rewrite (locate_join2 _ _ _ Hroot).
  destruct (fold_grows _ (rev (Fs.locate cwd root)) Hno) as (added & ->).
  rewrite rev_app_distr, rev_involutive.
  apply bool_decide_eq_true. exists (rev added). reflexivity.
Qed.

(** ** The file system *)

Lemma fill_done d key c t t' :
  Fs.fill d key c t = Fs.Done t' ->
  t' = <[key := Fs.File (Fs.utf8 d c)]> t /\ Fs.fault d key c = None.
Proof.
  unfold Fs.fill. destruct (Fs.fault d key c) as [[message remains] |]; [discriminate |].
  intros [= <-]. auto.
Qed.

(** A write that is done has put the data, as UTF-8 keeps it, into a file
    that is not the root. *)
Lemma writeFile_done d cwd p data t t' :
  Fs.writeFile d cwd p data t = Fs.Done t' ->
  exists c,
    data = Some c
    /\ t' = <[Fs.locate cwd p := Fs.File (Fs.utf8 d c)]> t
    /\ Fs.locate cwd p <> []
    /\ NodePath.ends_with_sep p = false.
Proof.
  unfold Fs.writeFile. destruct data as [c |]; [| discriminate].
  intros H. exists c. split; [reflexivity |].
  assert (Fs.locate cwd p <> []) as Hkey.
  { intros E. rewrite E in H. simpl in H. discriminate H. }
  destruct (Fs.node_at t (Fs.locate cwd p)) as [[content |] |]; [| discriminate |].
  - destruct (NodePath.ends_with_sep p); [discriminate |].
    apply fill_done in H as [-> _]. auto.
  - destruct (Fs.node_at t (Fs.parent (Fs.locate cwd p))) as [[content |] |];
      try discriminate.
    destruct (NodePath.ends_with_sep p); [discriminate |].
    apply fill_done in H as [-> _]. auto.
Qed.


Lemma readFile_written cwd p c t :
  Fs.locate cwd p <> [] ->
  NodePath.ends_with_sep p = false ->
  Fs.readFile cwd p (<[Fs.locate cwd p := Fs.File c]> t) = inl c.
Proof.
  intros Hkey Hend. unfold Fs.readFile, Fs.node_at.
  destruct (Fs.locate cwd p) as [| seg key] eqn:E; [congruence |].
  rewrite lookup_insert_eq, Hend. reflexivity.
Qed.

(** ** The tools, one by one *)

Section ToolProperties.

Context (env : Env).

(** The ways of [create_file]: it succeeds when the path and the content
    are there, the directory can be made, the file can be written and the
    broker accepts the announcement; in every other case it fails and has
    announced nothing. *)
Lemma create_file_cases input ctx w r w' :
  executeTool env "create_file" input ctx w = (Returned r, w') ->
  let projectId := TaskContext.projectId ctx in
  let root := NodePath.join2 (WORKSPACE_ROOT env) projectId in
  (exists p c t1 t2,
      Input.path input = Some p
      /\ Input.content input = Some c
      /\ Fs.mkdir (cwd env) (NodePath.dirname (NodePath.join2 root p)) (tree w) = inl t1
      /\ Fs.writeFile (disk env) (cwd env) (NodePath.join2 root p) (Some c) t1 = Fs.Done t2
      /\ broker_up env (ticks w) = true
      /\ w' = tick (note_delivered ("files:" +:+ projectId, FileChange "create" p c)
                      (with_tree t2 w))
      /\ r = ToolResult.ok (ToolResult.Written ("Created file: " +:+ p) p))
  \/ (ToolResult.success r = false
      /\ delivered w' = delivered w /\ stored w' = stored w /\ emitted w' = emitted w).
Proof.
  unfold executeTool.
  change (String.eqb "create_file" "create_file") with true.
  cbv iota. unfold try_catch, bind.
  destruct (Input.path input) as [p |]; simpl path_join;
    [| intros [= <- <-]; right; auto].
  unfold ret at 1. unfold fs_mkdir.
  destruct (Fs.mkdir (cwd env) _ (tree w)) as [t1 | e] eqn:Hmk;
    [| intros [= <- <-]; right; auto].
  unfold fs_writeFile. simpl tree.
  destruct (Fs.writeFile (disk env) (cwd env) _ (Input.content input) t1)
    as [t2 | e | e t2] eqn:Hwr;
    [| intros [= <- <-]; right; auto | intros [= <- <-]; right; auto].
  destruct (writeFile_done _ _ _ _ _ _ Hwr) as (c & Hc & _).
  unfold publish. simpl ticks.
  destruct (broker_up env (ticks w)) eqn:Hup; simpl;
    [| intros [= <- <-]; right; auto].
  intros [= <- <-]. left. exists p, c, t1, t2.
  rewrite Hc in Hwr |- *. simpl. auto 10.
Qed.

(** The ways of [edit_file]. *)
Lemma edit_file_cases input ctx w r w' :
  executeTool env "edit_file" input ctx w = (Returned r, w') ->
  let projectId := TaskContext.projectId ctx in
  let root := NodePath.join2 (WORKSPACE_ROOT env) projectId in
  let old := Js.str (Input.old_content input) in
  let new := Js.str (Input.new_content input) in
  (exists p before t2,
      Input.path input = Some p
      /\ Fs.readFile (cwd env) (NodePath.join2 root p) (tree w) = inl before
      /\ Js.includes before old = true
      /\ Fs.writeFile (disk env) (cwd env) (NodePath.join2 root p)
           (Some (Js.replace before old new)) (tree w) = Fs.Done t2
      /\ broker_up env (ticks w) = true
      /\ w' = tick (note_delivered
                      ("files:" +:+ projectId,
                       FileChange "edit" p (Js.replace before old new))
                      (with_tree t2 w))
      /\ r = ToolResult.ok (ToolResult.Written ("Edited file: " +:+ p) p))
  \/ (ToolResult.success r = false
      /\ delivered w' = delivered w /\ stored w' = stored w /\ emitted w' = emitted w).
Proof.
  unfold executeTool.
  change (String.eqb "edit_file" "create_file") with false.
  change (String.eqb "edit_file" "edit_file") with true.
  cbv iota. unfold try_catch, bind.
  destruct (Input.path input) as [p |]; simpl path_join;
    [| intros [= <- <-]; right; auto].
  unfold ret at 1. unfold fs_readFile.
  destruct (Fs.readFile (cwd env) _ (tree w)) as [before | e] eqn:Hrd; simpl lift_fs;
    cbv iota beta; [| intros [= <- <-]; right; auto].
  destruct (Js.includes before (Js.str (Input.old_content input))) eqn:Hinc; cbn [negb];
    cbv beta iota; [| intros [= <- <-]; right; auto].
  unfold fs_writeFile.
  match goal with
  | |- context [Fs.writeFile ?d ?a ?b ?c ?t] =>
      destruct (Fs.writeFile d a b c t) as [t2 | e | e t2] eqn:Hwr
  end; [| intros [= <- <-]; right; auto | intros [= <- <-]; right; auto].
  unfold publish. simpl ticks.
  destruct (broker_up env (ticks w)) eqn:Hup; simpl;
    [| intros [= <- <-]; right; auto].
  intros [= <- <-]. left. exists p, before, t2. auto 10.
Qed.

(** X1. Whatever the tool name, the input and the state, [executeTool]
    returns a result: every exception of a tool is turned into a failed
    result.  It writes no terminal record and emits no progress event. *)
Theorem executeTool_always_returns toolName input ctx w :
  exists r w',
    executeTool env toolName input ctx w = (Returned r, w')
    /\ stored w' = stored w
    /\ emitted w' = emitted w
    /\ (ToolResult.success r = false -> exists message, ToolResult.error r = Some message).
Proof.
  destruct (triple_returns _ _ w (executeTool_silent env toolName input ctx))
    as (r & w' & Hrun & [Hs He] & Hr).
  exists r, w'. auto.
Qed.

(** X2. A tool name that is not in the catalogue [TOOLS] is answered with
    the failed result "Unknown tool: <name>", and nothing changes. *)
Theorem unknown_tool_is_refused toolName input ctx w :
  ~ In toolName (map Tool.name TOOLS) ->
  executeTool env toolName input ctx w
  = (Returned (ToolResult.failure ("Unknown tool: " +:+ toolName)), w).
Proof.
  intros Hnot. unfold executeTool, try_catch.
  repeat match goal with
         | |- context [String.eqb toolName ?n] =>
             destruct (String.eqb_spec toolName n) as [-> | _];
             [exfalso; apply Hnot; simpl; tauto |]
         end.
  reflexivity.
Qed.

(** X7. The file that a file tool works on lies inside the project root
    whenever the path given by the model has no [".."] segment; a path that
    starts with a slash is taken relative to the project root as well. *)
Theorem target_inside_project_root projectId rel :
  ~ In ".." (Js.split NodePath.sep rel) ->
  inside
    (Fs.locate (cwd env) (NodePath.join2 (WORKSPACE_ROOT env) projectId))
    (Fs.locate (cwd env)
       (NodePath.join2 (NodePath.join2 (WORKSPACE_ROOT env) projectId) rel))
  = true.
Proof. apply join2_inside, join2_not_empty. Qed.


(** What [read_file] returns for a file that was just written. *)
Lemma read_back input ctx p text t w :
  Input.path input = Some p ->
  Fs.locate (cwd env)
    (NodePath.join2 (NodePath.join2 (WORKSPACE_ROOT env) (TaskContext.projectId ctx)) p)
  <> [] ->
  NodePath.ends_with_sep
    (NodePath.join2 (NodePath.join2 (WORKSPACE_ROOT env) (TaskContext.projectId ctx)) p)
  = false ->
  tree w
  = <[Fs.locate (cwd env)
        (NodePath.join2
           (NodePath.join2 (WORKSPACE_ROOT env) (TaskContext.projectId ctx)) p)
      := Fs.File text]> t ->
  executeTool env "read_file" input ctx w
  = (Returned (ToolResult.ok (ToolResult.Contents text p (Js.line_count text))), w).
Proof.
  intros Hp Hkey Hend Ht. unfold executeTool.
  change (String.eqb "read_file" "create_file") with false.
  change (String.eqb "read_file" "edit_file") with false.
  change (String.eqb "read_file" "read_file") with true.
  cbv iota. unfold try_catch, bind. rewrite Hp. simpl path_join. unfold ret at 1.
  unfold fs_readFile. rewrite Ht.
  rewrite (readFile_written _ _ _ _ Hkey Hend). reflexivity.
Qed.


(** X4. After a successful [edit_file] the file holds the old content with
    [replace] applied to it, as UTF-8 keeps it, and [read_file] returns just
    that; the announcement on the file channel carries the whole new
    content, as [replace] made it. *)
Theorem edit_then_read input ctx w r w' :
  executeTool env "edit_file" input ctx w = (Returned r, w') ->
  ToolResult.success r = true ->
  exists p before,
    Input.path input = Some p
    /\ Fs.readFile (cwd env)
         (NodePath.join2 (NodePath.join2 (WORKSPACE_ROOT env) (TaskContext.projectId ctx)) p)
         (tree w) = inl before
    /\ Js.includes before (Js.str (Input.old_content input)) = true
    /\ let after :=
         Js.replace before (Js.str (Input.old_content input))
           (Js.str (Input.new_content input)) in
       let text := Fs.utf8 (disk env) after in
       delivered w'
       = (delivered w
          ++ [("files:" +:+ TaskContext.projectId ctx, FileChange "edit" p after)])%list
       /\ executeTool env "read_file" input ctx w'
          = (Returned (ToolResult.ok (ToolResult.Contents text p (Js.line_count text))),
             w').
Proof.
  intros Hrun Hok.
  destruct (edit_file_cases _ _ _ _ _ Hrun)
    as [(p & before & t2 & Hp & Hrd & Hinc & Hwr & _ & -> & ->) | (Hfail & _)];
    [| congruence].
  exists p, before. repeat split; try assumption.
  destruct (writeFile_done _ _ _ _ _ _ Hwr) as (c' & [= <-] & -> & Hkey & Hend).
  eapply read_back; [exact Hp | exact Hkey | exact Hend | reflexivity].
Qed.


#[local] Instance mute_refl : Reflexive mute.
Proof. intros w. reflexivity. Qed.

#[local] Instance mute_trans : Transitive mute.
Proof. intros w1 w2 w3 H1 H2. unfold mute in *. congruence. Qed.

Lemma unchanged_mute {A} throws (Q : A -> Prop) (m : M A) :
  triple unchanged throws Q m -> triple mute throws Q m.
Proof. apply triple_frame. intros w w' ->. reflexivity. Qed.

Lemma execAsync_mute command dir :
  triple mute true (fun _ => True) (execAsync env command dir).
Proof.
  intros w. unfold execAsync.
  destruct command as [c |]; [| simpl; repeat split].
  destruct (Exec.failed (shell env c dir (tree w))); simpl; repeat split.
Qed.

(** A tool other than [create_file] and [edit_file] announces nothing. *)
Lemma executeTool_mute toolName input ctx :
  toolName <> "create_file" ->
  toolName <> "edit_file" ->
  triple mute false (fun _ => True) (executeTool env toolName input ctx).
Proof.
  intros Hc He. unfold executeTool.
  apply String.eqb_neq in Hc, He. rewrite Hc, He.
  apply triple_try_catch; [| intros e; apply triple_ret; exact Logic.I].
  repeat first
    [ apply triple_ret; exact Logic.I
    | eapply triple_bind;
      [ first [ apply unchanged_mute;
                first [ apply path_join_unchanged
                      | apply fs_readFile_unchanged
                      | apply fs_readdir_unchanged ]
              | apply execAsync_mute ]
      | intros ? _ ]
    | match goal with
      | |- triple _ _ _ (if ?b then _ else _) => destruct b
      end ].
Qed.


End ToolProperties.

(** ** Lines and replacements *)

Lemma length_split c s : List.length (Js.split c s) = S (occurrences c s).
Proof.
  induction s as [| a s IH]; [reflexivity |].
  rewrite split_cons. simpl occurrences.
  destruct (Ascii.eqb a c).
  - simpl. rewrite IH. reflexivity.
  - destruct (Js.split c s) as [| seg rest] eqn:E;
      [exfalso; exact (split_nonempty c s E) |].
    simpl in *. exact IH.
Qed.

(** X6. The [lines] that [read_file] reports are one more than the newline
    characters of the content: an empty file has one line, and a file that
    ends with a newline has one line more than it has newlines. *)
Theorem read_file_counts_lines env input ctx w r w' :
  executeTool env "read_file" input ctx w = (Returned r, w') ->
  ToolResult.success r = true ->
  exists p content,
    Input.path input = Some p
    /\ Fs.readFile (cwd env)
         (NodePath.join2 (NodePath.join2 (WORKSPACE_ROOT env) (TaskContext.projectId ctx)) p)
         (tree w) = inl content
    /\ r = ToolResult.ok
             (ToolResult.Contents content p (S (occurrences "010"%char content)))
    /\ w' = w.
Proof.
  unfold executeTool.
  change (String.eqb "read_file" "create_file") with false.
  change (String.eqb "read_file" "edit_file") with false.
  change (String.eqb "read_file" "read_file") with true.
  cbv iota. unfold try_catch, bind.
  destruct (Input.path input) as [p |]; simpl path_join;
    [| intros [= <- <-]; discriminate].
  unfold ret at 1. unfold fs_readFile.
  destruct (Fs.readFile (cwd env) _ (tree w)) as [content | e] eqn:Hrd; simpl lift_fs;
    cbv iota beta; [| intros [= <- <-]; discriminate].
  intros [= <- <-] _. exists p, content.
  unfold Js.line_count. rewrite length_split. auto.
Qed.

Lemma length_append a b : String.length (a +:+ b) = String.length a + String.length b.
Proof.
  induction a as [| x a IH]; [reflexivity |].
  rewrite append_cons. simpl. rewrite IH. reflexivity.
Qed.

Lemma substring_whole s : String.substring 0 (String.length s) s = s.
Proof. induction s as [| a s IH]; [reflexivity |]. simpl. rewrite IH. reflexivity. Qed.

Lemma substring_none s : String.substring 0 0 s = "".
Proof. destruct s; reflexivity. Qed.

Lemma substring_past a n b :
  String.substring (String.length a) n (a +:+ b) = String.substring 0 n b.
Proof. induction a as [| x a IH]; [reflexivity |]. rewrite append_cons. exact IH. Qed.

Lemma substring_next n m c s :
  String.substring (S n) m (String c s) = String.substring n m s.
Proof. reflexivity. Qed.

Lemma substring_start m c s :
  String.substring 0 (S m) (String c s) = String c (String.substring 0 m s).
Proof. reflexivity. Qed.

Lemma index_start pat b s :
  String.index 0 pat (String b s)
  = if String.prefix pat (String b s) then Some 0
    else match String.index 0 pat s with Some n => Some (S n) | None => None end.
Proof. reflexivity. Qed.

(** The first occurrence found by [indexOf] cuts the string in three. *)
Lemma index_splits pat s i :
  String.index 0 pat s = Some i ->
  String.length (String.substring 0 i s) = i
  /\ s = String.substring 0 i s +:+ pat
         +:+ String.substring (i + String.length pat)
               (String.length s - (i + String.length pat)) s.
Proof.
  revert i. induction s as [| b s IH]; intros i H.
  - simpl in H. destruct pat; [| discriminate H]. injection H as <-. split; reflexivity.
  - rewrite index_start in H.
    destruct (String.prefix pat (String b s)) eqn:Hpre.
    + injection H as <-. split; [reflexivity |].
      apply prefix_spec in Hpre as [post Hpost].
      rewrite Hpost, length_append.
      replace (String.length pat + String.length post - (0 + String.length pat))
        with (String.length post) by lia.
      change (0 + String.length pat) with (String.length pat).
      rewrite substring_past, substring_whole, substring_none. reflexivity.
    + destruct (String.index 0 pat s) as [i' |]; [| discriminate H].
      injection H as <-. destruct (IH i' eq_refl) as [Hlen Hs].
      split.
      * rewrite substring_start. simpl. rewrite Hlen. reflexivity.
      * rewrite substring_start, append_cons.
        change (S i' + String.length pat) with (S (i' + String.length pat)).
        rewrite substring_next.
        change (String.length (String b s) - S (i' + String.length pat))
          with (String.length s - (i' + String.length pat)).
        rewrite <- Hs. reflexivity.
Qed.

Lemma substitution_plain before matched after repl :
  occurrences "$"%char repl = 0 ->
  Js.substitution before matched after repl = repl.
Proof.
  induction repl as [| a repl IH]; [reflexivity |].
  simpl occurrences. destruct (Ascii.eqb_spec a "$"%char) as [-> | Hne]; [discriminate |].
  intros H. simpl in H.
  assert (Js.substitution before matched after (String a repl)
          = String a (Js.substitution before matched after repl)) as E.
  { destruct a as [[] [] [] [] [] [] [] []]; try reflexivity. exfalso. apply Hne. reflexivity. }
  rewrite E, (IH H). reflexivity.
Qed.

(** X8. The replacement that [edit_file] makes: when the old content occurs
    in the text, [replace] cuts the text at its first occurrence, and a new
    content without a dollar sign is put in its place as it is; the rest
    of the text, later occurrences included, stays.  A dollar sign is not
    taken as it is: the new content ["$&"] puts the old content back. *)
Theorem replace_splices_first_occurrence s pat repl :
  Js.includes s pat = true ->
  exists i before after,
    String.length before = i
    /\ s = before +:+ pat +:+ after
    /\ (forall j, j < i -> String.substring j (String.length pat) s <> pat)
    /\ (occurrences "$"%char repl = 0 -> Js.replace s pat repl = before +:+ repl +:+ after)
    /\ Js.replace s pat "$&" = s.
Proof.
  unfold Js.includes, Js.replace.
  destruct (String.index 0 pat s) as [i |] eqn:Hi; [intros _ | discriminate].
  destruct (index_splits _ _ _ Hi) as [Hlen Hs].
  exists i, (String.substring 0 i s),
    (String.substring (i + String.length pat)
       (String.length s - (i + String.length pat)) s).
  split; [exact Hlen |]. split; [exact Hs |]. split; [| split].
  - intros j Hj. apply (String.index_correct2 0 i pat s Hi j); lia.
  - intros Hplain. rewrite (substitution_plain _ _ _ _ Hplain). reflexivity.
  - change (Js.substitution ?b pat ?a "$&") with (pat +:+ "").
    rewrite append_empty_r. symmetry. exact Hs.
Qed.

(** ** The events of a task *)

Section Events.

Context (env : Env).

#[local] Instance only_refl P : Reflexive (only P).
Proof.
  intros w. split; [reflexivity |]. exists []. split; [| reflexivity].
  symmetry. apply app_nil_r.
Qed.

#[local] Instance only_trans P : Transitive (only P).
Proof.
  intros w1 w2 w3 [Hs1 (l1 & He1 & H1)] [Hs2 (l2 & He2 & H2)].
  split; [congruence |]. exists (l1 ++ l2)%list. split.
  - rewrite He2, He1. symmetry. apply app_assoc.
  - rewrite forallb_app, H1, H2. reflexivity.
Qed.

Lemma silent_only P w w' : silent w w' -> only P w w'.
Proof.
  intros [Hs He]. split; [exact Hs |]. exists []. split; [| reflexivity].
  rewrite He. symmetry. apply app_nil_r.
Qed.

Lemma publishProgress_only (P : string * ProgressEvent -> bool) taskId event :
  P (taskId, event) = true ->
  triple (only P) false (fun _ => True) (publishProgress env taskId event).
Proof.
  intros HP w. destruct (publishProgress_spec env taskId event w) as (w' & -> & _ & Hs & He).
  split; [| exact Logic.I]. split; [exact Hs |].
  exists [(taskId, event)]. split; [exact He |]. simpl. rewrite HP. reflexivity.
Qed.

Lemma on_event_only taskId event st :
  triple (only from_stream) false (fun _ => True) (on_event env taskId event st).
Proof.
  destruct event as [[| use | ty] | [chunk | ty] | [[| use | ty] |] | | ty]; simpl;
    try (apply triple_ret; exact Logic.I);
    (eapply triple_bind;
     [apply publishProgress_only; reflexivity
     | intros ? _; apply triple_ret; exact Logic.I]).
Qed.

Lemma process_stream_only taskId events broken st :
  triple (only from_stream) true (fun _ => True)
    (process_stream env taskId events broken st).
Proof.
  revert st. induction events as [| event rest IH]; intros st; simpl.
  - destruct broken; [apply triple_throw | apply triple_ret; exact Logic.I].
  - eapply triple_bind.
    + eapply triple_allow. apply on_event_only.
    + intros st' _. destruct (is_message_stop event);
        [apply triple_ret; exact Logic.I | apply IH].
Qed.

(** What [receive] emits, whether it returns or throws: the start of the
    iteration, then events of the stream. *)
Lemma receive_events ctx st w :
  match receive env ctx st w with
  | (OutOfFuel, _) => False
  | (_, w') =>
      stored w' = stored w
      /\ exists l,
           emitted w'
           = (emitted w
              ++ (TaskContext.taskId ctx,
                  iteration_start (S (LoopState.iterations st))
                    ("Iteration " +:+ decimal (S (LoopState.iterations st)) +:+ "/"
                     +:+ decimal maxIterations))
              :: l)%list
           /\ forallb from_stream l = true
  end.
Proof.
  unfold receive, bind at 1.
  destruct (publishProgress_spec env (TaskContext.taskId ctx)
              (iteration_start (S (LoopState.iterations st))
                 ("Iteration " +:+ decimal (S (LoopState.iterations st)) +:+ "/"
                  +:+ decimal maxIterations)) w) as (w1 & -> & _ & Hs1 & He1).
  unfold bind, create_stream.
  destruct (provider env (LoopState.messages st)) as [e | events broken]; simpl.
  - split; [exact Hs1 |]. exists []. split; [exact He1 | reflexivity].
  - pose proof (process_stream_only (TaskContext.taskId ctx) events broken
                  StreamState.initial w1) as H.
    destruct (process_stream env (TaskContext.taskId ctx) events broken
                StreamState.initial w1) as [[s | e |] w2].
    + destruct H as [[Hs2 (l & He2 & Hl)] _]. split; [congruence |].
      exists l. split; [| exact Hl]. rewrite He2, He1, <- app_assoc. reflexivity.
    + destruct H as [_ [Hs2 (l & He2 & Hl)]]. split; [congruence |].
      exists l. split; [| exact Hl]. rewrite He2, He1, <- app_assoc. reflexivity.
    + exact H.
Qed.

Lemma executeTool_returns toolName input ctx w :
  exists r w',
    executeTool env toolName input ctx w = (Returned r, w')
    /\ stored w' = stored w
    /\ emitted w' = emitted w
    /\ (toolName = "task_complete" -> ToolResult.success r = true).
Proof.
  destruct (triple_returns _ _ w (executeTool_silent env toolName input ctx))
    as (r & w' & Hrun & [Hs He] & _).
  exists r, w'. repeat split; try assumption.
  intros ->. rewrite executeTool_task_complete in Hrun. injection Hrun as <- _. reflexivity.
Qed.

(** The tool loop, in full: one result per tool use, in order and under
    the identifier of the use; for each use the events [tool_executing] and
    [tool_result], and [task_completed] after a completion tool. *)
Lemma run_tools_events ctx toolUses toolResults completed w :
  exists added w',
    run_tools env ctx toolUses toolResults completed w
    = (Returned ((toolResults ++ added)%list, completed || has_complete toolUses), w')
    /\ map ToolResultBlock.tool_use_id added = map ToolUse.id toolUses
    /\ stored w' = stored w
    /\ emitted w'
       = (emitted w
          ++ flat_map (tool_events (TaskContext.taskId ctx)) (zip toolUses added))%list
    /\ existsb is_completed
         (flat_map (tool_events (TaskContext.taskId ctx)) (zip toolUses added))
       = has_complete toolUses.
Proof.
  revert toolResults completed w.
  induction toolUses as [| use rest IH]; intros toolResults completed w.
  - exists [], w. simpl. rewrite !app_nil_r, orb_false_r. auto.
  - simpl run_tools. unfold bind at 1.
    destruct (publishProgress_spec env (TaskContext.taskId ctx)
                (tool_executing (ToolUse.name use) (ToolUse.input use)) w)
      as (w1 & -> & _ & Hs1 & He1).
    unfold bind at 1.
    destruct (executeTool_returns (ToolUse.name use) (ToolUse.input use) ctx w1)
      as (r & w2 & -> & Hs2 & He2 & Hok).
    unfold bind at 1.
    destruct (publishProgress_spec env (TaskContext.taskId ctx)
                (tool_result (ToolUse.name use) r) w2)
      as (w3 & -> & _ & Hs3 & He3).
    cbv zeta.
    destruct (String.eqb_spec (ToolUse.name use) "task_complete") as [Hname | Hname].
    + pose proof (proj2 (String.eqb_eq _ _) Hname) as Hb.
      rewrite (Hok Hname). cbn [andb]. cbv beta iota. unfold bind at 1.
      destruct (publishProgress_spec env (TaskContext.taskId ctx)
                  (task_completed (Input.summary (ToolUse.input use))
                     (Input.files_modified (ToolUse.input use)) None) w3)
        as (w4 & -> & _ & Hs4 & He4).
      destruct (IH (toolResults ++ [ToolResultBlock.mk (ToolUse.id use) r])%list true w4)
        as (added & w5 & -> & Hids & Hs5 & He5 & Hc5).
      exists (ToolResultBlock.mk (ToolUse.id use) r :: added), w5.
      split; [| split; [| split; [| split]]].
      * rewrite <- app_assoc. simpl. f_equal. f_equal.
        unfold has_complete. simpl. rewrite Hb.
        rewrite orb_true_r. reflexivity.
      * simpl. rewrite Hids. reflexivity.
      * congruence.
      * rewrite He5, He4, He3, He2, He1. simpl. unfold tool_events at 2. simpl.
        rewrite Hb, (Hok Hname).
        simpl. rewrite <- !app_assoc. reflexivity.
      * simpl. unfold tool_events at 1. simpl.
        rewrite Hb, (Hok Hname).
        reflexivity.
    + cbn [andb]. cbv beta iota.
      destruct (IH (toolResults ++ [ToolResultBlock.mk (ToolUse.id use) r])%list completed w3)
        as (added & w5 & -> & Hids & Hs5 & He5 & Hc5).
      exists (ToolResultBlock.mk (ToolUse.id use) r :: added), w5.
      apply String.eqb_neq in Hname.
      split; [| split; [| split; [| split]]].
      * rewrite <- app_assoc. simpl. f_equal. f_equal.
        unfold has_complete. simpl. rewrite Hname. reflexivity.
      * simpl. rewrite Hids. reflexivity.
      * congruence.
      * rewrite He5, He3, He2, He1. simpl. unfold tool_events at 2. simpl.
        rewrite Hname. simpl. rewrite <- !app_assoc. reflexivity.
      * simpl. unfold tool_events at 1. simpl. rewrite Hname. simpl.
        unfold has_complete in *. cbn [existsb]. rewrite ?Hname. exact Hc5.
Qed.

Lemma from_stream_inner l : forallb from_stream l = true -> forallb inner l = true.
Proof.
  induction l as [| e l IH]; [reflexivity |]. simpl.
  intros [He Hl]%andb_prop. unfold inner at 1. rewrite He, (IH Hl). reflexivity.
Qed.

Lemma from_stream_not_completed l :
  forallb from_stream l = true -> existsb is_completed l = false.
Proof.
  induction l as [| [id e] l IH]; [reflexivity |]. simpl.
  intros [He Hl]%andb_prop. rewrite (IH Hl).
  destruct e; try discriminate He; reflexivity.
Qed.

Lemma tool_events_inner taskId pairs :
  forallb inner (flat_map (tool_events taskId) pairs) = true.
Proof.
  induction pairs as [| [use block] pairs IH]; [reflexivity |].
  cbn [flat_map]. rewrite forallb_app, IH, andb_true_r.
  unfold tool_events. cbn [fst snd].
  destruct (_ && _); reflexivity.
Qed.

Lemma inner_in_loop l : forallb inner l = true -> forallb in_loop l = true.
Proof.
  induction l as [| [id e] l IH]; [reflexivity |]. simpl.
  intros [He Hl]%andb_prop. rewrite (IH Hl).
  destruct e; try discriminate He; reflexivity.
Qed.

Lemma inner_no_start l :
  forallb inner l = true -> List.filter is_iteration_start l = [].
Proof.
  induction l as [| [id e] l IH]; [reflexivity |]. simpl.
  intros [He Hl]%andb_prop. rewrite (IH Hl).
  destruct e; try discriminate He; reflexivity.
Qed.

(** One turn of the loop, in full. *)
Lemma iteration_events ctx st w :
  match iteration env ctx st w with
  | (OutOfFuel, _) => False
  | (Returned st', w') =>
      stored w' = stored w
      /\ LoopState.iterations st' = S (LoopState.iterations st)
      /\ (exists extra,
            LoopState.messages st' = (LoopState.messages st ++ extra)%list
            /\ 1 <= length extra <= 2)
      /\ exists l,
           emitted w'
           = (emitted w
              ++ (TaskContext.taskId ctx,
                  iteration_start (S (LoopState.iterations st))
                    (iteration_message (S (LoopState.iterations st))))
              :: l)%list
           /\ forallb inner l = true
           /\ LoopState.completed st' = LoopState.completed st || existsb is_completed l
  | (Threw _, w') =>
      stored w' = stored w
      /\ exists l,
           emitted w'
           = (emitted w
              ++ (TaskContext.taskId ctx,
                  iteration_start (S (LoopState.iterations st))
                    (iteration_message (S (LoopState.iterations st))))
              :: l)%list
           /\ forallb inner l = true
  end.
Proof.
  unfold iteration, bind at 1. pose proof (receive_events ctx st w) as H.
  destruct (receive env ctx st w) as [[s | e |] w1]; [| | exact H].
  - destruct H as (Hs1 & l1 & He1 & Hl1).
    destruct (StreamState.toolUses s) as [| use rest] eqn:Huses.
    + unfold bind.
      destruct (publishProgress_spec env (TaskContext.taskId ctx)
                  (task_completed None None
                     (Some "Agent completed thinking, no more actions needed")) w1)
        as (w2 & -> & _ & Hs2 & He2).
      cbn [LoopState.iterations LoopState.messages LoopState.completed].
      split; [congruence |]. split; [reflexivity |]. split.
      * eexists. split; [reflexivity |]. simpl. lia.
      * eexists. split; [rewrite He2, He1, <- app_assoc; reflexivity |].
        rewrite forallb_app, existsb_app, (from_stream_inner _ Hl1).
        split; [reflexivity |]. simpl. rewrite !orb_true_r. reflexivity.
    + unfold bind.
      destruct (run_tools_events ctx (use :: rest) [] (LoopState.completed st) w1)
        as (added & w2 & -> & _ & Hs2 & He2 & Hc2).
      cbn [LoopState.iterations LoopState.messages LoopState.completed fst snd].
      split; [congruence |]. split; [reflexivity |]. split.
      * eexists. split; [rewrite <- app_assoc; reflexivity |]. simpl. lia.
      * eexists. split; [rewrite He2, He1, <- app_assoc; reflexivity |].
        rewrite forallb_app, existsb_app, (from_stream_inner _ Hl1),
          (from_stream_not_completed _ Hl1), tool_events_inner, Hc2.
        split; reflexivity.
  - destruct H as (Hs1 & l1 & He1 & Hl1). split; [exact Hs1 |].
    exists l1. split; [exact He1 | apply from_stream_inner; exact Hl1].
Qed.

(** The loop, in full. *)
Lemma while_loop_events fuel ctx st w :
  maxIterations <= fuel + LoopState.iterations st ->
  match while_loop env fuel ctx st w with
  | (OutOfFuel, _) => False
  | (Returned st', w') =>
      stored w' = stored w
      /\ LoopState.iterations st <= LoopState.iterations st'
      /\ (LoopState.iterations st <= maxIterations ->
          LoopState.iterations st' <= maxIterations)
      /\ (LoopState.completed st' = true \/ maxIterations <= LoopState.iterations st')
      /\ (exists extra,
            LoopState.messages st' = (LoopState.messages st ++ extra)%list
            /\ LoopState.iterations st' - LoopState.iterations st <= length extra
            /\ length extra <= 2 * (LoopState.iterations st' - LoopState.iterations st))
      /\ exists l,
           emitted w' = (emitted w ++ l)%list
           /\ forallb in_loop l = true
           /\ List.filter is_iteration_start l
              = iteration_starts (TaskContext.taskId ctx) (S (LoopState.iterations st))
                  (LoopState.iterations st' - LoopState.iterations st)
           /\ LoopState.completed st' = LoopState.completed st || existsb is_completed l
  | (Threw _, w') =>
      stored w' = stored w
      /\ exists l, emitted w' = (emitted w ++ l)%list /\ forallb in_loop l = true
  end.
Proof.
  revert st w. induction fuel as [| fuel IH]; intros st w Hfuel; rewrite while_loop_eq.
  - destruct (negb (LoopState.completed st)
              && (LoopState.iterations st <? maxIterations)%nat) eqn:Hcond.
    + apply andb_prop in Hcond as [_ Hlt]. apply Nat.ltb_lt in Hlt. simpl in Hfuel. lia.
    + unfold ret. split; [reflexivity |]. split; [lia |]. split; [auto |]. split.
      { apply andb_false_iff in Hcond as [Hc | Hn].
        - left. destruct (LoopState.completed st); [reflexivity | discriminate Hc].
        - right. apply Nat.ltb_ge in Hn. exact Hn. }
      split.
      { exists []. rewrite app_nil_r. split; [reflexivity |]. simpl. lia. }
      exists []. rewrite app_nil_r, Nat.sub_diag, orb_false_r. repeat split.
  - destruct (negb (LoopState.completed st)
              && (LoopState.iterations st <? maxIterations)%nat) eqn:Hcond.
    + apply andb_prop in Hcond as [Hc Hlt]. apply Nat.ltb_lt in Hlt.
      apply negb_true_iff in Hc.
      unfold bind. pose proof (iteration_events ctx st w) as Hstep.
      destruct (iteration env ctx st w) as [[st1 | e |] w1]; [| | exact Hstep].
      * destruct Hstep as (Hs1 & Hn1 & (extra1 & Hm1 & Hx1) & l1 & He1 & Hl1 & Hc1).
        assert (maxIterations <= fuel + LoopState.iterations st1) as Hfuel1 by lia.
        specialize (IH st1 w1 Hfuel1).
        destruct (while_loop env fuel ctx st1 w1) as [[st2 | e |] w2]; [| | exact IH].
        -- destruct IH as (Hs2 & Hn2 & Hcap2 & Hend2 & (extra2 & Hm2 & Hx2 & Hy2)
                           & l2 & He2 & Hl2 & Hf2 & Hc2).
           split; [congruence |]. split; [lia |]. split; [intros _; apply Hcap2; lia |].
           split; [exact Hend2 |]. split.
           { exists (extra1 ++ extra2)%list. split.
             - rewrite Hm2, Hm1, <- app_assoc. reflexivity.
             - rewrite length_app. lia. }
           eexists. split; [rewrite He2, He1, <- app_assoc; reflexivity |].
           split; [| split].
           ++ cbn [app forallb]. rewrite forallb_app, (inner_in_loop _ Hl1), Hl2.
              reflexivity.
           ++ cbn [app List.filter]. change (is_iteration_start _) with true at 1. cbv iota.
              rewrite List.filter_app, (inner_no_start _ Hl1), Hf2, Hn1.
              replace (LoopState.iterations st2 - LoopState.iterations st)
                with (S (LoopState.iterations st2 - S (LoopState.iterations st))) by lia.
              reflexivity.
           ++ rewrite Hc2, Hc1. cbn [app existsb].
              change (is_completed (_, iteration_start _ _)) with false.
              rewrite existsb_app.
              rewrite orb_false_l, orb_assoc. reflexivity.
        -- destruct IH as (Hs2 & l2 & He2 & Hl2). split; [congruence |].
           eexists. split; [rewrite He2, He1, <- app_assoc; reflexivity |].
           cbn [app forallb]. rewrite forallb_app, (inner_in_loop _ Hl1), Hl2. reflexivity.
      * destruct Hstep as (Hs1 & l1 & He1 & Hl1). split; [exact Hs1 |].
        eexists. split; [exact He1 |]. cbn [forallb]. rewrite (inner_in_loop _ Hl1).
        reflexivity.
    + unfold ret. split; [reflexivity |]. split; [lia |]. split; [auto |]. split.
      { apply andb_false_iff in Hcond as [Hc | Hn].
        - left. destruct (LoopState.completed st); [reflexivity | discriminate Hc].
        - right. apply Nat.ltb_ge in Hn. exact Hn. }
      split.
      { exists []. rewrite app_nil_r. split; [reflexivity |]. simpl. lia. }
      exists []. rewrite app_nil_r, Nat.sub_diag, orb_false_r. repeat split.
Qed.

(** The ending of the [try] block: nothing but the warning is emitted, and
    at most one record is stored, whatever the stores do. *)
Lemma finish_events taskId st w :
  match finish env taskId st w with
  | (OutOfFuel, _) => False
  | (_, w') =>
      emitted w'
      = (emitted w
         ++ if (maxIterations <=? LoopState.iterations st)%nat
            then [(taskId, task_warning "Reached maximum iterations limit")]
            else [])%list
  end.
Proof.
  unfold finish.
  assert (exists w1,
             (if (maxIterations <=? LoopState.iterations st)%nat
              then publishProgress env taskId
                     (task_warning "Reached maximum iterations limit")
              else ret tt) w = (Returned tt, w1)
             /\ emitted w1
                = (emitted w
                   ++ if (maxIterations <=? LoopState.iterations st)%nat
                      then [(taskId, task_warning "Reached maximum iterations limit")]
                      else [])%list) as (w1 & Hw1 & He1).
  { destruct (maxIterations <=? LoopState.iterations st)%nat.
    - destruct (publishProgress_spec env taskId
                  (task_warning "Reached maximum iterations limit") w)
        as (w1 & H & _ & Hs & He).
      exists w1. auto.
    - exists w. rewrite app_nil_r. auto. }
  unfold bind at 1. rewrite Hw1.
  unfold bind, date_now, set_result, publish. simpl.
  destruct (store_up env (ticks w1)); simpl; [| exact He1].
  destruct (broker_up env (S (ticks w1))); simpl; exact He1.
Qed.

(** The [catch] block: the error event is emitted, whatever the stores do. *)
Lemma on_error_events taskId message w :
  match on_error env taskId message w with
  | (OutOfFuel, _) => False
  | (_, w') => emitted w' = (emitted w ++ [(taskId, task_error message)])%list
  end.
Proof.
  unfold on_error, bind at 1.
  destruct (publishProgress_spec env taskId (task_error message) w)
    as (w1 & -> & _ & Hs1 & He1).
  unfold bind, date_now, set_result. simpl.
  destruct (store_up env (ticks w1)); simpl; exact He1.
Qed.

(** [processTask] up to its [try] block. *)
Lemma processTask_start task w :
  workspace_ready env task w ->
  exists w1,
    emitted w1
    = (emitted w
       ++ [(Task.taskId task,
            task_started (AGENT_TYPE env) "Starting task processing...")])%list
    /\ stored w1 = stored w
    /\ processTask env task w
       = try_catch
           (bind (while_loop env maxIterations (context_of task) (initial_state task))
              (finish env (Task.taskId task)))
           (on_error env (Task.taskId task)) w1.
Proof.
  intros Hready. unfold workspace_ready in Hready.
  destruct (Fs.mkdir (cwd env)
              (NodePath.join2 (WORKSPACE_ROOT env) (Task.projectId task)) (tree w))
    as [t | e] eqn:Ht; [clear Hready | discriminate Hready].
  unfold processTask.
  unfold bind at 1. unfold fs_mkdir at 1. rewrite Ht.
  unfold bind at 1.
  destruct (publishProgress_spec env (Task.taskId task)
              (task_started (AGENT_TYPE env) "Starting task processing...")
              (with_tree t w)) as (w1 & -> & _ & Hs1 & He1).
  exists w1. auto.
Qed.

(** A run of [processTask] with a reliable broker and store, in full. *)
Lemma processTask_trace task w :
  reliable env ->
  workspace_ready env task w ->
  exists w' l timestamp,
    processTask env task w = (Returned tt, w')
    /\ forallb in_loop l = true
    /\ ((exists st,
            LoopState.iterations st <= maxIterations
            /\ (LoopState.completed st = true \/ maxIterations <= LoopState.iterations st)
            /\ List.filter is_iteration_start l
               = iteration_starts (Task.taskId task) 1 (LoopState.iterations st)
            /\ LoopState.completed st = existsb is_completed l
            /\ emitted w'
               = (emitted w
                  ++ (Task.taskId task,
                      task_started (AGENT_TYPE env) "Starting task processing...")
                  :: l
                  ++ if (maxIterations <=? LoopState.iterations st)%nat
                     then [(Task.taskId task,
                            task_warning "Reached maximum iterations limit")]
                     else [])%list
            /\ stored w'
               = (stored w
                  ++ [StoreWrite.mk ("result:" +:+ Task.taskId task)
                        (Result.mk (Task.taskId task) (AGENT_TYPE env)
                           (Some (LoopState.iterations st))
                           (Some (LoopState.completed st)) None timestamp)
                        3600])%list)
        \/ (exists message,
               emitted w'
               = (emitted w
                  ++ (Task.taskId task,
                      task_started (AGENT_TYPE env) "Starting task processing...")
                  :: l ++ [(Task.taskId task, task_error message)])%list
               /\ stored w'
                  = (stored w
                     ++ [StoreWrite.mk ("result:" +:+ Task.taskId task)
                           (Result.mk (Task.taskId task) (AGENT_TYPE env) None None
                              (Some message) timestamp)
                           3600])%list)).
Proof.
  intros Hrel Hready.
  destruct (processTask_start task w Hready) as (w1 & He1 & Hs1 & ->).
  unfold try_catch, bind.
  pose proof (while_loop_events maxIterations (context_of task) (initial_state task) w1
                ltac:(apply Nat.le_add_r)) as Hloop.
  destruct (while_loop env maxIterations (context_of task) (initial_state task) w1)
    as [[st | message |] w2].
  - destruct Hloop as (Hs2 & _ & Hcap & Hend & _ & l & He2 & Hl & Hf & Hc).
    destruct (finish_reliable env (Task.taskId task) st w2 Hrel)
      as (w3 & ts & -> & He3 & Hs3).
    exists w3, l, ts. split; [reflexivity |]. split; [exact Hl |]. left.
    exists st. split; [apply Hcap; simpl; lia |]. split; [exact Hend |].
    split; [rewrite Hf, Nat.sub_0_r; reflexivity |]. split; [exact Hc |]. split.
    + rewrite He3, He2, He1. rewrite <- !app_assoc. reflexivity.
    + rewrite Hs3, Hs2, Hs1. reflexivity.
  - destruct Hloop as (Hs2 & l & He2 & Hl).
    destruct (on_error_reliable env (Task.taskId task) message w2 Hrel)
      as (w3 & ts & -> & He3 & Hs3).
    exists w3, l, ts. split; [reflexivity |]. split; [exact Hl |]. right.
    exists message. split.
    + rewrite He3, He2, He1. rewrite <- !app_assoc. reflexivity.
    + rewrite Hs3, Hs2, Hs1. reflexivity.
  - contradiction.
Qed.

Lemma in_loop_not_error l : forallb in_loop l = true -> List.filter is_error l = [].
Proof.
  induction l as [| [id e] l IH]; [reflexivity |]. simpl.
  intros [He Hl]%andb_prop. rewrite (IH Hl).
  destruct e; try discriminate He; reflexivity.
Qed.


Lemma in_loop_closes l :
  forallb in_loop l = true ->
  existsb (fun e => Bridge.closes (snd e)) l = existsb is_completed l.
Proof.
  induction l as [| [id e] l IH]; [reflexivity |]. simpl.
  intros [He Hl]%andb_prop. rewrite (IH Hl).
  destruct e; try discriminate He; reflexivity.
Qed.

Lemma completed_is_terminal l : existsb is_completed l = true -> existsb is_terminal l = true.
Proof.
  induction l as [| e l IH]; [discriminate |]. simpl.
  intros [He | Hl]%orb_prop.
  - unfold is_terminal. rewrite He. reflexivity.
  - rewrite (IH Hl). apply orb_true_r.
Qed.

(** X9. The tool loop answers every tool use of a response, in order and
    under the identifier of the use, and it always returns.  For each use
    it emits [tool_executing] and then [tool_result], and [task_completed]
    after a completion tool; it stores nothing.  The batch is completed
    when it was before or when a completion tool is in it. *)
Theorem tools_answered_in_order ctx toolUses completed w :
  exists blocks w',
    run_tools env ctx toolUses [] completed w
    = (Returned (blocks, completed || has_complete toolUses), w')
    /\ map ToolResultBlock.tool_use_id blocks = map ToolUse.id toolUses
    /\ emitted w'
       = (emitted w
          ++ flat_map (tool_events (TaskContext.taskId ctx)) (zip toolUses blocks))%list
    /\ stored w' = stored w.
Proof.
  destruct (run_tools_events ctx toolUses [] completed w)
    as (blocks & w' & Hrun & Hids & Hs & He & _).
  exists blocks, w'. auto.
Qed.

(** X10. The conversation only grows: when the loop of a task returns, its
    messages are the prompt of the task followed by one or two messages
    for each iteration, so at most forty-one in all. *)
Theorem conversation_grows task w st' w' :
  while_loop env maxIterations (context_of task) (initial_state task) w
  = (Returned st', w') ->
  exists extra,
    LoopState.messages st' = user_prompt (Task.prompt task) :: extra
    /\ LoopState.iterations st' <= length extra
    /\ length extra <= 2 * LoopState.iterations st'
    /\ length (LoopState.messages st') <= 41.
Proof.
  intros Hrun.
  pose proof (while_loop_events maxIterations (context_of task) (initial_state task) w
                ltac:(apply Nat.le_add_r)) as H.
  rewrite Hrun in H.
  destruct H as (_ & _ & Hcap & _ & (extra & Hm & Hlo & Hhi) & _).
  simpl in Hcap, Hm, Hlo, Hhi. rewrite Nat.sub_0_r in Hlo. rewrite Nat.sub_0_r in Hhi.
  exists extra. split; [exact Hm |]. split; [exact Hlo |]. split; [exact Hhi |].
  rewrite Hm. simpl. unfold maxIterations in Hcap. lia.
Qed.

(** Once the project directory is there, a run of [processTask] ends, and
    it has emitted a terminal event. *)
Lemma processTask_ends task w :
  workspace_ready env task w ->
  exists o w' l,
    processTask env task w = (o, w')
    /\ o <> OutOfFuel
    /\ emitted w'
       = (emitted w
          ++ (Task.taskId task, task_started (AGENT_TYPE env) "Starting task processing...")
          :: l)%list
    /\ existsb is_terminal l = true.
Proof.
  intros Hready.
  destruct (processTask_start task w Hready) as (w1 & He1 & Hs1 & ->).
  assert (exists o w' l,
             try_catch
               (bind (while_loop env maxIterations (context_of task) (initial_state task))
                  (finish env (Task.taskId task)))
               (on_error env (Task.taskId task)) w1 = (o, w')
             /\ o <> OutOfFuel
             /\ emitted w' = (emitted w1 ++ l)%list
             /\ existsb is_terminal l = true) as (o & w' & l & -> & Ho & He & Ht).
  { unfold try_catch, bind.
    pose proof (while_loop_events maxIterations (context_of task) (initial_state task) w1
                  ltac:(apply Nat.le_add_r)) as Hloop.
    destruct (while_loop env maxIterations (context_of task) (initial_state task) w1)
      as [[st | message |] w2]; [| | contradiction].
    - destruct Hloop as (_ & _ & _ & Hend & _ & l & He2 & Hl & _ & Hc).
      simpl in Hc.
      pose proof (finish_events (Task.taskId task) st w2) as Hfin.
      assert (existsb is_terminal
                (l ++ if (maxIterations <=? LoopState.iterations st)%nat
                      then [(Task.taskId task,
                             task_warning "Reached maximum iterations limit")]
                      else [])%list = true) as Hterm.
      { rewrite existsb_app. destruct Hend as [Hdone | Hmax].
        - rewrite completed_is_terminal; [reflexivity | congruence].
        - apply Nat.leb_le in Hmax. rewrite Hmax. apply orb_true_r. }
      destruct (finish env (Task.taskId task) st w2) as [[[] | e |] w3];
        [| | contradiction].
      + eexists _, _, _. split; [reflexivity |]. split; [discriminate |].
        split; [| exact Hterm]. rewrite Hfin, He2, <- !app_assoc. reflexivity.
      + pose proof (on_error_events (Task.taskId task) e w3) as Herr.
        destruct (on_error env (Task.taskId task) e w3) as [[[] | e' |] w4];
          [| | contradiction];
          (eexists _, _, _; split; [reflexivity |]; split; [discriminate |];
           split; [rewrite Herr, Hfin, He2, <- !app_assoc; reflexivity |];
           rewrite !existsb_app; rewrite existsb_app in Hterm; rewrite orb_assoc, Hterm;
           reflexivity).
    - destruct Hloop as (_ & l & He2 & Hl).
      pose proof (on_error_events (Task.taskId task) message w2) as Herr.
      destruct (on_error env (Task.taskId task) message w2) as [[[] | e' |] w4];
        [| | contradiction];
        (eexists _, _, _; split; [reflexivity |]; split; [discriminate |];
         split; [rewrite Herr, He2, <- !app_assoc; reflexivity |];
         rewrite existsb_app; simpl; apply orb_true_r). }
  exists o, w', l. split; [reflexivity |]. split; [exact Ho |]. split; [| exact Ht].
  rewrite He, He1, <- app_assoc. reflexivity.
Qed.

(** [processTask] ends, with or without a project directory. *)
Lemma processTask_halts task w : fst (processTask env task w) <> OutOfFuel.
Proof.
  destruct (Fs.succeeds
              (Fs.mkdir (cwd env)
                 (NodePath.join2 (WORKSPACE_ROOT env) (Task.projectId task)) (tree w)))
    eqn:Hready.
  - destruct (processTask_ends task w Hready) as (o & w' & l & -> & Ho & _). exact Ho.
  - unfold processTask, bind at 1, fs_mkdir at 1.
    destruct (Fs.mkdir (cwd env) _ (tree w)) as [t | e]; [discriminate Hready |].
    discriminate.
Qed.

(** X11. Once the project directory is there, a run of [processTask] ends
    and tells its observers how: after [task_started] it emits a
    [task_completed], a [task_warning] or a [task_error], whatever the
    provider, the tools, the broker and the store do. *)
Theorem terminal_event_emitted task w :
  workspace_ready env task w ->
  fst (processTask env task w) <> OutOfFuel
  /\ exists l,
       emitted (snd (processTask env task w))
       = (emitted w
          ++ (Task.taskId task, task_started (AGENT_TYPE env) "Starting task processing...")
          :: l)%list
       /\ existsb is_terminal l = true.
Proof.
  intros Hready.
  destruct (processTask_ends task w Hready) as (o & w' & l & -> & Ho & He & Ht).
  split; [exact Ho |]. exists l. split; [exact He | exact Ht].
Qed.

(** X12. The project directory is made before the [try] block: when it
    cannot be made, [processTask] throws the error of [mkdir] to its
    caller, and it has emitted no event and stored no record. *)
Theorem no_workspace_no_trace task w :
  Fs.succeeds
    (Fs.mkdir (cwd env) (NodePath.join2 (WORKSPACE_ROOT env) (Task.projectId task))
       (tree w)) = false ->
  exists e,
    Fs.mkdir (cwd env) (NodePath.join2 (WORKSPACE_ROOT env) (Task.projectId task)) (tree w)
    = inr e
    /\ processTask env task w = (Threw e, w).
Proof.
  intros Hfail. unfold processTask, bind at 1, fs_mkdir at 1.
  destruct (Fs.mkdir (cwd env) _ (tree w)) as [t | e]; [discriminate Hfail |].
  exists e. split; reflexivity.
Qed.

(** X13. With a reliable broker and store, the number of iterations in the
    stored record is the number of [iteration_start] events of the run,
    and these events are numbered 1, 2, ... in order, each with the message
    [Iteration n/20]. *)
Theorem iteration_starts_numbered task w :
  reliable env ->
  workspace_ready env task w ->
  exists l record,
    emitted (snd (processTask env task w)) = (emitted w ++ l)%list
    /\ stored (snd (processTask env task w)) = (stored w ++ [record])%list
    /\ forall n,
         Result.iterations (StoreWrite.value record) = Some n ->
         List.filter is_iteration_start l = iteration_starts (Task.taskId task) 1 n.
Proof.
  intros Hrel Hready.
  destruct (processTask_trace task w Hrel Hready)
    as (w' & l & ts & -> & Hl
        & [(st & _ & _ & Hf & _ & He & Hs) | (message & He & Hs)]);
    cbn [snd]; eexists; eexists; (split; [exact He |]); (split; [exact Hs |]);
    cbn [StoreWrite.value Result.iterations Result.error Result.completed List.filter].
  - intros n [= <-].
    change (is_iteration_start (_, task_started _ _)) with false. cbv iota.
    rewrite List.filter_app, Hf.
    destruct (maxIterations <=? LoopState.iterations st)%nat; simpl;
      rewrite app_nil_r; reflexivity.
  - intros n H. discriminate H.
Qed.

(** X14. With a reliable broker and store, the error of the stored record
    and the [task_error] events of the run go together: a record with an
    error comes with exactly one [task_error] event, of the same message,
    and a record without an error with none. *)
Theorem error_reported_and_recorded task w :
  reliable env ->
  workspace_ready env task w ->
  exists l record,
    emitted (snd (processTask env task w)) = (emitted w ++ l)%list
    /\ stored (snd (processTask env task w)) = (stored w ++ [record])%list
    /\ List.filter is_error l
       = match Result.error (StoreWrite.value record) with
         | Some message => [(Task.taskId task, task_error message)]
         | None => []
         end.
Proof.
  intros Hrel Hready.
  destruct (processTask_trace task w Hrel Hready)
    as (w' & l & ts & -> & Hl
        & [(st & _ & _ & _ & _ & He & Hs) | (message & He & Hs)]);
    cbn [snd]; eexists; eexists; (split; [exact He |]); (split; [exact Hs |]);
    cbn [StoreWrite.value Result.iterations Result.error Result.completed List.filter].
  - change (is_error (_, task_started _ _)) with false. cbv iota.
    rewrite List.filter_app, (in_loop_not_error _ Hl).
    destruct (maxIterations <=? LoopState.iterations st)%nat; reflexivity.
  - change (is_error (_, task_started _ _)) with false. cbv iota.
    rewrite List.filter_app, (in_loop_not_error _ Hl). reflexivity.
Qed.

(** X15. The bridge ends a response after [task_completed] or
    [task_error] only.  With a reliable broker and store, a run whose
    record says that the task is not completed has used its twenty
    iterations, has emitted the warning, and has emitted no event after
    which the bridge ends the response. *)
Theorem capped_run_leaves_stream_open task w :
  reliable env ->
  workspace_ready env task w ->
  exists l record,
    emitted (snd (processTask env task w)) = (emitted w ++ l)%list
    /\ stored (snd (processTask env task w)) = (stored w ++ [record])%list
    /\ (Result.completed (StoreWrite.value record) = Some false ->
        Result.iterations (StoreWrite.value record) = Some maxIterations
        /\ existsb is_warning l = true
        /\ existsb (fun e => Bridge.closes (snd e)) l = false).
Proof.
  intros Hrel Hready.
  destruct (processTask_trace task w Hrel Hready)
    as (w' & l & ts & -> & Hl
        & [(st & Hcap & Hend & _ & Hc & He & Hs) | (message & He & Hs)]);
    cbn [snd]; eexists; eexists; (split; [exact He |]); (split; [exact Hs |]);
    cbn [StoreWrite.value Result.iterations Result.error Result.completed List.filter].
  - intros [= Hfalse]. destruct Hend as [Hdone | Hmax]; [congruence |].
    assert (LoopState.iterations st = maxIterations) as Hn by lia.
    rewrite Hn. split; [reflexivity |].
    change (maxIterations <=? maxIterations)%nat with true.
    cbn [existsb]. rewrite !existsb_app, (in_loop_closes _ Hl), <- Hc, Hfalse.
    split; [apply orb_true_r | reflexivity].
  - intros H. discriminate H.
Qed.

Lemma append_inj p a b : p +:+ a = p +:+ b -> a = b.
Proof.
  induction p as [| c p IH]; [intros H; exact H |].
  rewrite !append_cons. intros [= H]. apply IH, H.
Qed.

(** What a tool call delivers: file changes on the channel of the project. *)
Lemma executeTool_delivers toolName input ctx w :
  exists l,
    delivered (snd (executeTool env toolName input ctx w)) = (delivered w ++ l)%list
    /\ forall channel payload,
         In (channel, payload) l -> channel = "files:" +:+ TaskContext.projectId ctx.
Proof.
  destruct (executeTool_returns toolName input ctx w) as (r & w' & Hrun & _).
  assert (delivered w' = delivered w
          \/ exists payload,
               delivered w'
               = (delivered w ++ [("files:" +:+ TaskContext.projectId ctx, payload)])%list)
    as Hcases.
  { destruct (String.eqb_spec toolName "create_file") as [-> | Hc].
    { destruct (create_file_cases _ _ _ _ _ _ Hrun)
        as [(p & c & t1 & t2 & _ & _ & _ & _ & _ & -> & _) | (_ & Hd & _)];
        [right; eexists; reflexivity | left; exact Hd]. }
    destruct (String.eqb_spec toolName "edit_file") as [-> | He].
    { destruct (edit_file_cases _ _ _ _ _ _ Hrun)
        as [(p & before & t2 & _ & _ & _ & _ & _ & -> & _) | (_ & Hd & _)];
        [right; eexists; reflexivity | left; exact Hd]. }
    left. pose proof (executeTool_mute env toolName input ctx Hc He w) as H.
    rewrite Hrun in H. destruct H as [H _]. exact H. }
  rewrite Hrun. cbn [snd]. destruct Hcases as [Hd | (payload & Hd)].
  - exists []. rewrite app_nil_r. split; [exact Hd |]. intros ? ? [].
  - eexists. split; [exact Hd |]. intros channel payload' [[= <- _] | []]. reflexivity.
Qed.

(** X16. A tool announces a file change on the channel [files:<projectId>];
    the bridge of a task listens on [progress:<taskId>] and on
    [files:<taskId>].  So the bridge of the task forwards the file changes
    of its tools when the project and the task have the same identifier,
    and only then. *)
Theorem file_changes_reach_bridge_iff_same_id toolName input ctx w :
  exists l,
    delivered (snd (executeTool env toolName input ctx w)) = (delivered w ++ l)%list
    /\ forall channel payload,
         In (channel, payload) l ->
         channel = "files:" +:+ TaskContext.projectId ctx
         /\ (Bridge.subscribed (TaskContext.taskId ctx) channel = true
             <-> TaskContext.projectId ctx = TaskContext.taskId ctx).
Proof.
  destruct (executeTool_delivers toolName input ctx w) as (l & Hd & Hl).
  exists l. split; [exact Hd |]. intros channel payload Hin.
  rewrite (Hl _ _ Hin). split; [reflexivity |].
  unfold Bridge.subscribed, Bridge.progressChannel, Bridge.filesChannel.
  destruct (String.eqb_spec ("files:" +:+ TaskContext.projectId ctx)
              ("progress:" +:+ TaskContext.taskId ctx)) as [H | _];
    [rewrite !append_cons in H; discriminate H |].
  cbn [orb]. rewrite String.eqb_eq. split.
  - apply append_inj.
  - intros ->. reflexivity.
Qed.

(** X21. [publishProgress] never throws: with the broker down the event
    is lost and the caller is not told; with the broker up the event goes
    to [progress:<taskId>] with the time of the call.  The files and the
    store are not touched. *)
Theorem publishProgress_never_throws taskId event w :
  exists w',
    publishProgress env taskId event w = (Returned tt, w')
    /\ tree w' = tree w
    /\ stored w' = stored w
    /\ delivered w'
       = if broker_up env (ticks w)
         then (delivered w
               ++ [("progress:" +:+ taskId, ProgressMsg (now env (ticks w)) event)])%list
         else delivered w.
Proof.
  unfold publishProgress, try_catch, bind, date_now, publish. simpl.
  destruct (broker_up env (ticks w)); simpl; eexists; repeat split.
Qed.

(** X22. The stream loop stops at [message_stop]: the events that follow
    it are not read, and a stream that breaks off after it does no harm. *)
Theorem events_after_message_stop_are_ignored taskId before after broken broken' st w :
  process_stream env taskId (before ++ message_stop :: after) broken st w
  = process_stream env taskId (before ++ [message_stop]) broken' st w.
Proof.
  revert st w. induction before as [| event rest IH]; intros st w.
  - reflexivity.
  - simpl. unfold bind.
    destruct (on_event env taskId event st w) as [[st' | e |] w1]; try reflexivity.
    destruct (is_message_stop event); [reflexivity | apply IH].
Qed.

(** X23. The results of the tools go back to the model: an iteration whose
    response asks for tools adds two messages to the conversation, the
    response of the assistant and then one user message with a result for
    every tool use, in order and under its identifier.  The task is
    completed afterwards when it was before or when one of the tools is
    the completion tool. *)
Theorem tool_results_go_back ctx st w st' w' :
  iteration env ctx st w = (Returned st', w') ->
  StreamState.toolUses (Demo.received env ctx st w) <> [] ->
  exists results,
    LoopState.messages st'
    = (LoopState.messages st
       ++ [assistant (StreamState.content (Demo.received env ctx st w));
           user_results results])%list
    /\ map ToolResultBlock.tool_use_id results
       = map ToolUse.id (StreamState.toolUses (Demo.received env ctx st w))
    /\ LoopState.completed st'
       = LoopState.completed st
         || has_complete (StreamState.toolUses (Demo.received env ctx st w))
    /\ LoopState.iterations st' = S (LoopState.iterations st).
Proof.
  unfold iteration, Demo.received, bind at 1.
  destruct (receive env ctx st w) as [[s | e |] w1]; [| discriminate | discriminate].
  cbn [fst]. intros Hrun Huses.
  destruct (StreamState.toolUses s) as [| use rest] eqn:Htools; [congruence |].
  unfold bind in Hrun.
  destruct (run_tools_events ctx (use :: rest) [] (LoopState.completed st) w1)
    as (results & w2 & Htool & Hids & _).
  rewrite Htool in Hrun. injection Hrun as <- _. cbn [fst snd LoopState.messages
    LoopState.completed LoopState.iterations].
  exists results. rewrite <- app_assoc. auto.
Qed.

End Events.

(** ** The task queue *)

Lemma list_at_lPush key element r :
  Redis.list_at (Redis.lPush key element r) key = element :: Redis.list_at r key.
Proof. unfold Redis.lPush, Redis.list_at at 1. simpl. rewrite lookup_insert_eq. reflexivity. Qed.

Lemma list_at_rPush key element r :
  Redis.list_at (Redis.rPush key element r) key = (Redis.list_at r key ++ [element])%list.
Proof. unfold Redis.rPush, Redis.list_at at 1. simpl. rewrite lookup_insert_eq. reflexivity. Qed.

Lemma list_at_hSet key field value r k :
  Redis.list_at (Redis.hSet key field value r) k = Redis.list_at r k.
Proof. reflexivity. Qed.

(** [brPop] takes the tail of the list. *)
Lemma brPop_tail key r rest element :
  Redis.list_at r key = (rest ++ [element])%list ->
  exists r',
    Redis.brPop key r = (Some element, r')
    /\ Redis.list_at r' key = rest
    /\ Redis.hashes r' = Redis.hashes r
    /\ forall k, k <> key -> Redis.list_at r' k = Redis.list_at r k.
Proof.
  intros Hl. unfold Redis.brPop. rewrite Hl, rev_app_distr. simpl.
  eexists. split; [reflexivity |]. split; [| split; [reflexivity |]].
  - unfold Redis.list_at. simpl. rewrite lookup_insert_eq. simpl. apply rev_involutive.
  - intros k Hk. unfold Redis.list_at. simpl. rewrite lookup_insert_ne by congruence.
    reflexivity.
Qed.

Lemma brPop_empty key r : Redis.list_at r key = [] -> Redis.brPop key r = (None, r).
Proof. intros Hl. unfold Redis.brPop. rewrite Hl. reflexivity. Qed.

(** Draining a list returns its elements from the tail to the head. *)
Lemma drain_rev key elements r :
  Redis.list_at r key = rev elements ->
  Redis.drain (length elements) key r = elements.
Proof.
  revert r. induction elements as [| element rest IH]; intros r Hl; [reflexivity |].
  simpl in Hl. destruct (brPop_tail key r _ _ Hl) as (r' & Hpop & Hl' & _).
  simpl. rewrite Hpop. f_equal. apply IH, Hl'.
Qed.

Lemma submitted_list agentType requests r :
  forallb (fun request => SubmitTask.accepted agentType (snd request)) requests = true ->
  Redis.list_at (SubmitTask.submit_all requests r) ("queue:" +:+ agentType)
  = (rev (map (fun request =>
                 SubmitTask.task_of (fst request) (Request.body (snd request)))
            requests)
     ++ Redis.list_at r ("queue:" +:+ agentType))%list.
Proof.
  revert r. induction requests as [| [taskId req] rest IH]; intros r Hall; [reflexivity |].
  simpl in Hall. apply andb_prop in Hall as [Hreq Hrest].
  unfold SubmitTask.submit_all. simpl fold_left.
  fold (SubmitTask.submit_all rest (snd (SubmitTask.handler taskId None req r))).
  rewrite (IH _ Hrest). unfold SubmitTask.accepted in Hreq.
  apply andb_prop in Hreq as [Hreq Hagent]. apply andb_prop in Hreq as [Hreq Hprompt].
  apply andb_prop in Hreq as [Hreq Huser]. apply andb_prop in Hreq as [Hpost Hproject].
  apply String.eqb_eq in Hagent.
  apply negb_true_iff in Hproject, Huser, Hprompt.
  unfold SubmitTask.handler. rewrite Hpost, Hproject, Huser, Hprompt, Hagent. simpl snd.
  rewrite list_at_lPush. simpl. rewrite <- app_assoc. reflexivity.
Qed.

Lemma direct_list agentType requests r :
  forallb (fun request => QueueTask.accepted agentType (snd request)) requests = true ->
  Redis.list_at (QueueTask.submit_all requests r) ("queue:" +:+ agentType)
  = (Redis.list_at r ("queue:" +:+ agentType)
     ++ map (fun request => QueueTask.task_of (fst request) (Request.body (snd request)))
          requests)%list.
Proof.
  revert r. induction requests as [| [taskId req] rest IH]; intros r Hall;
    [symmetry; apply app_nil_r |].
  simpl in Hall. apply andb_prop in Hall as [Hreq Hrest].
  unfold QueueTask.submit_all. simpl fold_left.
  fold (QueueTask.submit_all rest (snd (QueueTask.handler taskId None None req r))).
  rewrite (IH _ Hrest). unfold QueueTask.accepted in Hreq.
  apply andb_prop in Hreq as [Hreq Hagent]. apply andb_prop in Hreq as [Hpost Hprompt].
  apply String.eqb_eq in Hagent. apply negb_true_iff in Hprompt.
  unfold QueueTask.handler. rewrite Hpost, Hprompt, Hagent. simpl snd.
  rewrite list_at_hSet, list_at_rPush. simpl. rewrite <- app_assoc. reflexivity.
Qed.

(** X17. First in, first out: the tasks that the submission handler has
    queued for an agent type leave the queue of that type in the order of
    their submission, each with the identifier, the user, the project and
    the prompt of its request. *)
Theorem submitted_tasks_leave_in_order agentType requests r :
  forallb (fun request => SubmitTask.accepted agentType (snd request)) requests = true ->
  Redis.list_at r ("queue:" +:+ agentType) = [] ->
  Redis.drain (length requests) ("queue:" +:+ agentType)
    (SubmitTask.submit_all requests r)
  = map (fun request => SubmitTask.task_of (fst request) (Request.body (snd request)))
      requests.
Proof.
  intros Hall Hempty.
  rewrite <- (length_map
                (fun request =>
                   SubmitTask.task_of (fst request) (Request.body (snd request)))
                requests).
  apply drain_rev. rewrite (submitted_list _ _ _ Hall), Hempty. apply app_nil_r.
Qed.

(** X18. Last in, first out: the direct queue handler adds at the end from
    which the worker takes, so the tasks that it has queued for an agent
    type leave the queue in the reverse order of their submission. *)
Theorem direct_tasks_leave_in_reverse agentType requests r :
  forallb (fun request => QueueTask.accepted agentType (snd request)) requests = true ->
  Redis.list_at r ("queue:" +:+ agentType) = [] ->
  Redis.drain (length requests) ("queue:" +:+ agentType)
    (QueueTask.submit_all requests r)
  = rev (map (fun request => QueueTask.task_of (fst request) (Request.body (snd request)))
           requests).
Proof.
  intros Hall Hempty.
  rewrite <- (length_map
                (fun request =>
                   QueueTask.task_of (fst request) (Request.body (snd request)))
                requests).
  rewrite <- length_rev.
  apply drain_rev. rewrite (direct_list _ _ _ Hall), Hempty, rev_involutive. reflexivity.
Qed.

(** A turn of the loop, in full. *)
Lemma turn_spec env r w :
  exists w' r',
    turn env r w = (Returned tt, w', r')
    /\ Redis.hashes r' = Redis.hashes r
    /\ (forall key, key <> queueName env -> Redis.list_at r' key = Redis.list_at r key)
    /\ (Redis.list_at r (queueName env) = [] \/ store_up env (ticks w) = false ->
        r' = r /\ w' = tick w)
    /\ (forall rest task,
          store_up env (ticks w) = true ->
          Redis.list_at r (queueName env) = (rest ++ [task])%list ->
          Redis.list_at r' (queueName env) = rest
          /\ w' = snd (processTask env task (tick w))).
Proof.
  unfold turn, brPop. destruct (store_up env (ticks w)) eqn:Hup.
  - destruct (Redis.list_at r (queueName env)) as [| first others] eqn:Hl.
    + rewrite (brPop_empty _ _ Hl). simpl. exists (tick w), r.
      split; [reflexivity |]. split; [reflexivity |]. split; [reflexivity |].
      split; [auto |]. intros rest task _ H. destruct rest; discriminate H.
    + destruct (@exists_last _ (first :: others)) as (rest0 & task0 & Hsplit);
        [discriminate |].
      rewrite Hsplit in Hl |- *. clear Hsplit.
      destruct (brPop_tail _ _ _ _ Hl) as (r' & Hpop & Hl' & Hh & Hother).
      rewrite Hpop. cbn [fst snd].
      pose proof (processTask_halts env task0 (tick w)) as Hhalt.
      destruct (processTask env task0 (tick w)) as [[[] | e |] w2] eqn:Hrun;
        [| | exfalso; apply Hhalt; reflexivity];
        (exists w2, r'; split; [reflexivity |]; split; [exact Hh |];
         split; [exact Hother |]; split;
         [intros [H | H]; [destruct rest0; discriminate H | discriminate H] |];
         intros rest task _ H; apply app_inj_tail in H as [<- <-];
         split; [exact Hl' | rewrite Hrun; reflexivity]).
  - exists (tick w), r.
    split; [reflexivity |]. split; [reflexivity |]. split; [reflexivity |].
    split; [auto |]. intros rest task H. discriminate H.
Qed.

(** X19. A turn of the worker's loop always comes back: whatever happens to
    the task, the loop goes on.  The turn touches no queue but the one of
    the worker's agent type; with that queue empty, or with Redis down, it
    leaves the queues and the world as they are; otherwise it takes the
    task at the tail and runs [processTask] on it. *)
Theorem turn_returns env r w :
  exists w' r',
    turn env r w = (Returned tt, w', r')
    /\ Redis.hashes r' = Redis.hashes r
    /\ (forall key, key <> queueName env -> Redis.list_at r' key = Redis.list_at r key)
    /\ (Redis.list_at r (queueName env) = [] \/ store_up env (ticks w) = false ->
        r' = r /\ w' = tick w)
    /\ (forall rest task,
          store_up env (ticks w) = true ->
          Redis.list_at r (queueName env) = (rest ++ [task])%list ->
          Redis.list_at r' (queueName env) = rest
          /\ w' = snd (processTask env task (tick w))).
Proof. apply turn_spec. Qed.

(** X20. The loop of the worker goes on, turn after turn.  It only takes
    from the tail of its own queue, at most one task a turn: it puts
    nothing back, and it touches no other queue and no hash. *)
Theorem processQueue_goes_on env turns r w :
  exists w' r' taken,
    processQueue env turns r w = (Returned tt, w', r')
    /\ Redis.list_at r (queueName env) = (Redis.list_at r' (queueName env) ++ taken)%list
    /\ length taken <= turns
    /\ Redis.hashes r' = Redis.hashes r
    /\ forall key, key <> queueName env -> Redis.list_at r' key = Redis.list_at r key.
Proof.
  revert r w. induction turns as [| turns IH]; intros r w.
  - exists w, r, []. rewrite app_nil_r. simpl. auto.
  - destruct (turn_spec env r w) as (w1 & r1 & Hturn & Hh1 & Hother1 & Hidle & Htake).
    simpl. rewrite Hturn.
    destruct (IH r1 w1) as (w2 & r2 & taken & -> & Hl2 & Hn2 & Hh2 & Hother2).
    assert (exists taken1,
               Redis.list_at r (queueName env)
               = (Redis.list_at r1 (queueName env) ++ taken1)%list
               /\ length taken1 <= 1) as (taken1 & Hl1 & Hn1).
    { destruct (store_up env (ticks w)) eqn:Hup.
      - destruct (Redis.list_at r (queueName env)) as [| first others] eqn:Hl.
        + destruct Hidle as [-> _]; [left; reflexivity |].
          exists []. rewrite Hl. split; [reflexivity | simpl; lia].
        + destruct (@exists_last _ (first :: others)) as (rest & task & Hsplit);
            [discriminate |].
          destruct (Htake rest task eq_refl Hsplit) as [Hrest _].
          exists [task]. rewrite Hrest. split; [exact Hsplit | simpl; lia].
      - destruct Hidle as [-> _]; [right; reflexivity |].
        exists []. rewrite app_nil_r. split; [reflexivity | simpl; lia]. }
    exists w2, r2, (taken ++ taken1)%list. split; [reflexivity |]. split; [| split; [| split]].
    + rewrite Hl1, Hl2, <- app_assoc. reflexivity.
    + rewrite length_app. lia.
    + congruence.
    + intros key Hkey. rewrite (Hother2 key Hkey). apply Hother1, Hkey.
Qed.

(** ** The properties at work *)

Lemma run_returned {A} (m : M A) (w : World) (r : A) :
  fst (m w) = Returned r -> m w = (Returned r, snd (m w)).
Proof. destruct (m w) as [o w']. simpl. intros ->. reflexivity. Qed.

(** X2: no tool is called [deploy]. *)
Lemma unknown_tool_is_refused_witness :
  executeTool (Demo.env Demo.talker) "deploy" Input.empty Demo.ctx Demo.world
  = (Returned (ToolResult.failure ("Unknown tool: " +:+ "deploy")), Demo.world).
Proof.
  apply (unknown_tool_is_refused (Demo.env Demo.talker) "deploy" Input.empty Demo.ctx
           Demo.world).
  simpl. intros H. repeat (destruct H as [H | H]; [discriminate H |]). exact H.
Defined.

(** X7: a path into a subdirectory. *)
Lemma target_inside_project_root_witness :
  inside
    (Fs.locate (cwd (Demo.env Demo.talker))
       (NodePath.join2 (WORKSPACE_ROOT (Demo.env Demo.talker)) "p1"))
    (Fs.locate (cwd (Demo.env Demo.talker))
       (NodePath.join2 (NodePath.join2 (WORKSPACE_ROOT (Demo.env Demo.talker)) "p1")
          "src/./app.js"))
  = true.
Proof.
  apply (target_inside_project_root (Demo.env Demo.talker) "p1" "src/./app.js").
  vm_compute. intros H. repeat (destruct H as [H | H]; [discriminate H |]). exact H.
Defined.


(** X4: [notes.txt] holds "hello world". *)
Lemma edit_then_read_witness :
  let env := Demo.env Demo.talker in
  let input := Demo.edit_input "notes.txt" "hello" "goodbye" in
  let w' := snd (executeTool env "edit_file" input Demo.ctx Demo.world) in
  exists p before,
    Input.path input = Some p
    /\ Fs.readFile (cwd env)
         (NodePath.join2
            (NodePath.join2 (WORKSPACE_ROOT env) (TaskContext.projectId Demo.ctx)) p)
         (tree Demo.world) = inl before
    /\ Js.includes before (Js.str (Input.old_content input)) = true
    /\ let after :=
         Js.replace before (Js.str (Input.old_content input))
           (Js.str (Input.new_content input)) in
       let text := Fs.utf8 (disk env) after in
       delivered w'
       = (delivered Demo.world
          ++ [("files:" +:+ TaskContext.projectId Demo.ctx, FileChange "edit" p after)])%list
       /\ executeTool env "read_file" input Demo.ctx w'
          = (Returned (ToolResult.ok (ToolResult.Contents text p (Js.line_count text))),
             w').
Proof.
  apply (edit_then_read (Demo.env Demo.talker)
           (Demo.edit_input "notes.txt" "hello" "goodbye") Demo.ctx Demo.world
           (ToolResult.ok (ToolResult.Written "Edited file: notes.txt" "notes.txt"))).
  - apply run_returned. vm_compute. reflexivity.
  - reflexivity.
Defined.


(** X6: [notes.txt] has one line. *)
Lemma read_file_counts_lines_witness :
  let env := Demo.env Demo.talker in
  let input := Demo.file_input "notes.txt" "" in
  let r := ToolResult.ok (ToolResult.Contents "hello world" "notes.txt" 1) in
  let w' := snd (executeTool env "read_file" input Demo.ctx Demo.world) in
  exists p content,
    Input.path input = Some p
    /\ Fs.readFile (cwd env)
         (NodePath.join2
            (NodePath.join2 (WORKSPACE_ROOT env) (TaskContext.projectId Demo.ctx)) p)
         (tree Demo.world) = inl content
    /\ r = ToolResult.ok
             (ToolResult.Contents content p (S (occurrences "010"%char content)))
    /\ w' = Demo.world.
Proof.
  apply (read_file_counts_lines (Demo.env Demo.talker) (Demo.file_input "notes.txt" "")
           Demo.ctx Demo.world
           (ToolResult.ok (ToolResult.Contents "hello world" "notes.txt" 1))).
  - apply run_returned. vm_compute. reflexivity.
  - reflexivity.
Defined.

(** X8: the first of two occurrences. *)
Lemma replace_splices_first_occurrence_witness :
  exists i before after,
    String.length before = i
    /\ "say hello, hello" = before +:+ "hello" +:+ after
    /\ (forall j, j < i -> String.substring j (String.length "hello") "say hello, hello"
                           <> "hello")
    /\ (occurrences "$"%char "bye" = 0 ->
        Js.replace "say hello, hello" "hello" "bye" = before +:+ "bye" +:+ after)
    /\ Js.replace "say hello, hello" "hello" "$&" = "say hello, hello".
Proof.
  apply (replace_splices_first_occurrence "say hello, hello" "hello" "bye").
  vm_compute. reflexivity.
Defined.

Lemma run_returns {A} (m : M A) (w : World) (d : A) :
  (match fst (m w) with Returned _ => true | _ => false end) = true ->
  m w = (Returned (match fst (m w) with Returned r => r | _ => d end), snd (m w)).
Proof. destruct (m w) as [[r | e |] w']; simpl; intros H; try discriminate H; reflexivity. Qed.

(** X10: the builder's conversation. *)
Lemma conversation_grows_witness :
  let run :=
    while_loop (Demo.env Demo.builder) maxIterations (context_of Demo.task)
      (initial_state Demo.task) Demo.world in
  let st' := match fst run with Returned st => st | _ => initial_state Demo.task end in
  exists extra,
    LoopState.messages st' = user_prompt (Task.prompt Demo.task) :: extra
    /\ LoopState.iterations st' <= length extra
    /\ length extra <= 2 * LoopState.iterations st'
    /\ length (LoopState.messages st') <= 41.
Proof.
  apply (conversation_grows (Demo.env Demo.builder) Demo.task Demo.world _
           (snd (while_loop (Demo.env Demo.builder) maxIterations (context_of Demo.task)
                   (initial_state Demo.task) Demo.world))).
  apply run_returns. vm_compute. reflexivity.
Defined.

(** X11: with the broker and the store down, the talker's task still ends
    with its events emitted. *)
Lemma terminal_event_emitted_witness :
  let env := Demo.env_with Demo.talker (fun _ => false) (fun _ => false) in
  fst (processTask env Demo.task Demo.world) <> OutOfFuel
  /\ exists l,
       emitted (snd (processTask env Demo.task Demo.world))
       = (emitted Demo.world
          ++ (Task.taskId Demo.task,
              task_started (AGENT_TYPE env) "Starting task processing...")
          :: l)%list
       /\ existsb is_terminal l = true.
Proof.
  apply (terminal_event_emitted
           (Demo.env_with Demo.talker (fun _ => false) (fun _ => false))
           Demo.task Demo.world).
  vm_compute. reflexivity.
Defined.

(** X12: a project directory below a file. *)
Lemma no_workspace_no_trace_witness :
  let env := Demo.env Demo.talker in
  exists e,
    Fs.mkdir (cwd env) (NodePath.join2 (WORKSPACE_ROOT env) (Task.projectId Requests.blocked))
      (tree Demo.world)
    = inr e
    /\ processTask env Requests.blocked Demo.world = (Threw e, Demo.world).
Proof.
  apply (no_workspace_no_trace (Demo.env Demo.talker) Requests.blocked Demo.world).
  vm_compute. reflexivity.
Defined.

(** X13: the builder needs two iterations. *)
Lemma iteration_starts_numbered_witness :
  let env := Demo.env Demo.builder in
  exists l record,
    emitted (snd (processTask env Demo.task Demo.world)) = (emitted Demo.world ++ l)%list
    /\ stored (snd (processTask env Demo.task Demo.world))
       = (stored Demo.world ++ [record])%list
    /\ forall n,
         Result.iterations (StoreWrite.value record) = Some n ->
         List.filter is_iteration_start l = iteration_starts (Task.taskId Demo.task) 1 n.
Proof.
  apply (iteration_starts_numbered (Demo.env Demo.builder) Demo.task Demo.world).
  - intros n. split; reflexivity.
  - vm_compute. reflexivity.
Defined.

(** X14: the provider is overloaded. *)
Lemma error_reported_and_recorded_witness :
  let env := Demo.env Demo.overloaded in
  exists l record,
    emitted (snd (processTask env Demo.task Demo.world)) = (emitted Demo.world ++ l)%list
    /\ stored (snd (processTask env Demo.task Demo.world))
       = (stored Demo.world ++ [record])%list
    /\ List.filter is_error l
       = match Result.error (StoreWrite.value record) with
         | Some message => [(Task.taskId Demo.task, task_error message)]
         | None => []
         end.
Proof.
  apply (error_reported_and_recorded (Demo.env Demo.overloaded) Demo.task Demo.world).
  - intros n. split; reflexivity.
  - vm_compute. reflexivity.
Defined.

(** X15: the restless provider never completes. *)
Lemma capped_run_leaves_stream_open_witness :
  let env := Demo.env Demo.restless in
  exists l record,
    emitted (snd (processTask env Demo.task Demo.world)) = (emitted Demo.world ++ l)%list
    /\ stored (snd (processTask env Demo.task Demo.world))
       = (stored Demo.world ++ [record])%list
    /\ (Result.completed (StoreWrite.value record) = Some false ->
        Result.iterations (StoreWrite.value record) = Some maxIterations
        /\ existsb is_warning l = true
        /\ existsb (fun e => Bridge.closes (snd e)) l = false).
Proof.
  apply (capped_run_leaves_stream_open (Demo.env Demo.restless) Demo.task Demo.world).
  - intros n. split; reflexivity.
  - vm_compute. reflexivity.
Defined.

(** X23: the builder's first response asks for a file. *)
Lemma tool_results_go_back_witness :
  let env := Demo.env Demo.builder in
  let ctx := context_of Demo.task in
  let st := initial_state Demo.task in
  let st' :=
    match fst (iteration env ctx st Demo.world) with Returned s => s | _ => st end in
  exists results,
    LoopState.messages st'
    = (LoopState.messages st
       ++ [assistant (StreamState.content (Demo.received env ctx st Demo.world));
           user_results results])%list
    /\ map ToolResultBlock.tool_use_id results
       = map ToolUse.id (StreamState.toolUses (Demo.received env ctx st Demo.world))
    /\ LoopState.completed st'
       = LoopState.completed st
         || has_complete (StreamState.toolUses (Demo.received env ctx st Demo.world))
    /\ LoopState.iterations st' = S (LoopState.iterations st).
Proof.
  apply (tool_results_go_back (Demo.env Demo.builder) (context_of Demo.task)
           (initial_state Demo.task) Demo.world _
           (snd (iteration (Demo.env Demo.builder) (context_of Demo.task)
                   (initial_state Demo.task) Demo.world))).
  - apply run_returns. vm_compute. reflexivity.
  - vm_compute. discriminate.
Defined.

(** X17: two submissions for the generic agent. *)
Lemma submitted_tasks_leave_in_order_witness :
  Redis.drain (length [Requests.first; Requests.second]) ("queue:" +:+ "generic")
    (SubmitTask.submit_all [Requests.first; Requests.second] Redis.empty)
  = map (fun request => SubmitTask.task_of (fst request) (Request.body (snd request)))
      [Requests.first; Requests.second].
Proof.
  apply (submitted_tasks_leave_in_order "generic" [Requests.first; Requests.second]
           Redis.empty).
  - vm_compute. reflexivity.
  - reflexivity.
Defined.

(** X18: two requests at the direct queue handler. *)
Lemma direct_tasks_leave_in_reverse_witness :
  Redis.drain (length [Requests.second; Requests.third]) ("queue:" +:+ "generic")
    (QueueTask.submit_all [Requests.second; Requests.third] Redis.empty)
  = rev (map (fun request => QueueTask.task_of (fst request) (Request.body (snd request)))
           [Requests.second; Requests.third]).
Proof.
  apply (direct_tasks_leave_in_reverse "generic" [Requests.second; Requests.third]
           Redis.empty).
  - vm_compute. reflexivity.
  - reflexivity.
Defined.

(** * The paths of a run *)

Section Paths.

Context (env : Env).

Lemma process_stream_throws taskId events broken st w message w' :
  process_stream env taskId events broken st w = (Threw message, w') ->
  broken = Some message.
Proof.
  revert st w. induction events as [| event rest IH]; intros st w; simpl.
  - destruct broken as [e |]; [intros [= <- _]; reflexivity | discriminate].
  - unfold bind.
    destruct (triple_returns _ _ w (on_event_only env taskId event st))
      as (st' & w1 & -> & _).
    destruct (is_message_stop event); [discriminate | apply IH].
Qed.

Lemma receive_throws ctx st w message w' :
  receive env ctx st w = (Threw message, w') -> provider_failed env message.
Proof.
  unfold receive, bind at 1.
  destruct (publishProgress_spec env (TaskContext.taskId ctx)
              (iteration_start (S (LoopState.iterations st))
                 ("Iteration " +:+ decimal (S (LoopState.iterations st)) +:+ "/"
                  +:+ decimal maxIterations)) w) as (w1 & -> & _).
  unfold bind, create_stream.
  destruct (provider env (LoopState.messages st)) as [e | events broken] eqn:E; simpl.
  - intros [= <- _]. exists (LoopState.messages st). rewrite E. reflexivity.
  - intros H. apply process_stream_throws in H. subst broken.
    exists (LoopState.messages st). rewrite E. reflexivity.
Qed.

Lemma iteration_throws ctx st w message w' :
  iteration env ctx st w = (Threw message, w') -> provider_failed env message.
Proof.
  unfold iteration, bind at 1.
  destruct (receive env ctx st w) as [[s | e |] w1] eqn:Hrecv.
  - destruct (StreamState.toolUses s) as [| use rest]; unfold bind.
    + destruct (publishProgress_spec env (TaskContext.taskId ctx)
                  (task_completed None None
                     (Some "Agent completed thinking, no more actions needed")) w1)
        as (w2 & -> & _).
      discriminate.
    + destruct (run_tools_events env ctx (use :: rest) [] (LoopState.completed st) w1)
        as (added & w2 & -> & _).
      discriminate.
  - intros [= <- _]. exact (receive_throws _ _ _ _ _ Hrecv).
  - discriminate.
Qed.

(** The loop throws only what the provider threw. *)
Lemma while_loop_throws fuel ctx st w message w' :
  while_loop env fuel ctx st w = (Threw message, w') -> provider_failed env message.
Proof.
  revert st w. induction fuel as [| fuel IH]; intros st w; rewrite while_loop_eq;
    destruct (negb (LoopState.completed st)
              && (LoopState.iterations st <? maxIterations)%nat);
    try discriminate.
  unfold bind. destruct (iteration env ctx st w) as [[st1 | e |] w1] eqn:Hstep.
  - apply IH.
  - intros [= <- _]. exact (iteration_throws _ _ _ _ _ Hstep).
  - discriminate.
Qed.

(** [processTask] and [loop_end] go the same way up to the end of the loop. *)
Lemma loop_end_start task w :
  workspace_ready env task w ->
  exists w1,
    emitted w1
    = (emitted w
       ++ [(Task.taskId task,
            task_started (AGENT_TYPE env) "Starting task processing...")])%list
    /\ stored w1 = stored w
    /\ loop_end env task w
       = while_loop env maxIterations (context_of task) (initial_state task) w1
    /\ processTask env task w
       = try_catch
           (bind (while_loop env maxIterations (context_of task) (initial_state task))
              (finish env (Task.taskId task)))
           (on_error env (Task.taskId task)) w1.
Proof.
  intros Hready. unfold workspace_ready in Hready.
  destruct (Fs.mkdir (cwd env)
              (NodePath.join2 (WORKSPACE_ROOT env) (Task.projectId task)) (tree w))
    as [t | e] eqn:Ht; [clear Hready | discriminate Hready].
  destruct (publishProgress_spec env (Task.taskId task)
              (task_started (AGENT_TYPE env) "Starting task processing...")
              (with_tree t w)) as (w1 & Hpub & _ & Hs1 & He1).
  exists w1. split; [exact He1 |]. split; [exact Hs1 |]. split.
  - unfold loop_end, bind at 1, fs_mkdir. rewrite Ht.
    unfold bind at 1. rewrite Hpub. reflexivity.
  - unfold processTask, bind at 1, fs_mkdir. rewrite Ht.
    unfold bind at 1. rewrite Hpub. reflexivity.
Qed.

(** The ending of the [try] block when the store accepts the record: the
    record is stored, and the completion broadcast decides how it ends. *)
Lemma finish_stored taskId st w :
  store_accepts env ->
  let calls := if (maxIterations <=? LoopState.iterations st)%nat then 1 else 0 in
  exists o w' timestamp,
    finish env taskId st w = (o, w')
    /\ emitted w'
       = (emitted w
          ++ if (maxIterations <=? LoopState.iterations st)%nat
             then [(taskId, task_warning "Reached maximum iterations limit")]
             else [])%list
    /\ stored w'
       = (stored w
          ++ [StoreWrite.mk ("result:" +:+ taskId)
                (Result.mk taskId (AGENT_TYPE env) (Some (LoopState.iterations st))
                   (Some (LoopState.completed st)) None timestamp)
                3600])%list
    /\ (if broker_up env (S (ticks w + calls))
        then o = Returned tt
        else o = Threw "The client is closed").
Proof.
  intros Hstore calls. unfold finish.
  assert (exists w1,
             (if (maxIterations <=? LoopState.iterations st)%nat
              then publishProgress env taskId
                     (task_warning "Reached maximum iterations limit")
              else ret tt) w = (Returned tt, w1)
             /\ stored w1 = stored w
             /\ ticks w1 = ticks w + calls
             /\ emitted w1
                = (emitted w
                   ++ if (maxIterations <=? LoopState.iterations st)%nat
                      then [(taskId, task_warning "Reached maximum iterations limit")]
                      else [])%list) as (w1 & Hw1 & Hs1 & Ht1 & He1).
  { subst calls. destruct (maxIterations <=? LoopState.iterations st)%nat.
    - unfold publishProgress, try_catch, bind, date_now, publish. simpl.
      destruct (broker_up env (ticks w)); simpl; eexists;
        (split; [reflexivity |]); simpl; repeat split; lia.
    - exists w. rewrite app_nil_r. repeat split. lia. }
  unfold bind at 1. rewrite Hw1.
  unfold bind, date_now, set_result, publish. simpl.
  rewrite (Hstore (ticks w1)). simpl. rewrite <- Ht1.
  destruct (broker_up env (S (ticks w1))); simpl;
    eexists; eexists; exists (now env (ticks w1));
    (split; [reflexivity |]); simpl; rewrite He1, Hs1; repeat split.
Qed.

(** The [catch] block when the store accepts the record. *)
Lemma on_error_stored taskId message w :
  store_accepts env ->
  exists w' timestamp,
    on_error env taskId message w = (Returned tt, w')
    /\ emitted w' = (emitted w ++ [(taskId, task_error message)])%list
    /\ stored w'
       = (stored w
          ++ [StoreWrite.mk ("result:" +:+ taskId)
                (Result.mk taskId (AGENT_TYPE env) None None (Some message) timestamp)
                3600])%list.
Proof.
  intros Hstore. unfold on_error, bind at 1.
  destruct (publishProgress_spec env taskId (task_error message) w)
    as (w1 & -> & _ & Hs1 & He1).
  unfold bind, date_now, set_result. simpl.
  rewrite (Hstore (ticks w1)). simpl.
  eexists; exists (now env (ticks w1)). split; [reflexivity |]. simpl.
  rewrite He1, Hs1. split; reflexivity.
Qed.

(** A run whose project directory is there and whose store accepts the
    records, path by path: the loop ends and the broadcast is accepted; the
    loop ends and the broadcast is refused; the provider fails. *)
Lemma processTask_paths task w :
  workspace_ready env task w ->
  store_accepts env ->
  exists w' l timestamp,
    processTask env task w = (Returned tt, w')
    /\ forallb in_loop l = true
    /\ match loop_end env task w with
       | (Returned st, w2) =>
           let warning :=
             if (maxIterations <=? LoopState.iterations st)%nat
             then [(Task.taskId task, task_warning "Reached maximum iterations limit")]
             else [] in
           let record :=
             StoreWrite.mk ("result:" +:+ Task.taskId task)
               (Result.mk (Task.taskId task) (AGENT_TYPE env)
                  (Some (LoopState.iterations st)) (Some (LoopState.completed st))
                  None timestamp)
               3600 in
           LoopState.iterations st <= maxIterations
           /\ LoopState.completed st = existsb is_completed l
           /\ if broker_up env
                   (S (ticks w2
                       + if (maxIterations <=? LoopState.iterations st)%nat
                         then 1 else 0))
              then
                emitted w'
                = (emitted w
                   ++ (Task.taskId task,
                       task_started (AGENT_TYPE env) "Starting task processing...")
                   :: l ++ warning)%list
                /\ stored w' = (stored w ++ [record])%list
              else
                exists timestamp',
                  emitted w'
                  = (emitted w
                     ++ (Task.taskId task,
                         task_started (AGENT_TYPE env) "Starting task processing...")
                     :: l ++ warning
                     ++ [(Task.taskId task, task_error "The client is closed")])%list
                  /\ stored w'
                     = (stored w
                        ++ [record;
                            StoreWrite.mk ("result:" +:+ Task.taskId task)
                              (Result.mk (Task.taskId task) (AGENT_TYPE env) None None
                                 (Some "The client is closed") timestamp')
                              3600])%list
       | (Threw message, _) =>
           provider_failed env message
           /\ emitted w'
              = (emitted w
                 ++ (Task.taskId task,
                     task_started (AGENT_TYPE env) "Starting task processing...")
                 :: l ++ [(Task.taskId task, task_error message)])%list
           /\ stored w'
              = (stored w
                 ++ [StoreWrite.mk ("result:" +:+ Task.taskId task)
                       (Result.mk (Task.taskId task) (AGENT_TYPE env) None None
                          (Some message) timestamp)
                       3600])%list
       | (OutOfFuel, _) => False
       end.
Proof.
  intros Hready Hstore.
  destruct (loop_end_start task w Hready) as (w1 & He1 & Hs1 & -> & ->).
  unfold try_catch, bind.
  pose proof (while_loop_events env maxIterations (context_of task) (initial_state task) w1
                ltac:(apply Nat.le_add_r)) as Hloop.
  destruct (while_loop env maxIterations (context_of task) (initial_state task) w1)
    as [[st | message |] w2] eqn:Hrun; [| | contradiction].
  - destruct Hloop as (Hs2 & _ & Hcap & _ & _ & l & He2 & Hl & _ & Hc).
    destruct (finish_stored (Task.taskId task) st w2 Hstore)
      as (o & w3 & ts & -> & He3 & Hs3 & Ho).
    cbv zeta in Ho.
    destruct (broker_up env
                (S (ticks w2
                    + if (maxIterations <=? LoopState.iterations st)%nat then 1 else 0))).
    + subst o. exists w3, l, ts. split; [reflexivity |]. split; [exact Hl |].
      split; [apply Hcap; simpl; lia |]. split; [exact Hc |]. split.
      * rewrite He3, He2, He1, <- !app_assoc. reflexivity.
      * rewrite Hs3, Hs2, Hs1. reflexivity.
    + subst o.
      destruct (on_error_stored (Task.taskId task) "The client is closed" w3 Hstore)
        as (w4 & ts' & -> & He4 & Hs4).
      exists w4, l, ts. split; [reflexivity |]. split; [exact Hl |].
      split; [apply Hcap; simpl; lia |]. split; [exact Hc |].
      exists ts'. split.
      * rewrite He4, He3, He2, He1, <- !app_assoc. reflexivity.
      * rewrite Hs4, Hs3, Hs2, Hs1, <- app_assoc. reflexivity.
  - destruct Hloop as (Hs2 & l & He2 & Hl).
    destruct (on_error_stored (Task.taskId task) message w2 Hstore)
      as (w3 & ts & -> & He3 & Hs3).
    exists w3, l, ts. split; [reflexivity |]. split; [exact Hl |].
    split; [exact (while_loop_throws _ _ _ _ _ _ Hrun) |]. split.
    + rewrite He3, He2, He1, <- !app_assoc. reflexivity.
    + rewrite Hs3, Hs2, Hs1. reflexivity.
Qed.

End Paths.

(** * The claims *)

(** C1. The workspace resolution does not keep a model-supplied path
    inside the project root: [create_file] at ["../../escape.txt"] succeeds
    and writes two levels above the project directory, [edit_file] rewrites
    a file of the worker itself and [read_file] returns its content. *)
Theorem create_file_escapes_project_root :
  let env := Demo.env Demo.talker in
  let root := Fs.locate (cwd env) (NodePath.join2 (WORKSPACE_ROOT env) "p1") in
  let created :=
    executeTool env "create_file" (Demo.file_input "../../escape.txt" "x")
      Demo.ctx Demo.world in
  let edited :=
    executeTool env "edit_file" (Demo.edit_input "../../server.js" "8082" "0")
      Demo.ctx Demo.world in
  let read :=
    executeTool env "read_file" (Demo.file_input "../../server.js" "")
      Demo.ctx Demo.world in
  root = ["app"; ".workspace"; "p1"]
  /\ fst created
     = Returned
         (ToolResult.ok
            (ToolResult.Written "Created file: ../../escape.txt" "../../escape.txt"))
  /\ tree Demo.world !! ["app"; "escape.txt"] = None
  /\ tree (snd created) !! ["app"; "escape.txt"] = Some (Fs.File "x")
  /\ inside root ["app"; "escape.txt"] = false
  /\ fst edited
     = Returned
         (ToolResult.ok
            (ToolResult.Written "Edited file: ../../server.js" "../../server.js"))
  /\ tree Demo.world !! ["app"; "server.js"] = Some (Fs.File "listen(8082)")
  /\ tree (snd edited) !! ["app"; "server.js"] = Some (Fs.File "listen(0)")
  /\ inside root ["app"; "server.js"] = false
  /\ fst read
     = Returned
         (ToolResult.ok (ToolResult.Contents "listen(8082)" "../../server.js" 1)).
Proof. vm_compute. repeat split. Qed.

Section Claims.

Context (env : Env).

(** C2, as amended. When the project directory can be created, the store
    accepts its calls and the broker accepts the completion broadcast,
    [processTask] returns and writes exactly one record under
    [result:<taskId>]; an iterations count recorded in it is at most
    [maxIterations].  The broker may refuse any publication of progress.
    (Nothing is said of a run whose completion broadcast is refused.) *)
Theorem exactly_one_result task w :
  workspace_ready env task w ->
  store_accepts env ->
  broadcast_accepted env task w = true ->
  fst (processTask env task w) = Returned tt /\ writes_one_result env task w.
Proof.
  intros Hready Hstore Hcast.
  destruct (processTask_paths env task w Hready Hstore) as (w' & l & ts & Hrun & _ & H).
  unfold broadcast_accepted in Hcast. unfold writes_one_result. rewrite Hrun. cbn [fst snd].
  split; [reflexivity |].
  destruct (loop_end env task w) as [[st | message |] w2]; [| | contradiction].
  - destruct H as (Hcap & _ & H). cbv zeta in H. rewrite Hcast in H.
    destruct H as [_ Hs]. eexists. split; [exact Hs |]. split; [reflexivity |].
    cbn [StoreWrite.value Result.iterations]. intros n [= <-]. exact Hcap.
  - destruct H as (_ & _ & Hs). eexists. split; [exact Hs |]. split; [reflexivity |].
    cbn [StoreWrite.value Result.iterations]. intros n Hn. discriminate Hn.
Qed.


(** C4. When the batch of an iteration holds a [task_complete], the
    iteration dispatches the whole batch, returns with the task completed,
    and the loop does not run again. *)
Theorem task_complete_ends_loop ctx st s w w1 :
  receive env ctx st w = (Returned s, w1) ->
  has_complete (StreamState.toolUses s) = true ->
  exists st' w' results,
    iteration env ctx st w = (Returned st', w')
    /\ LoopState.completed st' = true
    /\ LoopState.iterations st' = S (LoopState.iterations st)
    /\ LoopState.messages st'
       = (LoopState.messages st
          ++ [assistant (StreamState.content s); user_results results])%list
    /\ List.length results = List.length (StreamState.toolUses s)
    /\ forall fuel, while_loop env fuel ctx st' w' = (Returned st', w').
Proof.
  intros Hrecv Hhas. unfold iteration, bind at 1. rewrite Hrecv.
  destruct (StreamState.toolUses s) as [| use uses] eqn:Huses; [discriminate Hhas |].
  destruct (triple_returns _ _ w1
              (run_tools_quiet env ctx (use :: uses) [] (LoopState.completed st)))
    as (r & w' & Hrun & _ & Hlen & Hc).
  unfold bind. rewrite Hrun. simpl ret.
  eexists; exists w', (fst r). split; [reflexivity |]. simpl.
  rewrite Hhas, orb_true_r in Hc.
  repeat split.
  - exact Hc.
  - rewrite <- app_assoc. reflexivity.
  - exact Hlen.
  - intros fuel. apply while_loop_completed. exact Hc.
Qed.

(** C5. When the finalized response of an iteration holds no tool use,
    the iteration emits [task_completed], returns with the task completed,
    and the loop does not run again. *)
Theorem no_tools_completes ctx st s w w1 :
  receive env ctx st w = (Returned s, w1) ->
  StreamState.toolUses s = [] ->
  exists st' w',
    iteration env ctx st w = (Returned st', w')
    /\ LoopState.completed st' = true
    /\ LoopState.iterations st' = S (LoopState.iterations st)
    /\ emitted w'
       = (emitted w1
          ++ [(TaskContext.taskId ctx,
               task_completed None None
                 (Some "Agent completed thinking, no more actions needed"))])%list
    /\ forall fuel, while_loop env fuel ctx st' w' = (Returned st', w').
Proof.
  intros Hrecv Hnone. unfold iteration, bind at 1. rewrite Hrecv, Hnone.
  destruct (publishProgress_spec env (TaskContext.taskId ctx)
              (task_completed None None
                 (Some "Agent completed thinking, no more actions needed")) w1)
    as (w' & Hpub & _ & _ & He).
  unfold bind. rewrite Hpub. simpl ret.
  eexists; exists w'. split; [reflexivity |]. simpl. repeat split.
  - exact He.
  - intros fuel. apply while_loop_completed. reflexivity.
Qed.


(** C7. When the file can be read and the old content does not occur in
    it, [edit_file] fails with a message that names the file, and the
    state, the file included, is as before. *)
Theorem edit_file_absent_content input ctx p content w :
  Input.path input = Some p ->
  Fs.readFile (cwd env)
    (NodePath.join2 (NodePath.join2 (WORKSPACE_ROOT env) (TaskContext.projectId ctx)) p)
    (tree w) = inl content ->
  ~ (exists pre post, content = pre +:+ Js.str (Input.old_content input) +:+ post) ->
  executeTool env "edit_file" input ctx w
  = (Returned
       (ToolResult.failure
          ("Old content not found in " +:+ p +:+ ". The file may have changed.")),
     w).
Proof.
  intros Hpath Hread Habsent.
  assert (Js.includes content (Js.str (Input.old_content input)) = false) as Hinc.
  { destruct (Js.includes content (Js.str (Input.old_content input))) eqn:E;
      [| reflexivity].
    apply includes_spec in E. contradiction. }
  unfold executeTool.
  change (String.eqb "edit_file" "create_file") with false.
  change (String.eqb "edit_file" "edit_file") with true.
  cbv iota. unfold try_catch, bind. rewrite Hpath. simpl path_join. unfold ret at 1.
  unfold fs_readFile. rewrite Hread. simpl lift_fs. cbv iota beta. rewrite Hinc. reflexivity.
Qed.

(** C8, as amended. When the project directory can be created, the store
    accepts its calls and the broker accepts the completion broadcast, the
    record that [processTask] stores is kept under [result:<taskId>] for
    3600 seconds with the task and the agent type, and its shape goes with
    the path of the run.  On the success path, where the loop ends without
    an exception, it has the counter of the loop, at most [maxIterations],
    and the flag of the loop, and no error.  On the provider-error path it
    has the message of the provider as its error, and neither iterations
    nor [completed]. *)
Theorem stored_records_shape task w :
  workspace_ready env task w ->
  store_accepts env ->
  broadcast_accepted env task w = true ->
  exists sw,
    stored (snd (processTask env task w)) = (stored w ++ [sw])%list
    /\ StoreWrite.key sw = "result:" +:+ Task.taskId task
    /\ StoreWrite.ttl sw = 3600%Z
    /\ recorded_on_path env task w (StoreWrite.value sw).
Proof.
  intros Hready Hstore Hcast.
  destruct (processTask_paths env task w Hready Hstore) as (w' & l & ts & Hrun & _ & H).
  unfold broadcast_accepted in Hcast. unfold recorded_on_path. rewrite Hrun. cbn [snd].
  destruct (loop_end env task w) as [[st | message |] w2]; [| | contradiction]; cbn [fst].
  - destruct H as (Hcap & _ & H). cbv zeta in H. rewrite Hcast in H.
    destruct H as [_ Hs]. eexists. split; [exact Hs |]. simpl. auto 10.
  - destruct H as (Hfailed & _ & Hs). eexists. split; [exact Hs |]. simpl. auto 10.
Qed.


(** C10. The completion tool returns [success = true] and
    [completed = true] for every input, with or without its fields, and
    leaves the state alone; a batch that holds it leaves the tool loop with
    the task completed. *)
Theorem task_complete_always_succeeds input ctx w :
  (exists r,
      executeTool env "task_complete" input ctx w = (Returned r, w)
      /\ ToolResult.success r = true
      /\ ToolResult.completed r = Some true
      /\ ToolResult.error r = None)
  /\ forall toolUses toolResults completed,
       has_complete toolUses = true ->
       exists r w',
         run_tools env ctx toolUses toolResults completed w = (Returned r, w')
         /\ snd r = true.
Proof.
  split.
  - eexists. rewrite executeTool_task_complete. repeat split.
  - intros toolUses toolResults completed Hhas.
    destruct (triple_returns _ _ w
                (run_tools_quiet env ctx toolUses toolResults completed))
      as (r & w' & Hrun & _ & _ & Hc).
    exists r, w'. split; [exact Hrun |].
    rewrite Hc, Hhas. apply orb_true_r.
Qed.

End Claims.

(** ** The claims at work *)

(** C2: the broker refuses the start of the talker's task and accepts the
    rest; one record is written all the same. *)
Lemma exactly_one_result_witness :
  fst (processTask Trouble.env_first_lost Demo.task Demo.world) = Returned tt
  /\ writes_one_result Trouble.env_first_lost Demo.task Demo.world.
Proof.
  apply (exactly_one_result Trouble.env_first_lost Demo.task Demo.world).
  - vm_compute. reflexivity.
  - intros n. reflexivity.
  - vm_compute. reflexivity.
Defined.

(** C2 as it is written fails: with the store down no record is written;
    and when the broker refuses the completion broadcast, and nothing else,
    the [catch] block writes a second record over the first. *)
Lemma no_single_result_when_redis_fails :
  stored (snd (processTask Trouble.env_store_down Demo.task Demo.world)) = []
  /\ ~ writes_one_result Trouble.env_store_down Demo.task Demo.world
  /\ broadcast_accepted Demo.env_broadcast_lost Demo.task Demo.world = false
  /\ List.length (stored (snd (processTask Demo.env_broadcast_lost Demo.task Demo.world)))
     = 2
  /\ ~ writes_one_result Demo.env_broadcast_lost Demo.task Demo.world.
Proof.
  split; [vm_compute; reflexivity |]. split; [| split; [| split]].
  - intros (sw & H & _). vm_compute in H. destruct (stored Demo.world); discriminate H.
  - vm_compute. reflexivity.
  - vm_compute. reflexivity.
  - intros (sw & H & _). vm_compute in H. discriminate H.
Qed.



(** C4: the closer asks for the completion and a search in one batch. *)
Lemma task_complete_ends_loop_witness :
  has_complete
    (StreamState.toolUses
       (Demo.received (Demo.env Demo.closer) Demo.ctx (initial_state Demo.task) Demo.world))
  = true
  /\ exists st' w' results,
       iteration (Demo.env Demo.closer) Demo.ctx (initial_state Demo.task) Demo.world
       = (Returned st', w')
       /\ LoopState.completed st' = true
       /\ LoopState.iterations st' = 1
       /\ LoopState.messages st'
          = (LoopState.messages (initial_state Demo.task)
             ++ [assistant
                   (StreamState.content
                      (Demo.received (Demo.env Demo.closer) Demo.ctx
                         (initial_state Demo.task) Demo.world));
                 user_results results])%list
       /\ List.length results = 2
       /\ forall fuel,
            while_loop (Demo.env Demo.closer) fuel Demo.ctx st' w' = (Returned st', w').
Proof.
  split; [vm_compute; reflexivity |].
  apply (task_complete_ends_loop (Demo.env Demo.closer) Demo.ctx (initial_state Demo.task)
           (Demo.received (Demo.env Demo.closer) Demo.ctx (initial_state Demo.task)
              Demo.world)
           Demo.world
           (snd (receive (Demo.env Demo.closer) Demo.ctx (initial_state Demo.task)
                   Demo.world))).
  - vm_compute. reflexivity.
  - vm_compute. reflexivity.
Defined.

(** C5: the talker answers with text only. *)
Lemma no_tools_completes_witness :
  StreamState.toolUses
    (Demo.received (Demo.env Demo.talker) Demo.ctx (initial_state Demo.task) Demo.world)
  = []
  /\ exists st' w',
       iteration (Demo.env Demo.talker) Demo.ctx (initial_state Demo.task) Demo.world
       = (Returned st', w')
       /\ LoopState.completed st' = true
       /\ LoopState.iterations st' = 1
       /\ emitted w'
          = (emitted
               (snd (receive (Demo.env Demo.talker) Demo.ctx (initial_state Demo.task)
                       Demo.world))
             ++ [("t1",
                  task_completed None None
                    (Some "Agent completed thinking, no more actions needed"))])%list
       /\ forall fuel,
            while_loop (Demo.env Demo.talker) fuel Demo.ctx st' w' = (Returned st', w').
Proof.
  split; [vm_compute; reflexivity |].
  apply (no_tools_completes (Demo.env Demo.talker) Demo.ctx (initial_state Demo.task)
           (Demo.received (Demo.env Demo.talker) Demo.ctx (initial_state Demo.task)
              Demo.world)
           Demo.world
           (snd (receive (Demo.env Demo.talker) Demo.ctx (initial_state Demo.task)
                   Demo.world))).
  - vm_compute. reflexivity.
  - vm_compute. reflexivity.
Defined.



(** With the disk full, a failing [edit_file] has emptied the file. *)
Example edit_file_breaks_off :
  executeTool Trouble.env_disk_full "edit_file" (Demo.edit_input "notes.txt" "hello" "bye")
    Demo.ctx Demo.world
  = (Returned (ToolResult.failure "ENOSPC: no space left on device, write"),
     with_tree
       (<[ ["app"; ".workspace"; "p1"; "notes.txt"] := Fs.File "" ]> Demo.workspace)
       Demo.world).
Proof. vm_compute. reflexivity. Qed.

(** C7: [notes.txt] holds "hello world", and "bye" is not in it. *)
Lemma edit_file_absent_content_witness :
  executeTool (Demo.env Demo.talker) "edit_file" (Demo.edit_input "notes.txt" "bye" "hi")
    Demo.ctx Demo.world
  = (Returned
       (ToolResult.failure
          "Old content not found in notes.txt. The file may have changed."),
     Demo.world).
Proof.
  apply (edit_file_absent_content (Demo.env Demo.talker)
           (Demo.edit_input "notes.txt" "bye" "hi") Demo.ctx "notes.txt" "hello world"
           Demo.world).
  - reflexivity.
  - vm_compute. reflexivity.
  - intros H. apply includes_spec in H. vm_compute in H. discriminate H.
Defined.

(** C8: the provider is overloaded; the record has its message. *)
Lemma stored_records_shape_witness :
  exists sw,
    stored (snd (processTask (Demo.env Demo.overloaded) Demo.task Demo.world))
    = (stored Demo.world ++ [sw])%list
    /\ StoreWrite.key sw = "result:" +:+ Task.taskId Demo.task
    /\ StoreWrite.ttl sw = 3600%Z
    /\ recorded_on_path (Demo.env Demo.overloaded) Demo.task Demo.world
         (StoreWrite.value sw).
Proof.
  apply (stored_records_shape (Demo.env Demo.overloaded) Demo.task Demo.world).
  - vm_compute. reflexivity.
  - intros n. reflexivity.
  - vm_compute. reflexivity.
Defined.

(** C8 as it is written fails: the record of a provider error has neither
    the iterations nor [completed]. *)
Lemma error_record_lacks_fields :
  stored (snd (processTask (Demo.env Demo.overloaded) Demo.task Demo.world))
  = [StoreWrite.mk "result:t1"
       (Result.mk "t1" "generic" None None (Some "Overloaded") 3) 3600]
  /\ ~ stores_uniform_records (Demo.env Demo.overloaded) Demo.task Demo.world.
Proof.
  split; [vm_compute; reflexivity |].
  intros H.
  specialize
    (H (StoreWrite.mk "result:t1"
          (Result.mk "t1" "generic" None None (Some "Overloaded") 3) 3600)).
  vm_compute in H.
  destruct (H (or_introl eq_refl)) as [[[n Hn] _] _]. discriminate Hn.
Qed.

